(** * Coastal-flood dashboard: data acquisition, parsing and derivation

    A shallow embedding of the data pipeline of [script.js]: the risk
    classifier, the forecast CSV parser with its daily and hourly
    aggregation, the historical-event CSV parser, the per-site event
    catalog cache and the asset-resolution callers.

    Conventions of the embedding.
    - A JavaScript number that is not NaN is a [num]: a rational, which
      is a binary64 value wherever the code computes with Numbers, or one
      of the two infinities.  [parseFloat], sums, differences and
      products round to the nearest binary64 value, ties to even, with
      the subnormal numbers and the overflow to an infinity
      ([Num.round64]).  The sign of zero is not modelled.  For
      [parseFloat(x.toFixed(3))] the forecast series keep the decimal
      that [toFixed] prints ([Num.toFixed]), of which the Number is the
      nearest binary64 value; the catalog parser, whose result is
      compared and added again, and the interannual view take that
      nearest value ([Num.toFixedNumber]).  A number that may be NaN is
      an [option num], [None] being NaN; [isNaN x] is [x = None].
    - A JavaScript string is a [string], one [ascii] per code unit.
    - [undefined] (a missing array element, a missing column) is [None].
    - Module-level mutable state ([RELEASE_INFO], [EVENT_DATA_CACHE]) lives
      in a [World] record that every asynchronous function threads.  The
      cache maps a site id to a reference into a heap of catalog objects,
      so that returning the same object is returning the same reference.
      The cache is a plain object: reading it under the name of a member
      of [Object.prototype] gives that member ([cacheEntry]).
    - An asynchronous function is given twice.  As a state transformer
      ([M]) it is the call run from its start to its return with nothing
      in between.  As a task ([Async.t], module [Call]) it is suspended
      at every [await], and the page ([Process], [step]) starts calls and
      resumes suspended ones in any order; the two agree on a call that
      is not interrupted.
    - A global that [script.js] reads and does not declare
      ([SELECTED_RUN_DATE]) is a parameter: [None] where the page has no
      such global. *)

From stdpp Require Import gmap strings list.
From Stdlib Require Import ZArith QArith Qabs Ascii String DecimalString.
From Stdlib Require Import Lia ZifyNat Lqa Bool.
From Stdlib Require Import Permutation Sorted.

Local Open Scope Z_scope.

(* ================================================================== *)
(** ** Numbers *)
(* ================================================================== *)

Inductive num : Type :=
  | NegInf
  | Fin (q : Q)
  | PosInf.

(** A number or NaN. *)
Abbreviation jsnum := (option num).

Definition Qlt_bool (x y : Q) : bool := negb (Qle_bool y x).

Module Num.

Definition zero : num := Fin 0.

(** [a < b] on numbers that are not NaN. *)
Definition lt (a b : num) : bool :=
  match a, b with
  | _, NegInf => false
  | NegInf, _ => true
  | PosInf, _ => false
  | _, PosInf => true
  | Fin x, Fin y => Qlt_bool x y
  end.

(** [a <= b]. *)
Definition le (a b : num) : bool :=
  match a, b with
  | NegInf, _ => true
  | _, NegInf => false
  | _, PosInf => true
  | PosInf, _ => false
  | Fin x, Fin y => Qle_bool x y
  end.

Definition gt (a b : num) : bool := lt b a.
Definition ge (a b : num) : bool := le b a.

(** [Math.max] of two numbers that are not NaN. *)
Definition max (a b : num) : num := if lt a b then b else a.

Definition neg (a : num) : num :=
  match a with
  | NegInf => PosInf
  | Fin x => Fin (Qred (- x))
  | PosInf => NegInf
  end.

(** *** Binary64 *)

(** The integer part of the binary logarithm of [n / d]. *)
Definition floorLog2 (n d : positive) : Z :=
  let l := Z.log2 (Zpos n) - Z.log2 (Zpos d) in
  let reached :=
    if 0 <=? l then Zpos d * 2 ^ l <=? Zpos n
    else Zpos d <=? Zpos n * 2 ^ (- l) in
  if reached then l else l - 1.

(** The integer nearest to [n / d] for [0 <= n] and [0 < d], the even one
    on a tie. *)
Definition roundEven (n d : Z) : Z :=
  let k := n / d in
  match 2 * (n mod d) ?= d with
  | Lt => k
  | Gt => k + 1
  | Eq => if Z.even k then k else k + 1
  end.

(** The binary64 value nearest to the positive rational [n / d]: a
    multiple [k * 2^e] of the unit in the last place, where [e] is 52
    below the binary exponent of the rational and not below -1074 (the
    subnormal numbers), [k] being rounded to the nearest integer, to the
    even one on a tie; from [2^1024] on the value is Infinity. *)
Definition round64pos (n d : positive) : num :=
  let e := Z.max (floorLog2 n d - 52) (-1074) in
  if 0 <=? e then
    let v := roundEven (Zpos n) (Zpos d * 2 ^ e) * 2 ^ e in
    if 2 ^ 1024 <=? v then PosInf else Fin (inject_Z v)
  else
    Fin (Qred (Qmake (roundEven (Zpos n * 2 ^ (- e)) (Zpos d))
                 (Z.to_pos (2 ^ (- e))))).

(** The Number value for a real number: round to nearest, ties to even.
    A result that rounds to zero is the one zero of the model. *)
Definition round64 (x : Q) : num :=
  match Qnum x with
  | Z0 => Fin 0
  | Zpos n => round64pos n (Qden x)
  | Zneg n => neg (round64pos n (Qden x))
  end.

(** The Number value of the literal [1.05]. *)
Definition onePointZeroFive : num := round64 (105 # 100).

(** [a + b]: the exact sum, rounded; the sum of opposite infinities is
    NaN. *)
Definition add (a b : num) : jsnum :=
  match a, b with
  | Fin x, Fin y => Some (round64 (x + y))
  | PosInf, NegInf | NegInf, PosInf => None
  | PosInf, _ | _, PosInf => Some PosInf
  | NegInf, _ | _, NegInf => Some NegInf
  end.

Definition sub (a b : num) : jsnum := add a (neg b).

Definition sign (a : num) : Z :=
  match a with
  | NegInf => -1
  | Fin x => Z.sgn (Qnum x)
  | PosInf => 1
  end.

(** [a * b]: the exact product, rounded; zero times an infinity is
    NaN. *)
Definition mul (a b : num) : jsnum :=
  match a, b with
  | Fin x, Fin y => Some (round64 (x * y))
  | _, _ =>
      match sign a * sign b with
      | Z0 => None
      | Zpos _ => Some PosInf
      | Zneg _ => Some NegInf
      end
  end.

(** Nearest integer, a tie going away from zero. *)
Definition roundHalfAway (x : Q) : Z :=
  let n := Qnum x in
  let d := Zpos (Qden x) in
  if 0 <=? n then (2 * n + d) / (2 * d)
  else - ((2 * (- n) + d) / (2 * d)).

(** The decimal that [x.toFixed(f)] prints: [x] rounded to [f] decimals.
    [toFixed] picks the integer [n] with [n / 10^f] nearest to [|x|], the
    larger one on a tie, and keeps the sign; an infinity prints as
    [Infinity].  (From 1e21 on [toFixed] prints the number itself; a
    binary64 value that large is an integer, which the rounding leaves as
    it is.)  The forecast series keep this decimal for the Number that
    [parseFloat] reads back from the text. *)
Definition toFixed (f : nat) (a : num) : num :=
  match a with
  | Fin x =>
      let p := 10 ^ Z.of_nat f in
      Fin (Qred (Qmake (roundHalfAway (x * inject_Z p)) (Z.to_pos p)))
  | _ => a
  end.

(** [parseFloat(x.toFixed(f))] as the Number it is: the binary64 value
    nearest to the decimal printed. *)
Definition toFixedNumber (f : nat) (a : num) : num :=
  match toFixed f a with
  | Fin y => round64 y
  | v => v
  end.

(** Lifting to numbers that may be NaN: NaN is contagious. *)
Definition add' (a b : jsnum) : jsnum :=
  match a, b with Some x, Some y => add x y | _, _ => None end.
Definition sub' (a b : jsnum) : jsnum :=
  match a, b with Some x, Some y => sub x y | _, _ => None end.
Definition mul' (a b : jsnum) : jsnum :=
  match a, b with Some x, Some y => mul x y | _, _ => None end.
Definition toFixed' (f : nat) (a : jsnum) : jsnum :=
  match a with Some x => Some (toFixed f x) | None => None end.
Definition toFixedNumber' (f : nat) (a : jsnum) : jsnum :=
  match a with Some x => Some (toFixedNumber f x) | None => None end.

(** Comparisons with a NaN operand are false. *)
Definition lt' (a b : jsnum) : bool :=
  match a, b with Some x, Some y => lt x y | _, _ => false end.
Definition le' (a b : jsnum) : bool :=
  match a, b with Some x, Some y => le x y | _, _ => false end.
Definition gt' (a b : jsnum) : bool := lt' b a.
Definition ge' (a b : jsnum) : bool := le' b a.

(** [x || 0]: NaN and zero are falsy. *)
Definition orZero (a : jsnum) : num :=
  match a with
  | None => zero
  | Some (Fin x) => if Qeq_bool x 0 then zero else Fin x
  | Some v => v
  end.

Definition isFinite (a : num) : bool :=
  match a with Fin _ => true | _ => false end.

End Num.

(* ================================================================== *)
(** ** Risk classifier *)
(* ================================================================== *)

Inductive RiskLevel : Type :=
  | NoFlood
  | Warning
  | HighRisk
  | SevereFlood.

(** The position of a level in the ordinal scale. *)
Definition rank (r : RiskLevel) : nat :=
  match r with
  | NoFlood => 0
  | Warning => 1
  | HighRisk => 2
  | SevereFlood => 3
  end.

(** [twl < risk_classes[i]]: a missing element is [undefined], and a
    comparison with [undefined] is false. *)
Definition ltElem (twl : num) (risk_classes : list num) (i : nat) : bool :=
  match risk_classes !! i with
  | Some b => Num.lt twl b
  | None => false
  end.

Definition classifyRisk (twl thresh : num) (risk_classes : list num)
  : RiskLevel :=
  if Num.lt twl thresh then NoFlood
  else if ltElem twl risk_classes 0 then Warning
  else if ltElem twl risk_classes 1 then HighRisk
  else SevereFlood.

(* ================================================================== *)
(** ** Strings *)
(* ================================================================== *)

(** White space removed by [String.prototype.trim] among the code units
    below 256: tab, line feed, vertical tab, form feed, carriage return,
    space and no-break space. *)
Definition isWhite (c : ascii) : bool :=
  let n := nat_of_ascii c in
  ((n =? 9) || (n =? 10) || (n =? 11) || (n =? 12) || (n =? 13)
   || (n =? 32) || (n =? 160))%nat.

Fixpoint trimStart (s : string) : string :=
  match s with
  | String c r => if isWhite c then trimStart r else s
  | EmptyString => EmptyString
  end.

Fixpoint trimEnd (s : string) : string :=
  match s with
  | String c r =>
      match trimEnd r with
      | EmptyString => if isWhite c then EmptyString else String c EmptyString
      | r' => String c r'
      end
  | EmptyString => EmptyString
  end.

Definition trim (s : string) : string := trimEnd (trimStart s).

(** [s.split(sep)] for a one-character separator. *)
Fixpoint splitOn (sep : ascii) (s : string) : list string :=
  match s with
  | EmptyString => [EmptyString]
  | String c r =>
      if Ascii.eqb c sep then EmptyString :: splitOn sep r
      else match splitOn sep r with
           | h :: t => String c h :: t
           | [] => [String c EmptyString]
           end
  end.

Definition comma : ascii := ","%char.
Definition LF : ascii := ascii_of_nat 10.
Definition CR : ascii := ascii_of_nat 13.
Definition quote : ascii := ascii_of_nat 34.

(** Drops one carriage return at the end of [s], if there is one. *)
Fixpoint dropFinalCR (s : string) : string :=
  match s with
  | EmptyString => EmptyString
  | String c EmptyString => if Ascii.eqb c CR then EmptyString else s
  | String c r => String c (dropFinalCR r)
  end.

(** Applies [f] to every element but the last. *)
Fixpoint mapInit {A : Type} (f : A -> A) (l : list A) : list A :=
  match l with
  | [] => []
  | [x] => [x]
  | x :: r => f x :: mapInit f r
  end.

(** [s.split(/\r?\n/)]: the separator is a line feed together with the
    carriage return before it, when there is one. *)
Definition splitLines (s : string) : list string :=
  mapInit dropFinalCR (splitOn LF s).

Definition lowerChar (c : ascii) : ascii :=
  let n := nat_of_ascii c in
  if ((65 <=? n) && (n <=? 90))%nat then ascii_of_nat (n + 32) else c.

Fixpoint toLowerCase (s : string) : string :=
  match s with
  | EmptyString => EmptyString
  | String c r => String (lowerChar c) (toLowerCase r)
  end.

(** [s.includes(sub)]. *)
Fixpoint includes (sub s : string) : bool :=
  if String.prefix sub s then true
  else match s with
       | EmptyString => false
       | String _ r => includes sub r
       end.

(** Removes every double-quote character: [replace] with the global
    pattern of one double quote and the empty replacement. *)
Fixpoint removeQuotes (s : string) : string :=
  match s with
  | EmptyString => EmptyString
  | String c r =>
      if Ascii.eqb c quote then removeQuotes r else String c (removeQuotes r)
  end.

(** [arr.findIndex(p)]; [None] stands for the result [-1]. *)
Fixpoint findIndexFrom {A : Type} (p : A -> bool) (l : list A) (i : nat)
  : option nat :=
  match l with
  | [] => None
  | x :: r => if p x then Some i else findIndexFrom p r (S i)
  end.

Definition findIndex {A : Type} (p : A -> bool) (l : list A) : option nat :=
  findIndexFrom p l 0.

(** [arr[i]] where [i] came from [findIndex]: index [-1] and an index past
    the end both read [undefined]. *)
Definition at_ {A : Type} (l : list A) (i : option nat) : option A :=
  match i with
  | Some n => l !! n
  | None => None
  end.

(* ------------------------------------------------------------------ *)
(** *** [parseFloat] *)

Definition digitOf (c : ascii) : option Z :=
  let n := nat_of_ascii c in
  if ((48 <=? n) && (n <=? 57))%nat then Some (Z.of_nat (n - 48)) else None.

(** Reads the longest run of decimal digits at the head of [s]: the value
    accumulated on [acc], the number of digits read, the rest. *)
Fixpoint readDigits (s : string) (acc : Z) (n : nat) : Z * nat * string :=
  match s with
  | String c r =>
      match digitOf c with
      | Some d => readDigits r (10 * acc + d) (S n)
      | None => (acc, n, s)
      end
  | EmptyString => (acc, n, s)
  end.

(** The exponent part [e], [e+] or [e-] followed by at least one digit;
    anything else is not part of the literal and counts as exponent 0. *)
Definition readExponent (s : string) : Z :=
  match s with
  | String c r =>
      if Ascii.eqb c "e"%char || Ascii.eqb c "E"%char then
        match r with
        | String sg r' =>
            if Ascii.eqb sg "+"%char then
              match readDigits r' 0 0%nat with
              | (_, O, _) => 0
              | (e, _, _) => e
              end
            else if Ascii.eqb sg "-"%char then
              match readDigits r' 0 0%nat with
              | (_, O, _) => 0
              | (e, _, _) => - e
              end
            else
              match readDigits r 0 0%nat with
              | (_, O, _) => 0
              | (e, _, _) => e
              end
        | EmptyString => 0
        end
      else 0
  | EmptyString => 0
  end.

(** The value [m * 10^k]. *)
Definition scale10 (m k : Z) : Q :=
  if 0 <=? k then inject_Z (m * 10 ^ k)
  else Qred (Qmake m (Z.to_pos (10 ^ (- k)))).

(** The longest prefix of [s] that is an unsigned decimal literal:
    [Infinity], digits with an optional fraction and exponent, or a
    fraction that starts with the point.  Its value is the Number value
    of the decimal: the nearest binary64 value, zero when the decimal
    underflows and Infinity when it overflows. *)
Definition parseUnsigned (s : string) : jsnum :=
  if String.prefix "Infinity" s then Some PosInf
  else
    let '(ip, ni, r1) := readDigits s 0 0%nat in
    let '(m, nf, r2) :=
      match r1 with
      | String c r =>
          if Ascii.eqb c "."%char then readDigits r ip 0%nat
          else (ip, 0%nat, r1)
      | EmptyString => (ip, 0%nat, r1)
      end in
    match (ni + nf)%nat with
    | O => None
    | _ => Some (Num.round64 (scale10 m (readExponent r2 - Z.of_nat nf)))
    end.

(** [parseFloat(s)]: leading white space is skipped, then the longest
    prefix that is a signed decimal literal is read; NaN when there is
    none. *)
Definition parseFloat (s : string) : jsnum :=
  match trimStart s with
  | String c r =>
      if Ascii.eqb c "-"%char then
        match parseUnsigned r with
        | Some v => Some (Num.neg v)
        | None => None
        end
      else if Ascii.eqb c "+"%char then parseUnsigned r
      else parseUnsigned (String c r)
  | EmptyString => None
  end.

(** [parseFloat(x)] where [x] may be [undefined]: [undefined] is first
    turned into the string [undefined], in which no number starts. *)
Definition parseFloatU (x : option string) : jsnum :=
  match x with
  | Some s => parseFloat s
  | None => None
  end.

(* ================================================================== *)
(** ** Forecast series *)
(* ================================================================== *)

Definition NUM_DAYS : nat := 7.
Definition TIME_INTERVAL_MINUTES : nat := 10.
Definition DATA_POINTS_PER_HOUR : nat := 60 / TIME_INTERVAL_MINUTES.
Definition DATA_POINTS_PER_DAY : nat := 24 * DATA_POINTS_PER_HOUR.

Record DailyEntry : Type := {
  date : string;
  fullDate : string;
  max_water_level : num;
  risk : RiskLevel
}.

Record ForecastSeries : Type := {
  daily : list DailyEntry;
  hourly : list num
}.

Record Site : Type := {
  id : string;
  name : string;
  lat : num;
  lng : num;
  threshold : num;
  risk_class : list num;
  forecastData : option ForecastSeries
}.

(** An element of [rawTWLData]; [twl] passed the [isNaN] test. *)
Record Sample : Type := {
  timestamp : string;
  twl : num
}.

Definition emptySeries : ForecastSeries := {| daily := []; hourly := [] |}.

(** [arr.slice(startIdx, endIdx)] for [0 <= startIdx <= endIdx]. *)
Definition slice {A : Type} (startIdx endIdx : nat) (l : list A) : list A :=
  take (endIdx - startIdx) (drop startIdx l).

(** [arr.filter((_, index) => p(index))], the index counted from [i]. *)
Fixpoint filterIndexFrom {A : Type} (p : nat -> bool) (l : list A) (i : nat)
  : list A :=
  match l with
  | [] => []
  | x :: r =>
      if p i then x :: filterIndexFrom p r (S i) else filterIndexFrom p r (S i)
  end.

Definition isTWLHeader (h : string) : bool :=
  String.eqb (toLowerCase (trim h)) "total_water_level".

(** The body of the [dataRows.forEach] callback: the sample a line
    contributes, if any. *)
Definition rowSample (twlColumnIndex : nat) (line : string) : option Sample :=
  let cols := splitOn comma line in
  if (twlColumnIndex <? List.length cols)%nat then
    let timestamp := nth 0 cols EmptyString in
    match parseFloatU (cols !! twlColumnIndex) with
    | Some twl => Some {| timestamp := timestamp; twl := twl |}
    | None => None
    end
  else None.

Definition pushRow (twlColumnIndex : nat) (rawTWLData : list Sample)
  (line : string) : list Sample :=
  match rowSample twlColumnIndex line with
  | Some s => rawTWLData ++ [s]
  | None => rawTWLData
  end.

Definition forecastLines (csvText : string) : list string :=
  splitOn LF (trim csvText).

Definition twlColumn (csvText : string) : option nat :=
  findIndex isTWLHeader (splitOn comma (nth 0 (forecastLines csvText) EmptyString)).

(** [rawTWLData] once the [forEach] over the data rows is done. *)
Definition retainedRows (csvText : string) (twlColumnIndex : nat)
  : list Sample :=
  fold_left (pushRow twlColumnIndex) (drop 1 (forecastLines csvText)) [].

(** [dayTWLData.reduce((max, item) => Math.max(max, item.twl), 0)]. *)
Definition maxTWL (dayTWLData : list Sample) : num :=
  fold_left (fun max item => Num.max max (twl item)) dayTWLData Num.zero.

(** [rawTWLData.filter(index % 6 === 0).map(toFixed(3))]. *)
Definition hourlyOf (rawTWLData : list Sample) : list num :=
  map (fun item => Num.toFixed 3 (twl item))
    (filterIndexFrom (fun index => (index mod DATA_POINTS_PER_HOUR =? 0)%nat)
       rawTWLData 0).

Section Forecast.

(** The three parts of the en-US rendering that [getForecastDate] asks of
    [toLocaleDateString] for the run date plus [dayIndex] days: the
    weekday, the month with the day, the year.  The calendar arithmetic
    and the locale data belong to the runtime; [SELECTED_RUNTIME_DATE] is
    a valid date, set from [formatDateToYYYYMMDD] or from the checked
    value of the date input. *)
Variable weekdayOf : nat -> string.
Variable monthDayOf : nat -> string.
Variable yearOf : nat -> string.

Definition getForecastDate (dayIndex : nat) : string :=
  (weekdayOf dayIndex ++ ", " ++ monthDayOf dayIndex ++ ", "
     ++ yearOf dayIndex)%string.

(** One round of the body of the daily loop after the [break] test: the
    entry pushed for day [i].  [None] is the [TypeError] of calling [trim]
    on [undefined], when the label has no second comma-separated part. *)
Definition dayEntry (site : Site) (i : nat) (dayTWLData : list Sample)
  : option DailyEntry :=
  let max_twl := maxTWL dayTWLData in
  let risk := classifyRisk max_twl (threshold site) (risk_class site) in
  let fullDate := getForecastDate i in
  match splitOn comma fullDate !! 1%nat with
  | Some part =>
      Some {| date := trim part;
              fullDate := fullDate;
              max_water_level := Num.toFixed 3 max_twl;
              risk := risk |}
  | None => None
  end.

(** [for (let i = ...; i < NUM_DAYS; i++)] with [fuel = NUM_DAYS - i]
    rounds left; [None] when a round throws. *)
Fixpoint dailyLoop (site : Site) (rawTWLData : list Sample) (fuel i : nat)
  (dailyData : list DailyEntry) : option (list DailyEntry) :=
  match fuel with
  | O => Some dailyData
  | S fuel' =>
      let startIdx := (i * DATA_POINTS_PER_DAY)%nat in
      let endIdx := (startIdx + DATA_POINTS_PER_DAY)%nat in
      let dayTWLData := slice startIdx endIdx rawTWLData in
      (* dayTWLData.length < DATA_POINTS_PER_DAY / 4 *)
      if (List.length dayTWLData * 4 <? DATA_POINTS_PER_DAY)%nat then Some dailyData
      else
        match dayEntry site i dayTWLData with
        | Some entry =>
            dailyLoop site rawTWLData fuel' (S i) (dailyData ++ [entry])
        | None => None
        end
  end.

(** [parseForecastCSV(csvText, site)]; [None] when it throws. *)
Definition parseForecastCSV (csvText : string) (site : Site)
  : option ForecastSeries :=
  let lines := forecastLines csvText in
  if (List.length lines <? 2)%nat then Some emptySeries
  else
    match twlColumn csvText with
    | None => Some emptySeries
    | Some twlColumnIndex =>
        let rawTWLData := retainedRows csvText twlColumnIndex in
        match dailyLoop site rawTWLData NUM_DAYS 0 [] with
        | Some dailyData =>
            Some {| daily := dailyData; hourly := hourlyOf rawTWLData |}
        | None => None
        end
    end.

(** *** What the aggregation computes, in closed form *)

(** The samples the aggregation works on: none after an early return. *)
Definition forecastSamples (csvText : string) : list Sample :=
  if (List.length (forecastLines csvText) <? 2)%nat then []
  else
    match twlColumn csvText with
    | Some twlColumnIndex => retainedRows csvText twlColumnIndex
    | None => []
    end.

(** The window of day [i]. *)
Definition dayWindow (rawTWLData : list Sample) (i : nat) : list Sample :=
  slice (i * DATA_POINTS_PER_DAY)
        (i * DATA_POINTS_PER_DAY + DATA_POINTS_PER_DAY) rawTWLData.

(** The entry of day [i], read off its window. *)
Definition entryOfDay (site : Site) (rawTWLData : list Sample) (i : nat)
  : DailyEntry :=
  let max_twl := maxTWL (dayWindow rawTWLData i) in
  {| date := trim (nth 1 (splitOn comma (getForecastDate i)) EmptyString);
     fullDate := getForecastDate i;
     max_water_level := Num.toFixed 3 max_twl;
     risk := classifyRisk max_twl (threshold site) (risk_class site) |}.

(** The number of days emitted for [n] samples: day [i] is emitted when
    it is among the first [NUM_DAYS] and at least a quarter of its window
    is there, that is when [n >= i * 144 + 36]. *)
Definition daysEmitted (n : nat) : nat :=
  Nat.min NUM_DAYS
    ((n + (DATA_POINTS_PER_DAY - DATA_POINTS_PER_DAY / 4)) / DATA_POINTS_PER_DAY).

End Forecast.

(* ================================================================== *)
(** ** Historical events *)
(* ================================================================== *)

Module Event.

Record t : Type := {
  id : string;
  name : string;
  (* Order: tide, surge, runup *)
  twl_components : list num;
  twl_peak : num;
  Hs : num;
  dur_h : num
}.

End Event.

(** The decimal digits of a non-negative integer. *)
Definition digitsOfZ (z : Z) : string :=
  NilZero.string_of_uint (N.to_uint (Z.to_N z)).

(** [s] without the zeros at its end. *)
Fixpoint dropFinalZeros (s : string) : string :=
  match s with
  | EmptyString => EmptyString
  | String c r =>
      match dropFinalZeros r with
      | EmptyString => if Ascii.eqb c "0"%char then EmptyString
                       else String c EmptyString
      | r' => String c r'
      end
  end.

(** The search of [Number::toString] for a binary64 integer [x] of [n]
    decimal digits: the integer with the fewest significant digits, [k]
    or more, whose Number value is [x]; among those with as few digits
    the nearest to [x], the one with the even last digit on a tie.  17
    digits always suffice. *)
Fixpoint shortestFrom (x n : Z) (k : Z) (fuel : nat) : Z :=
  match fuel with
  | O => x
  | S fuel' =>
      let p := 10 ^ (n - k) in
      let lo := x / p * p in
      let hi := lo + p in
      let same v :=
        match Num.round64 (inject_Z v) with
        | Fin y => Qeq_bool y (inject_Z x)
        | _ => false
        end in
      match same lo, same hi with
      | true, true =>
          match x - lo ?= hi - x with
          | Lt => lo
          | Gt => hi
          | Eq => if Z.even (x / p) then lo else hi
          end
      | true, false => lo
      | false, true => hi
      | false, false => shortestFrom x n (k + 1) fuel'
      end
  end.

(** [String(x)] for a binary64 integer [x] from 1e21 on: the shortest
    digits that read back as [x], in exponent form. *)
Definition exponentForm (x : Z) : string :=
  let n := Z.of_nat (String.length (digitsOfZ x)) in
  let c := digitsOfZ (shortestFrom x n 1 17) in
  let exponent := digitsOfZ (Z.of_nat (String.length c) - 1) in
  match dropFinalZeros c with
  | String d EmptyString => (String d "e+" ++ exponent)%string
  | String d r => (String d ("." ++ r) ++ "e+" ++ exponent)%string
  | EmptyString => "0"
  end.

(** The text of [x.toFixed(f)].  The sign is that of [x], also when the
    digits round to zero.  From 1e21 on the text is that of [String]
    applied to the magnitude. *)
Definition toFixedString (f : nat) (a : num) : string :=
  match a with
  | PosInf => "Infinity"
  | NegInf => "-Infinity"
  | Fin x =>
      let digits :=
        if Qle_bool (inject_Z (10 ^ 21)) (Qabs x) then
          exponentForm (Qnum (Qabs x) / Zpos (Qden x))
        else
          let n := Num.roundHalfAway (Qabs x * inject_Z (10 ^ Z.of_nat f)) in
          let ds := digitsOfZ n in
          let padded :=
            (String.concat "" (repeat "0" (S f - String.length ds)) ++ ds)%string in
          let k := (String.length padded - f)%nat in
          match f with
          | O => padded
          | _ => (substring 0 k padded ++ "." ++ substring k f padded)%string
          end in
      if Qlt_bool x 0 then ("-" ++ digits)%string else digits
  end.

(** The column indices found in the header; [None] is [-1]. *)
Record Columns : Type := {
  dateIdx : option nat;
  twlIdx : option nat;
  tideIdx : option nat;
  surgeIdx : option nat;
  runupIdx : option nat;
  hsIdx : option nat;
  durIdx : option nat
}.

(** [cols[i]?.trim().replace(...)]: the cell without its quotes, or
    [undefined]. *)
Definition cell (cols : list string) (i : option nat) : option string :=
  match at_ cols i with
  | Some s => Some (removeQuotes (trim s))
  | None => None
  end.

(** Truthiness of a string that may be [undefined]. *)
Definition truthy (x : option string) : bool :=
  match x with
  | Some (String _ _) => true
  | _ => false
  end.

Definition isNaN (x : jsnum) : bool :=
  match x with
  | Some _ => false
  | None => true
  end.

Definition isNone {A : Type} (x : option A) : bool :=
  match x with
  | Some _ => false
  | None => true
  end.

(** The surge kept for a row: the parsed one, or the residual
    [twlPeak - tide - runup] rounded to 3 decimals when the column is
    missing or the parsed value looks incorrect. *)
Definition correctedSurge (ix : Columns) (twlPeak : jsnum)
  (tide surge runup : num) : jsnum :=
  if isNone (surgeIdx ix)
     || Num.le surge Num.zero
     || Num.gt' (Num.add' (Num.add surge tide) (Some runup))
                (Num.mul' twlPeak (Some Num.onePointZeroFive))
  then Num.toFixedNumber' 3
         (Num.sub' (Num.sub' twlPeak (Some tide)) (Some runup))
  else Some surge.

(** The test that guards [events.push]. *)
Definition accepted (dateStr : option string) (twlPeak : jsnum)
  (tide : num) (surge : jsnum) (runup : num) : bool :=
  truthy dateStr
  && negb (isNaN twlPeak)
  && Num.gt' twlPeak (Some Num.zero)
  && Num.ge tide Num.zero
  && Num.ge' surge (Some Num.zero)
  && Num.ge runup Num.zero.

(** The constants the [forEach] callback of [parseXtremEventCSV] computes
    from a line. *)
Definition rowDate (ix : Columns) (line : string) : option string :=
  cell (splitOn comma line) (dateIdx ix).

Definition rowPeak (ix : Columns) (line : string) : jsnum :=
  parseFloatU (cell (splitOn comma line) (twlIdx ix)).

Definition rowTide (ix : Columns) (line : string) : num :=
  Num.orZero (parseFloatU (cell (splitOn comma line) (tideIdx ix))).

(** The surge as parsed, before the residual correction. *)
Definition rowSurge (ix : Columns) (line : string) : num :=
  Num.orZero (parseFloatU (cell (splitOn comma line) (surgeIdx ix))).

Definition rowRunup (ix : Columns) (line : string) : num :=
  Num.orZero (parseFloatU (cell (splitOn comma line) (runupIdx ix))).

Definition rowHs (ix : Columns) (line : string) : num :=
  Num.orZero (parseFloatU (cell (splitOn comma line) (hsIdx ix))).

Definition rowDuration (ix : Columns) (line : string) : num :=
  Num.orZero (parseFloatU (cell (splitOn comma line) (durIdx ix))).

(** The body of the [forEach] callback of [parseXtremEventCSV]: the event
    a line contributes, if any. *)
Definition rowEvent (ix : Columns) (line : string) : option Event.t :=
  let dateStr := rowDate ix line in
  let twlPeak := rowPeak ix line in
  let tide := rowTide ix line in
  let runup := rowRunup ix line in
  let hsig := rowHs ix line in
  let durh := rowDuration ix line in
  let surge := correctedSurge ix twlPeak tide (rowSurge ix line) runup in
  if accepted dateStr twlPeak tide surge runup then
    match dateStr, twlPeak, surge with
    | Some d, Some peak, Some sg =>
        Some {| Event.id := d;
                Event.name :=
                  (d ++ " (Peak TWL: " ++ toFixedString 2 peak ++ "m)")%string;
                Event.twl_components := [tide; sg; runup];
                Event.twl_peak := peak;
                Event.Hs := hsig;
                Event.dur_h := durh |}
    | _, _, _ => None
    end
  else None.

Definition pushEvent (ix : Columns) (events : list Event.t) (line : string)
  : list Event.t :=
  match rowEvent ix line with
  | Some e => events ++ [e]
  | None => events
  end.

Definition xtremLines (csvText : string) : list string :=
  splitLines (trim csvText).

Definition xtremHeader (csvText : string) : list string :=
  map (fun h => toLowerCase (trim h))
    (splitOn comma (removeQuotes (nth 0 (xtremLines csvText) EmptyString))).

Definition xtremColumns (csvText : string) : Columns :=
  let header := xtremHeader csvText in
  {| dateIdx := findIndex (includes "peak_date_time") header;
     twlIdx := findIndex (includes "peak_value") header;
     tideIdx := findIndex (includes "tide") header;
     surgeIdx := findIndex (includes "ssh") header;
     runupIdx := findIndex (includes "runup") header;
     hsIdx := findIndex (includes "significant") header;
     durIdx := findIndex (includes "duration_hours") header |}.

Definition parseXtremEventCSV (csvText : string) : list Event.t :=
  let lines := xtremLines csvText in
  if (List.length lines <? 2)%nat then []
  else
    let ix := xtremColumns csvText in
    if isNone (dateIdx ix) || isNone (twlIdx ix) then []
    else fold_left (pushEvent ix) (drop 1 lines) [].


(* ================================================================== *)
(** ** Sorting the catalog *)
(* ================================================================== *)

(** Places [x] before the first element it does not have to follow. *)
Fixpoint insertBy {A : Type} (cmp : A -> A -> Z) (x : A) (l : list A)
  : list A :=
  match l with
  | [] => [x]
  | y :: r => if cmp x y <=? 0 then x :: y :: r else y :: insertBy cmp x r
  end.

(** [arr.sort(cmp)].  The sort of the language is stable, and with a
    consistent comparator its result is the one stable sorted
    arrangement; a stable insertion sort computes it. *)
Definition sortBy {A : Type} (cmp : A -> A -> Z) (l : list A) : list A :=
  foldr (insertBy cmp) [] l.

(* ================================================================== *)
(** ** Module state, network and asset resolution *)
(* ================================================================== *)

Module CONFIG.
Definition REPO_OWNER : string := "safecoastpro".
Definition REPO_NAME : string := "safecoastpro.github.io".
Definition RELEASE_TAG : string := "twl_update_latest".
Definition GITHUB_API_BASE : string := "https://api.github.com/repos/".
Definition DATA_BASE_PATH : string := "./".
Definition SITES_FILENAME : string := "sites_file.json".
End CONFIG.

Record Asset : Type := {
  asset_name : string;
  browser_download_url : string
}.

(** The release metadata as the code reads it: an object whose [assets],
    when present, is an array of assets. *)
Record Release : Type := {
  assets : option (list Asset)
}.

Record Response : Type := {
  ok : bool;
  status : nat;
  statusText : string;
  (* what text() resolves to; None when reading the body rejects *)
  body : option string
}.

(** A [fetch] resolves with a response or rejects (network fault). *)
Inductive FetchOutcome : Type :=
  | Rejected
  | Resolved (r : Response).

Record EventCatalog : Type := {
  count : nat;
  events : list Event.t
}.

(** A reference to a catalog object: its index in the heap. *)
Definition ref : Type := nat.

(** The module state.  [EVENT_DATA_CACHE] is a plain object used as a map
    from site ids: the map holds its own properties, each one a reference
    to a catalog object.  What it inherits from [Object.prototype] is read
    through [cacheEntry]. *)
Record World : Type := {
  RELEASE_INFO : option Release;
  EVENT_DATA_CACHE : gmap string ref;
  (* the catalog objects allocated so far *)
  heap : list EventCatalog;
  (* the URLs requested so far, oldest first *)
  fetched : list string
}.

Definition initialWorld : World :=
  {| RELEASE_INFO := None; EVENT_DATA_CACHE := ∅; heap := []; fetched := [] |}.

(** The names of the properties a plain object inherits from
    [Object.prototype]. *)
Definition objectPrototypeKeys : list string :=
  ["constructor"; "__defineGetter__"; "__defineSetter__"; "hasOwnProperty";
   "__lookupGetter__"; "__lookupSetter__"; "isPrototypeOf";
   "propertyIsEnumerable"; "toString"; "valueOf"; "__proto__";
   "toLocaleString"]%string.

(** A value of [EVENT_DATA_CACHE[siteId]] other than [undefined]: a
    catalog object the cache owns, or the member of [Object.prototype]
    of that name.  The inherited members are functions, and under
    [__proto__] the prototype object itself: all of them truthy, none
    with a [count] or an [events] property. *)
Inductive CacheEntry : Type :=
  | Catalog (r : ref)
  | Inherited (key : string).

(** [EVENT_DATA_CACHE[siteId]]; [None] is [undefined]. *)
Definition cacheEntry (w : World) (siteId : string) : option CacheEntry :=
  match EVENT_DATA_CACHE w !! siteId with
  | Some r => Some (Catalog r)
  | None =>
      if bool_decide (siteId ∈ objectPrototypeKeys)
      then Some (Inherited siteId)
      else None
  end.

(** A call that runs from its start to its return with no other code of
    the page in between: a computation on the module state. *)
Definition M (A : Type) : Type := World -> A * World.

Definition ret {A : Type} (a : A) : M A := fun w => (a, w).

Definition bind {A B : Type} (c : M A) (k : A -> M B) : M B :=
  fun w => let (a, w') := c w in k a w'.

Notation "x <- c ;; k" := (bind c (fun x => k))
  (at level 100, c at next level, right associativity).

(** [decimal n]: the text of the number [n]. *)
Definition decimal (n : nat) : string :=
  NilZero.string_of_uint (Nat.to_uint n).

(* ------------------------------------------------------------------ *)
(** *** Asynchronous calls *)

Module Async.

(** A call of an async function, seen from the event loop: it has
    returned a value, or it is suspended at an [await].  A suspended call
    is resumed in the state the module has by then: [effect] is what the
    code up to the next [await] (or to the return) does to the state, and
    [next] the call after that. *)
Inductive Task (A : Type) : Type :=
  | Settled (a : A)
  | Pending (next : World -> Task A) (effect : World -> World).

Arguments Settled {A} a.
Arguments Pending {A} next effect.

(** An async function applied to its arguments: calling it runs its code
    up to the first [await]. *)
Definition t (A : Type) : Type := World -> Task A * World.

Definition ret {A : Type} (a : A) : t A := fun w => (Settled a, w).

(** The call that goes on as [c] when it is resumed. *)
Definition suspend {A : Type} (c : t A) : Task A :=
  Pending (fun w => fst (c w)) (fun w => snd (c w)).

(** [k (await p)] for the promise [p] of a call: the caller is suspended
    while [p] is pending, and once more when it has settled, since the
    code after an [await] always runs in a later job of the event loop. *)
Fixpoint awaitTask {A B : Type} (p : Task A) (k : A -> t B) : Task B :=
  match p with
  | Settled a => suspend (k a)
  | Pending next effect => Pending (fun w => awaitTask (next w) k) effect
  end.

(** [x = await c; k x]: the callee runs up to its first [await] at
    once. *)
Definition await {A B : Type} (c : t A) (k : A -> t B) : t B :=
  fun w => (awaitTask (fst (c w)) k, snd (c w)).

(** The call resumed again and again with nothing in between, up to its
    return. *)
Fixpoint finish {A : Type} (p : Task A) (w : World) : A * World :=
  match p with
  | Settled a => (a, w)
  | Pending next effect => finish (next w) (effect w)
  end.

(** The call run from its start to its return with nothing in
    between. *)
Definition run {A : Type} (c : t A) : M A :=
  fun w => finish (fst (c w)) (snd (c w)).

End Async.

Notation "x <~ c ;; k" := (Async.await c (fun x => k))
  (at level 100, c at next level, right associativity).

Definition dash : ascii := "-"%char.
Definition underscore : ascii := "_"%char.

Fixpoint removeDashes (s : string) : string :=
  match s with
  | EmptyString => EmptyString
  | String c r =>
      if Ascii.eqb c dash then removeDashes r else String c (removeDashes r)
  end.

(** The name [fetchAndParseForecast] builds from the value of the global
    [SELECTED_RUN_DATE] and the id of the site. *)
Definition forecastAssetName (SELECTED_RUN_DATE : string) (site : Site)
  : string :=
  let runDate := removeDashes SELECTED_RUN_DATE in
  let parts := splitOn underscore (id site) in
  let shortId := List.last parts EmptyString in
  ("all_twl_data_" ++ shortId ++ "_" ++ runDate ++ ".csv")%string.

Definition xtremAssetName (siteId : string) : string :=
  ("Xtrem_all_var_" ++ siteId ++ ".csv")%string.

Definition releaseUrl : string :=
  (CONFIG.GITHUB_API_BASE ++ CONFIG.REPO_OWNER ++ "/" ++ CONFIG.REPO_NAME
     ++ "/releases/tags/" ++ CONFIG.RELEASE_TAG)%string.

Definition emptyCatalog : EventCatalog := {| count := 0; events := [] |}.

Section Network.

(** The answer of the network to the [n]-th request of the process, made
    to a given URL. *)
Variable network : nat -> string -> FetchOutcome.

(** [JSON.parse] of the release metadata, as far as the code looks into
    it: [None] when it throws, [Some None] for a falsy value. *)
Variable parseReleaseJSON : string -> option (option Release).

(** [new Date(s).getTime()]: milliseconds, or [None] for an invalid
    date. *)
Variable dateValue : string -> option Z.

(** The global [SELECTED_RUN_DATE] that [fetchAndParseForecast] reads.
    [script.js] never declares it (its run-date global is
    [SELECTED_RUNTIME_DATE]): [None] is a page without such a global,
    where reading it throws a [ReferenceError]; [Some d] is a page where
    another script has defined it with the string [d]. *)
Variable SELECTED_RUN_DATE : option string.

Variable weekdayOf : nat -> string.
Variable monthDayOf : nat -> string.
Variable yearOf : nat -> string.

Definition fetch (url : string) : M FetchOutcome :=
  fun w =>
    (network (List.length (fetched w)) url,
     {| RELEASE_INFO := RELEASE_INFO w;
        EVENT_DATA_CACHE := EVENT_DATA_CACHE w;
        heap := heap w;
        fetched := fetched w ++ [url] |}).

Definition setReleaseInfo (v : option Release) : M unit :=
  fun w =>
    (tt,
     {| RELEASE_INFO := v;
        EVENT_DATA_CACHE := EVENT_DATA_CACHE w;
        heap := heap w;
        fetched := fetched w |}).

(** [response.json()] of the metadata request: [None] when it throws. *)
Definition releaseJSON (r : Response) : option (option Release) :=
  match body r with
  | Some text => parseReleaseJSON text
  | None => None
  end.

Definition getReleaseInfo : M (option Release) :=
  fun w =>
    match RELEASE_INFO w with
    | Some info => (Some info, w)
    | None =>
        (out <- fetch releaseUrl ;;
         match out with
         | Resolved response =>
             if negb (ok response) then ret None
             else
               match releaseJSON response with
               | Some v => _ <- setReleaseInfo v ;; ret v
               | None => ret None
               end
         | Rejected => ret None
         end) w
    end.

Definition getAssetDownloadUrl (filename : string) : M (option string) :=
  info <- getReleaseInfo ;;
  match info with
  | None => ret None
  | Some i =>
      match assets i with
      | None => ret None
      | Some l =>
          match List.find (fun a => String.eqb (asset_name a) filename) l with
          | Some asset => ret (Some (browser_download_url asset))
          | None => ret None
          end
      end
  end.

(* ------------------------------------------------------------------ *)
(** *** Event catalog cache *)

(** [new Date(b.id) - new Date(a.id)] as the sort reads it: a NaN
    difference counts as zero. *)
Definition byDateDescending (a b : Event.t) : Z :=
  match dateValue (Event.id b), dateValue (Event.id a) with
  | Some tb, Some ta => tb - ta
  | _, _ => 0
  end.

(** [EVENT_DATA_CACHE[siteId] = c; return EVENT_DATA_CACHE[siteId]] for a
    fresh object [c]: the object is stored as an own property and comes
    back.  The assignment is reached only for a name under which the
    cache read [undefined], so never for an inherited name (under
    [__proto__] it would set the prototype instead). *)
Definition cacheCatalog (siteId : string) (c : EventCatalog) : M CacheEntry :=
  fun w =>
    let r := List.length (heap w) in
    (Catalog r,
     {| RELEASE_INFO := RELEASE_INFO w;
        EVENT_DATA_CACHE := <[siteId := r]> (EVENT_DATA_CACHE w);
        heap := heap w ++ [c];
        fetched := fetched w |}).

(** The [result] object built from the text of the catalog: the events
    of the parser, sorted by date descending, and their number. *)
Definition parsedCatalog (csvText : string) : EventCatalog :=
  let events := sortBy byDateDescending (parseXtremEventCSV csvText) in
  {| count := List.length events; events := events |}.

Definition fetchAndParseXtremEvents (siteId : string) : M CacheEntry :=
  fun w =>
    match cacheEntry w siteId with
    | Some entry => (entry, w)
    | None =>
        (let assetName := xtremAssetName siteId in
         finalUrl <- getAssetDownloadUrl assetName ;;
         match finalUrl with
         | Some url =>
             if negb (truthy finalUrl) then cacheCatalog siteId emptyCatalog
             else
               out <- fetch url ;;
               match out with
               | Resolved response =>
                   if negb (ok response) then cacheCatalog siteId emptyCatalog
                   else
                     match body response with
                     | Some csvText =>
                         cacheCatalog siteId (parsedCatalog csvText)
                     | None => cacheCatalog siteId emptyCatalog
                     end
               | Rejected => cacheCatalog siteId emptyCatalog
               end
         | None => cacheCatalog siteId emptyCatalog
         end) w
    end.

Definition getSiteEvents (siteId : string) : M CacheEntry :=
  fetchAndParseXtremEvents siteId.

(* ------------------------------------------------------------------ *)
(** *** Forecast of one site *)

Definition withForecast (site : Site) (fd : ForecastSeries) : Site :=
  {| id := id site;
     name := name site;
     lat := lat site;
     lng := lng site;
     threshold := threshold site;
     risk_class := risk_class site;
     forecastData := Some fd |}.

(** [fetchAndParseForecast(site)] with the global defined as [runDate]:
    the body of the function after its second line. *)
Definition fetchAndParseForecastWith (runDate : string) (site : Site)
  : M Site :=
  finalUrl <- getAssetDownloadUrl (forecastAssetName runDate site) ;;
  match finalUrl with
  | Some url =>
      if negb (truthy finalUrl) then ret (withForecast site emptySeries)
      else
        out <- fetch url ;;
        match out with
        | Resolved response =>
            if negb (ok response) then ret (withForecast site emptySeries)
            else
              match body response with
              | Some csvText =>
                  match
                    parseForecastCSV weekdayOf monthDayOf yearOf csvText site
                  with
                  | Some forecastData => ret (withForecast site forecastData)
                  | None => ret (withForecast site emptySeries)
                  end
              | None => ret (withForecast site emptySeries)
              end
        | Rejected => ret (withForecast site emptySeries)
        end
  | None => ret (withForecast site emptySeries)
  end.

(** [fetchAndParseForecast(site)]; [None] when the call rejects: reading
    [SELECTED_RUN_DATE] is the second statement of the function, outside
    its [try], and throws a [ReferenceError] when the global is not
    defined, before anything is requested. *)
Definition fetchAndParseForecast (site : Site) : M (option Site) :=
  match SELECTED_RUN_DATE with
  | Some runDate =>
      site' <- fetchAndParseForecastWith runDate site ;; ret (Some site')
  | None => ret None
  end.

(* ------------------------------------------------------------------ *)
(** *** The site registry file *)

(** How the first part of [fetchAndProcessAllSites] ends: with a
    response to read the registry from, with the [Error] it throws, or
    with the rejection of a [fetch]. *)
Inductive SitesFile : Type :=
  | Loaded (finalLoadUrl : string) (sitesResponse : Response)
  | Failed (message : string)
  | Faulted.

Definition failedToLoad (finalLoadUrl : string) (r : Response) : string :=
  ("Failed to load " ++ CONFIG.SITES_FILENAME ++ ". Final URL tried: "
     ++ finalLoadUrl ++ ". Status: " ++ decimal (status r) ++ " "
     ++ statusText r)%string.

Definition localSitesUrl : string :=
  (CONFIG.DATA_BASE_PATH ++ CONFIG.SITES_FILENAME)%string.

(** Steps 3 and 4 of [fetchAndProcessAllSites], given what the
    resolution of the registry file returned. *)
Definition fetchSitesFile (githubSitesUrl : option string) : M SitesFile :=
  let finalSitesUrl :=
    match githubSitesUrl with
    | Some url => if truthy githubSitesUrl then url else localSitesUrl
    | None => localSitesUrl
    end in
  out <- fetch finalSitesUrl ;;
  match out with
  | Rejected => ret Faulted
  | Resolved sitesResponse =>
      if ok sitesResponse then ret (Loaded finalSitesUrl sitesResponse)
      else if truthy githubSitesUrl
              && String.eqb finalSitesUrl (default EmptyString githubSitesUrl)
      then
        out2 <- fetch localSitesUrl ;;
        match out2 with
        | Rejected => ret Faulted
        | Resolved sitesResponse2 =>
            if ok sitesResponse2 then ret (Loaded localSitesUrl sitesResponse2)
            else ret (Failed (failedToLoad localSitesUrl sitesResponse2))
        end
      else ret (Failed (failedToLoad finalSitesUrl sitesResponse))
  end.

(** Steps 1 to 4 of [fetchAndProcessAllSites]: the registry file is
    resolved and fetched. *)
Definition fetchAndProcessAllSites_sitesFile : M SitesFile :=
  githubSitesUrl <- getAssetDownloadUrl CONFIG.SITES_FILENAME ;;
  fetchSitesFile githubSitesUrl.

(* ------------------------------------------------------------------ *)
(** *** The variability analysis of a site *)

(** How [fetchVariabilityAnalysis] ends: with the response whose JSON it
    returns, with the [Error] it throws, or with the rejection of the
    [fetch]. *)
Inductive Variability : Type :=
  | VariabilityOf (response : Response)
  | VariabilityError (message : string)
  | VariabilityFaulted.

Definition variabilityAssetName (siteId : string) : string :=
  ("Variability_Analysis_" ++ siteId ++ ".json")%string.

Definition noVariabilityData (siteId : string) : string :=
  ("No variability analysis data (" ++ variabilityAssetName siteId
     ++ ") found on GitHub Release for " ++ siteId ++ ".")%string.

Definition variabilityFailed (r : Response) : string :=
  ("Failed to fetch variability analysis JSON from GitHub: "
     ++ decimal (status r) ++ " " ++ statusText r)%string.

Definition fetchVariabilityAnalysis (siteId : string) : M Variability :=
  finalUrl <- getAssetDownloadUrl (variabilityAssetName siteId) ;;
  match finalUrl with
  | Some url =>
      if negb (truthy finalUrl) then
        ret (VariabilityError (noVariabilityData siteId))
      else
        out <- fetch url ;;
        match out with
        | Resolved response =>
            if negb (ok response) then
              ret (VariabilityError (variabilityFailed response))
            else ret (VariabilityOf response)
        | Rejected => ret VariabilityFaulted
        end
  | None => ret (VariabilityError (noVariabilityData siteId))
  end.

(* ------------------------------------------------------------------ *)
(** *** What the calls leave in the state *)

(** The catalog object [EVENT_DATA_CACHE] owns under [siteId]. *)
Definition catalogAt (w : World) (siteId : string) : option EventCatalog :=
  match EVENT_DATA_CACHE w !! siteId with
  | Some r => heap w !! r
  | None => None
  end.

(** The catalog a call stores after fetching the asset, by the outcome
    of the fetch. *)
Definition catalogOfOutcome (out : FetchOutcome) : EventCatalog :=
  match out with
  | Resolved response =>
      if ok response then
        match body response with
        | Some csvText => parsedCatalog csvText
        | None => emptyCatalog
        end
      else emptyCatalog
  | Rejected => emptyCatalog
  end.

(** The site a forecast request returns after fetching the asset, by the
    outcome of the fetch. *)
Definition forecastOfOutcome (site : Site) (out : FetchOutcome) : Site :=
  match out with
  | Resolved response =>
      if ok response then
        match body response with
        | Some csvText =>
            match parseForecastCSV weekdayOf monthDayOf yearOf csvText site with
            | Some forecastData => withForecast site forecastData
            | None => withForecast site emptySeries
            end
        | None => withForecast site emptySeries
        end
      else withForecast site emptySeries
  | Rejected => withForecast site emptySeries
  end.

(** Both events carry a valid date and the first is not older than the
    second. *)
Definition notOlder (a b : Event.t) : Prop :=
  match dateValue (Event.id a), dateValue (Event.id b) with
  | Some ta, Some tb => tb <= ta
  | _, _ => False
  end.

Definition validDate (e : Event.t) : Prop :=
  dateValue (Event.id e) <> None.

End Network.

(* ================================================================== *)
(** ** The calls as the event loop runs them *)
(* ================================================================== *)

Module Call.

Section Calls.

Variable network : nat -> string -> FetchOutcome.
Variable parseReleaseJSON : string -> option (option Release).
Variable dateValue : string -> option Z.

(** [await fetch(url)]: the request is sent at once, and the caller is
    suspended until the answer is there. *)
Definition fetch (url : string) : Async.t FetchOutcome :=
  fun w =>
    (Async.suspend (Async.ret (fst (fetch network url w))),
     snd (fetch network url w)).

(** [await response.json()] and [await response.text()]: the value is
    there when the caller is resumed. *)
Definition read {A : Type} (a : A) : Async.t A :=
  fun w => (Async.suspend (Async.ret a), w).

Definition getReleaseInfo : Async.t (option Release) :=
  fun w =>
    match RELEASE_INFO w with
    | Some info => Async.ret (Some info) w
    | None =>
        (out <~ fetch releaseUrl ;;
         match out with
         | Resolved response =>
             if negb (ok response) then Async.ret None
             else
               json <~ read (releaseJSON parseReleaseJSON response) ;;
               match json with
               | Some v =>
                   fun w' => (Async.Settled v, snd (setReleaseInfo v w'))
               | None => Async.ret None
               end
         | Rejected => Async.ret None
         end) w
    end.

Definition getAssetDownloadUrl (filename : string) : Async.t (option string) :=
  info <~ getReleaseInfo ;;
  match info with
  | None => Async.ret None
  | Some i =>
      match assets i with
      | None => Async.ret None
      | Some l =>
          match List.find (fun a => String.eqb (asset_name a) filename) l with
          | Some asset => Async.ret (Some (browser_download_url asset))
          | None => Async.ret None
          end
      end
  end.

(** The assignment to the cache and the return, run at once. *)
Definition cacheCatalog (siteId : string) (c : EventCatalog)
  : Async.t CacheEntry :=
  fun w => (Async.Settled (fst (cacheCatalog siteId c w)),
            snd (cacheCatalog siteId c w)).

Definition fetchAndParseXtremEvents (siteId : string) : Async.t CacheEntry :=
  fun w =>
    match cacheEntry w siteId with
    | Some entry => Async.ret entry w
    | None =>
        (let assetName := xtremAssetName siteId in
         finalUrl <~ getAssetDownloadUrl assetName ;;
         match finalUrl with
         | Some url =>
             if negb (truthy finalUrl) then cacheCatalog siteId emptyCatalog
             else
               out <~ fetch url ;;
               match out with
               | Resolved response =>
                   if negb (ok response) then cacheCatalog siteId emptyCatalog
                   else
                     text <~ read (body response) ;;
                     match text with
                     | Some csvText =>
                         cacheCatalog siteId (parsedCatalog dateValue csvText)
                     | None => cacheCatalog siteId emptyCatalog
                     end
               | Rejected => cacheCatalog siteId emptyCatalog
               end
         | None => cacheCatalog siteId emptyCatalog
         end) w
    end.

(** [getSiteEvents] returns the promise of [fetchAndParseXtremEvents]. *)
Definition getSiteEvents (siteId : string) : Async.t CacheEntry :=
  fetchAndParseXtremEvents siteId.

End Calls.

End Call.

(* ------------------------------------------------------------------ *)
(** *** Runs of the page *)

(** A call the page has started: a catalog request ([getSiteEvents], or
    [fetchAndParseXtremEvents] for a view), an asset resolution, or a
    [fetch] some other function awaits. *)
Inductive Job : Type :=
  | EventsJob (siteId : string) (p : Async.Task CacheEntry)
  | ResolveJob (filename : string) (p : Async.Task (option string))
  | FetchJob (url : string) (p : Async.Task FetchOutcome).

(** The module state and the calls started so far, settled or not. *)
Record Process : Type := {
  world : World;
  jobs : list Job
}.

Definition initialProcess : Process :=
  {| world := initialWorld; jobs := [] |}.

(** The job after it has been resumed once in the state [w]; a settled
    job stays as it is. *)
Definition resumed (j : Job) (w : World) : Job :=
  match j with
  | EventsJob siteId (Async.Pending next _) => EventsJob siteId (next w)
  | ResolveJob filename (Async.Pending next _) => ResolveJob filename (next w)
  | FetchJob url (Async.Pending next _) => FetchJob url (next w)
  | _ => j
  end.

Definition effectOf (j : Job) (w : World) : World :=
  match j with
  | EventsJob _ (Async.Pending _ effect) => effect w
  | ResolveJob _ (Async.Pending _ effect) => effect w
  | FetchJob _ (Async.Pending _ effect) => effect w
  | _ => w
  end.

Section Processes.

Variable network : nat -> string -> FetchOutcome.
Variable parseReleaseJSON : string -> option (option Release).
Variable dateValue : string -> option Z.

(** The page starts a call: its code runs up to the first [await]. *)
Definition start (j : World -> Job * World) (p : Process) : Process :=
  {| world := snd (j (world p));
     jobs := jobs p ++ [fst (j (world p))] |}.

Definition startEvents (siteId : string) (w : World) : Job * World :=
  (EventsJob siteId
     (fst (Call.getSiteEvents network parseReleaseJSON dateValue siteId w)),
   snd (Call.getSiteEvents network parseReleaseJSON dateValue siteId w)).

Definition startResolve (filename : string) (w : World) : Job * World :=
  (ResolveJob filename
     (fst (Call.getAssetDownloadUrl network parseReleaseJSON filename w)),
   snd (Call.getAssetDownloadUrl network parseReleaseJSON filename w)).

Definition startFetch (url : string) (w : World) : Job * World :=
  (FetchJob url (fst (Call.fetch network url w)),
   snd (Call.fetch network url w)).

(** The event loop resumes the [i]-th call. *)
Definition resume (i : nat) (p : Process) : Process :=
  match jobs p !! i with
  | Some j =>
      {| world := effectOf j (world p);
         jobs := <[i := resumed j (world p)]> (jobs p) |}
  | None => p
  end.

(** One turn of the event loop: a call is started, or a suspended call
    goes on up to its next [await].  The calls are resumed in any
    order. *)
Inductive step (p : Process) : Process -> Prop :=
  | step_getSiteEvents (siteId : string) :
      step p (start (startEvents siteId) p)
  | step_getAssetDownloadUrl (filename : string) :
      step p (start (startResolve filename) p)
  | step_fetch (url : string) :
      step p (start (startFetch url) p)
  | step_resume (i : nat) :
      step p (resume i p).

(** The process gets from [p] to [p'] in some turns. *)
Definition runs : Process -> Process -> Prop := rtc step.

(** A state of the module in some run of the page. *)
Definition reachable (w : World) : Prop :=
  exists p, runs initialProcess p /\ world p = w.

End Processes.

(** Every reference the cache owns points into the heap, no own property
    has a name that is inherited, and every catalog of the heap satisfies
    [P]. *)
Definition storeInvariant (P : EventCatalog -> Prop) (w : World) : Prop :=
  (forall (siteId : string) (r : ref),
     EVENT_DATA_CACHE w !! siteId = Some r ->
     (r < List.length (heap w))%nat /\ (siteId ∉ objectPrototypeKeys))
  /\ Forall P (heap w).

(** The heap only grows: an object once allocated stays as it is. *)
Definition heapGrows (w w' : World) : Prop :=
  forall (r : ref) (c : EventCatalog),
    heap w !! r = Some c -> heap w' !! r = Some c.

(** What a call may do to the store: allocate, and assign to the cache
    under the name [site] only, under no name at all when [site] is
    [None]. *)
Definition guarantee (site : option string) (w w' : World) : Prop :=
  heapGrows w w'
  /\ forall s : string,
       site <> Some s -> EVENT_DATA_CACHE w' !! s = EVENT_DATA_CACHE w !! s.

(** The value a catalog request has returned is an inherited member, for
    an inherited name, or a reference to a catalog that satisfies [P]. *)
Definition entryOk (P : EventCatalog -> Prop) (siteId : string)
  (entry : CacheEntry) (w : World) : Prop :=
  match entry with
  | Catalog r =>
      (siteId ∉ objectPrototypeKeys)
      /\ exists c, heap w !! r = Some c /\ P c
  | Inherited key => key = siteId /\ (siteId ∈ objectPrototypeKeys)
  end.

Section Safety.

Variable I : World -> Prop.
Variable G : World -> World -> Prop.

(** A call that keeps [I] and changes the state within [G] whenever it is
    resumed in a state that satisfies [I], and whose value satisfies [Q]
    when it returns. *)
Inductive safeTask {A : Type} (Q : A -> World -> Prop)
  : Async.Task A -> Prop :=
  | safe_settled (a : A) : safeTask Q (Async.Settled a)
  | safe_pending (next : World -> Async.Task A) (effect : World -> World) :
      (forall w, I w -> I (effect w) /\ G w (effect w)) ->
      (forall w, I w -> safeTask Q (next w)) ->
      (forall w a, I w -> next w = Async.Settled a -> Q a (effect w)) ->
      safeTask Q (Async.Pending next effect).

Definition safeCall {A : Type} (Q : A -> World -> Prop) (c : Async.t A)
  : Prop :=
  forall w, I w ->
    I (snd (c w)) /\ G w (snd (c w))
    /\ safeTask Q (fst (c w))
    /\ forall a, fst (c w) = Async.Settled a -> Q a (snd (c w)).

End Safety.

(** What holds of a job in a state: it is safe, and its value, when it
    has one, is as it should be. *)
Definition jobOk (P : EventCatalog -> Prop) (w : World) (j : Job) : Prop :=
  match j with
  | EventsJob siteId p =>
      safeTask (storeInvariant P) (guarantee (Some siteId))
        (entryOk P siteId) p
      /\ forall entry, p = Async.Settled entry -> entryOk P siteId entry w
  | ResolveJob _ p =>
      safeTask (storeInvariant P) (guarantee None) (fun _ _ => True) p
  | FetchJob _ p =>
      safeTask (storeInvariant P) (guarantee None) (fun _ _ => True) p
  end.

Definition processOk (P : EventCatalog -> Prop) (p : Process) : Prop :=
  storeInvariant P (world p) /\ Forall (jobOk P (world p)) (jobs p).

(** A catalog request for [siteId] that has not returned yet. *)
Definition pendingFor (siteId : string) (j : Job) : bool :=
  match j with
  | EventsJob s (Async.Pending _ _) => String.eqb s siteId
  | _ => false
  end.

(** No catalog request for [siteId] is under way. *)
Definition settledFor (siteId : string) (p : Process) : Prop :=
  Forall (fun j => pendingFor siteId j = false) (jobs p).

(** The catalog requests for [siteId] so far, in the order they were
    started, with what they have returned. *)
Definition returnedFor (siteId : string) (p : Process)
  : list (option CacheEntry) :=
  omap (fun j =>
          match j with
          | EventsJob s q =>
              if String.eqb s siteId then
                Some match q with
                     | Async.Settled entry => Some entry
                     | Async.Pending _ _ => None
                     end
              else None
          | _ => None
          end) (jobs p).


(* ================================================================== *)
(** ** Run dates *)
(* ================================================================== *)

(** The local calendar fields of a [Date] object that is a valid date:
    [getMonth] is in 0..11 and [getDate] in 1..31. *)
Record LocalDate : Type := {
  getFullYear : Z;
  getMonth : nat;
  getDate : nat
}.

(** [String(z)] for an integer. *)
Definition decimalZ (z : Z) : string := NilZero.string_of_int (Z.to_int z).

(** [s.padStart(n, c)] for a one-character filler. *)
Definition padStart (n : nat) (c : ascii) (s : string) : string :=
  (String.concat EmptyString
     (repeat (String c EmptyString) (n - String.length s)) ++ s)%string.

Definition formatDateToYYYYMMDD (dateObj : LocalDate) : string :=
  let year := getFullYear dateObj in
  let month := padStart 2 "0" (decimal (getMonth dateObj + 1)) in
  let day := padStart 2 "0" (decimal (getDate dateObj)) in
  (decimalZ year ++ month ++ day)%string.

Definition hexDigitOf (c : ascii) : option Z :=
  let n := nat_of_ascii c in
  if ((48 <=? n) && (n <=? 57))%nat then Some (Z.of_nat (n - 48))
  else if ((97 <=? n) && (n <=? 102))%nat then Some (Z.of_nat (n - 87))
  else if ((65 <=? n) && (n <=? 70))%nat then Some (Z.of_nat (n - 55))
  else None.

Fixpoint readHexDigits (s : string) (acc : Z) (n : nat) : Z * nat :=
  match s with
  | String c r =>
      match hexDigitOf c with
      | Some d => readHexDigits r (16 * acc + d) (S n)
      | None => (acc, n)
      end
  | EmptyString => (acc, n)
  end.

(** The digits of [parseInt] after the sign: base 16 behind the prefix
    [0x], base 10 otherwise; NaN when no digit is there. *)
Definition parseIntUnsigned (s : string) : option Z :=
  if String.prefix "0x" s || String.prefix "0X" s then
    match readHexDigits (substring 2 (String.length s - 2) s) 0 0%nat with
    | (_, O) => None
    | (v, _) => Some v
    end
  else
    match readDigits s 0 0%nat with
    | (_, O, _) => None
    | (v, _, _) => Some v
    end.

(** [parseInt(s)] without a radix. *)
Definition parseInt (s : string) : option Z :=
  match trimStart s with
  | String c r =>
      if Ascii.eqb c "-"%char then
        match parseIntUnsigned r with
        | Some v => Some (- v)
        | None => None
        end
      else if Ascii.eqb c "+"%char then parseIntUnsigned r
      else parseIntUnsigned (String c r)
  | EmptyString => None
  end.

(** The year, the month (from 0) and the day [getForecastDate] reads off
    [SELECTED_RUNTIME_DATE]; [s.substring(a, b)] is [substring a (b - a) s].
    [None] is NaN. *)
Definition runDateParts (SELECTED_RUNTIME_DATE : string)
  : option Z * option Z * option Z :=
  let year := parseInt (substring 0 4 SELECTED_RUNTIME_DATE) in
  let month :=
    match parseInt (substring 4 2 SELECTED_RUNTIME_DATE) with
    | Some m => Some (m - 1)
    | None => None
    end in
  let day := parseInt (substring 6 2 SELECTED_RUNTIME_DATE) in
  (year, month, day).

(** [arr.join(sep)] for a one-character separator. *)
Definition joinWith (sep : ascii) (l : list string) : string :=
  String.concat (String sep EmptyString) l.

(** [f] holds of the [n] integers from [start] on. *)
Fixpoint allFrom (f : Z -> bool) (start : Z) (n : nat) : bool :=
  match n with
  | O => true
  | S k => f start && allFrom f (start + 1) k
  end.

(** The number of occurrences of a character. *)
Fixpoint countChar (c : ascii) (s : string) : nat :=
  match s with
  | EmptyString => 0
  | String x r => if Ascii.eqb x c then S (countChar c r) else countChar c r
  end.

(* ================================================================== *)
(** ** Historical views *)
(* ================================================================== *)

(** The object a reference points to.  A reference handed out by the
    cache always points to an allocated catalog. *)
Definition deref (w : World) (r : ref) : EventCatalog :=
  default emptyCatalog (heap w !! r).

Module Joint.

Record t : Type := {
  (* e.twl_components[0]; None is undefined *)
  tide_sla : list (option num);
  hs : list num;
  twl_peak : list num;
  dates : list string;
  dur_h : list num
}.

End Joint.

Module Interannual.

(** An entry of [yearlyData]. *)
Record stats : Type := {
  max_twl : num;
  events_count : nat
}.

Record t : Type := {
  (* parseInt of the keys; None is NaN *)
  years : list (option Z);
  max_twls : list num;
  events_counts : list nat
}.

End Interannual.

Module Component.

Record t : Type := {
  components : list string;
  contributions : list num;
  (* missing from the empty result *)
  twlPeak : option num
}.

Definition none : t :=
  {| components := []; contributions := []; twlPeak := None |}.

End Component.

(** What [updateEventUI] writes to the page and returns. *)
Record EventUI : Type := {
  eventCountDisplay_innerText : nat;
  eventSelect_innerHTML : string;
  eventSelect_disabled : bool;
  firstEventId : option string
}.

Definition months : list string :=
  ["Jan"; "Feb"; "Mar"; "Apr"; "May"; "Jun";
   "Jul"; "Aug"; "Sep"; "Oct"; "Nov"; "Dec"]%string.

(** [months.forEach(m => monthlyTWL[m] = [])]. *)
Definition emptyMonths : gmap string (list num) :=
  fold_left (fun monthlyTWL m => <[m := []]> monthlyTWL) months ∅.

(** [yearlyData[year]]. *)
Fixpoint lookupYear (year : option Z)
  (yearlyData : list (option Z * Interannual.stats))
  : option Interannual.stats :=
  match yearlyData with
  | [] => None
  | (k, v) :: r =>
      if decide (k = year) then Some v else lookupYear year r
  end.

(** [yearlyData[year] = v]: an own property keeps its place, a new one
    comes last. *)
Fixpoint storeYear (year : option Z) (v : Interannual.stats)
  (yearlyData : list (option Z * Interannual.stats))
  : list (option Z * Interannual.stats) :=
  match yearlyData with
  | [] => [(year, v)]
  | (k, old) :: r =>
      if decide (k = year) then (k, v) :: r
      else (k, old) :: storeYear year v r
  end.

(** A key that is an array index: such keys come first in
    [Object.keys], in ascending order. *)
Definition isIndexKey (k : option Z) : bool :=
  match k with
  | Some y => (0 <=? y) && (y <? 4294967295)
  | None => false
  end.

(** [a - b] on two keys, as a sort reads it: NaN counts as zero. *)
Definition keyDifference (a b : option Z) : Z :=
  match a, b with
  | Some x, Some y => x - y
  | _, _ => 0
  end.

(** [Object.keys(yearlyData)]: the index keys in ascending order, then
    the other keys in the order they were created. *)
Definition objectKeys (yearlyData : list (option Z * Interannual.stats))
  : list (option Z) :=
  let keys := map fst yearlyData in
  sortBy keyDifference (filter (fun k => isIndexKey k = true) keys)
  ++ filter (fun k => isIndexKey k = false) keys.

(** The body of [fetchJointProbabilityData] after its [await]. *)
Definition jointProbabilityOf (eventData : EventCatalog) : Joint.t :=
  if (count eventData =? 0)%nat then
    {| Joint.tide_sla := []; Joint.hs := []; Joint.twl_peak := [];
       Joint.dates := []; Joint.dur_h := [] |}
  else
    {| Joint.tide_sla :=
         map (fun e => Event.twl_components e !! 0%nat) (events eventData);
       Joint.hs := map Event.Hs (events eventData);
       Joint.twl_peak := map Event.twl_peak (events eventData);
       Joint.dates := map Event.id (events eventData);
       Joint.dur_h := map Event.dur_h (events eventData) |}.

(** The body of [fetchEventComponentData] once [eventData] is a
    catalog. *)
Definition componentsOf (eventData : EventCatalog) (eventId : string)
  : Component.t :=
  match
    List.find (fun e => String.eqb (Event.id e) eventId) (events eventData)
  with
  | Some event =>
      {| Component.components := ["Tide "; "SSH"; "Wave Runup"]%string;
         Component.contributions := Event.twl_components event;
         Component.twlPeak := Some (Event.twl_peak event) |}
  | None => Component.none
  end.

Definition eventOption (event : Event.t) : string :=
  ("<option value=" ++ String quote (Event.id event) ++ String quote ">"
     ++ Event.name event ++ "</option>")%string.

(** The body of [updateEventUI] after its [await], for a catalog. *)
Definition eventUIOf (eventData : EventCatalog) : EventUI :=
  {| eventCountDisplay_innerText := count eventData;
     eventSelect_innerHTML :=
       if (List.length (events eventData) =? 0)%nat
       then ("<option value=" ++ String quote (String quote ">")
               ++ "No Events Available</option>")%string
       else String.concat EmptyString (map eventOption (events eventData));
     eventSelect_disabled :=
       (List.length (events eventData) =? 0)%nat;
     firstEventId :=
       match events eventData with
       | e :: _ => Some (Event.id e)
       | [] => None
       end |}.

(** The three sequences built from [yearlyData]. *)
Definition interannualOf (yearlyData : list (option Z * Interannual.stats))
  : Interannual.t :=
  let sortedYears := sortBy keyDifference (objectKeys yearlyData) in
  let statsAt y :=
    default {| Interannual.max_twl := Num.zero;
               Interannual.events_count := 0 |} (lookupYear y yearlyData) in
  {| Interannual.years := sortedYears;
     Interannual.max_twls :=
       map (fun y => Num.toFixedNumber 3 (Interannual.max_twl (statsAt y)))
         sortedYears;
     Interannual.events_counts :=
       map (fun y => Interannual.events_count (statsAt y)) sortedYears |}.

(** The view a function computes from what [fetchAndParseXtremEvents]
    (or the cache) gave it: [None] is the [TypeError] thrown when that
    value is an inherited member, whose [events] is [undefined]. *)
Definition viewOf {A : Type} (f : EventCatalog -> A) (w : World)
  (entry : CacheEntry) : option A :=
  match entry with
  | Catalog r => Some (f (deref w r))
  | Inherited _ => None
  end.

Section Views.

Variable network : nat -> string -> FetchOutcome.
Variable parseReleaseJSON : string -> option (option Release).
Variable dateValue : string -> option Z.

(** [new Date(s).getMonth()] and [new Date(s).getFullYear()] in the time
    zone of the browser; [None] is NaN, for an invalid date. *)
Variable monthIndexOf : string -> option nat.
Variable fullYearOf : string -> option Z.

(** [fetchJointProbabilityData(siteId)]; [None] when it throws. *)
Definition fetchJointProbabilityData (siteId : string)
  : M (option Joint.t) :=
  eventData <-
    fetchAndParseXtremEvents network parseReleaseJSON dateValue siteId ;;
  fun w => (viewOf jointProbabilityOf w eventData, w).

(** The body of the [events.forEach] of [fetchSeasonalData]; [None] is
    the [TypeError] of [push] on [undefined], when the month index is NaN
    or names no month. *)
Definition pushMonth (monthlyTWL : option (gmap string (list num)))
  (event : Event.t) : option (gmap string (list num)) :=
  match monthlyTWL with
  | Some m =>
      match monthIndexOf (Event.id event) with
      | Some monthIndex =>
          match months !! monthIndex with
          | Some monthName =>
              match m !! monthName with
              | Some values =>
                  Some (<[monthName := values ++ [Event.twl_peak event]]> m)
              | None => None
              end
          | None => None
          end
      | None => None
      end
  | None => None
  end.

(** The body of [fetchSeasonalData] after its [await]. *)
Definition seasonalOf (eventData : EventCatalog)
  : option (gmap string (list num)) :=
  fold_left pushMonth (events eventData) (Some emptyMonths).

(** [fetchSeasonalData(siteId)]; [None] when it throws. *)
Definition fetchSeasonalData (siteId : string)
  : M (option (gmap string (list num))) :=
  eventData <-
    fetchAndParseXtremEvents network parseReleaseJSON dateValue siteId ;;
  fun w => (mjoin (viewOf seasonalOf w eventData), w).

(** The body of the [events.forEach] of [fetchInterannualData]. *)
Definition pushYear (yearlyData : list (option Z * Interannual.stats))
  (event : Event.t) : list (option Z * Interannual.stats) :=
  let year := fullYearOf (Event.id event) in
  let twl := Event.twl_peak event in
  let yearlyData1 :=
    match lookupYear year yearlyData with
    | Some _ => yearlyData
    | None =>
        storeYear year
          {| Interannual.max_twl := twl; Interannual.events_count := 0 |}
          yearlyData
    end in
  match lookupYear year yearlyData1 with
  | Some st =>
      storeYear year
        {| Interannual.max_twl := Num.max (Interannual.max_twl st) twl;
           Interannual.events_count := Interannual.events_count st + 1 |}
        yearlyData1
  | None => yearlyData1
  end.

Definition yearlyDataOf (evs : list Event.t)
  : list (option Z * Interannual.stats) :=
  fold_left pushYear evs [].

(** [fetchInterannualData(siteId)]; [None] when it throws. *)
Definition fetchInterannualData (siteId : string)
  : M (option Interannual.t) :=
  eventData <-
    fetchAndParseXtremEvents network parseReleaseJSON dateValue siteId ;;
  fun w =>
    (viewOf (fun c => interannualOf (yearlyDataOf (events c))) w eventData,
     w).

(** [fetchEventComponentData(siteId, eventId)]: it reads the cache and
    requests nothing; [None] when it throws. *)
Definition fetchEventComponentData (siteId eventId : string)
  : M (option Component.t) :=
  fun w =>
    (match cacheEntry w siteId with
     | Some eventData => viewOf (fun c => componentsOf c eventId) w eventData
     | None => Some Component.none
     end, w).

(** [updateEventUI(siteId)] of [setupHistoricalReactivity]; [None] when
    it throws, which is after the count display has been assigned
    [undefined]. *)
Definition updateEventUI (siteId : string) : M (option EventUI) :=
  eventData <- getSiteEvents network parseReleaseJSON dateValue siteId ;;
  fun w => (viewOf eventUIOf w eventData, w).

(** The events the parser emits: three components, none negative, a
    peak above zero and a date. *)
Definition wellFormedEvent (e : Event.t) : Prop :=
  Event.id e <> EmptyString
  /\ Num.gt (Event.twl_peak e) Num.zero = true
  /\ exists tide surge runup,
       Event.twl_components e = [tide; surge; runup]
       /\ Num.ge tide Num.zero = true
       /\ Num.ge surge Num.zero = true
       /\ Num.ge runup Num.zero = true.

(** What every catalog of the heap satisfies: the count is the number
    of events, the events are those the parser emits, and they come
    newest first when all their dates are valid. *)
Definition wellFormedCatalog (c : EventCatalog) : Prop :=
  count c = List.length (events c)
  /\ Forall wellFormedEvent (events c)
  /\ (Forall (validDate dateValue) (events c) ->
      Sorted (notOlder dateValue) (events c)).

End Views.

(* ================================================================== *)
(** ** Sample inputs *)
(* ================================================================== *)

(** [n] data lines, each a line feed followed by [row]. *)
Fixpoint repeatRows (n : nat) (row : string) : string :=
  match n with
  | O => EmptyString
  | S k => String LF (row ++ repeatRows k row)
  end.

(** A forecast CSV of [n] data rows with the same cells. *)
Definition forecastCSV (n : nat) (row : string) : string :=
  ("time,total_water_level" ++ repeatRows n row)%string.

Definition sampleSite : Site :=
  {| id := "TWL_Baguida_TOGO";
     name := "Baguida (TWL_BAGUIDA_TOGO)";
     lat := Fin (61 # 10);
     lng := Fin (13 # 10);
     threshold := Fin 2;
     risk_class := [Fin (5 # 2); Fin 3];
     forecastData := None |}.

(** An event catalog without the surge column; its row has tide 1.0,
    runup 0.3 and peak 1.5. *)
Definition residualCSV : string :=
  ("peak_date_time,peak_value,tide,runup"
     ++ String LF "2020-01-15,1.5,1.0,0.3")%string.

(** The same catalog with runup 0.3333: the residual is not a multiple
    of 0.001. *)
Definition roundedCSV : string :=
  ("peak_date_time,peak_value,tide,runup"
     ++ String LF "2020-01-15,1.5,1.0,0.3333")%string.

(** A catalog with all the columns: a row whose peak is -1, and a row
    whose peak is the literal Infinity. *)
Definition rejectedCSV : string :=
  ("Peak_Date_Time,Peak_Value,Tide_10min,SSH_10min,Wave_Runup"
     ++ String LF "2021-02-01,-1,1.0,0.2,0.3")%string.

Definition infinitePeakCSV : string :=
  ("Peak_Date_Time,Peak_Value,Tide_10min,SSH_10min,Wave_Runup"
     ++ String LF "2022-03-01,Infinity,1.0,0.2,0.3")%string.

(** A catalog whose rows come oldest first. *)
Definition ascendingCSV : string :=
  ("peak_date_time,peak_value,tide,ssh,runup"
     ++ String LF "2020-01-15,1.5,1.0,0.2,0.3"
     ++ String LF "2021-06-01,1.8,1.0,0.4,0.4")%string.

(** The time value of a date written YYYY-MM-DD, in days (the factor of
    86400000 milliseconds is left out): used where a concrete [Date] is
    needed.  Other texts count as invalid dates. *)
Definition daysFromCivil (y m d : Z) : Z :=
  let y' := if m <=? 2 then y - 1 else y in
  let era := y' / 400 in
  let yoe := y' - era * 400 in
  let mp := (m + 9) mod 12 in
  let doy := (153 * mp + 2) / 5 + d - 1 in
  let doe := yoe * 365 + yoe / 4 - yoe / 100 + doy in
  era * 146097 + doe - 719468.

Definition isoDateValue (s : string) : option Z :=
  match readDigits s 0 0%nat with
  | (y, 4%nat, String c1 r1) =>
      match readDigits r1 0 0%nat with
      | (m, 2%nat, String c2 r2) =>
          match readDigits r2 0 0%nat with
          | (d, 2%nat, EmptyString) =>
              if Ascii.eqb c1 "-"%char && Ascii.eqb c2 "-"%char
                 && (1 <=? m) && (m <=? 12) && (1 <=? d) && (d <=? 31)
              then Some (daysFromCivil y m d)
              else None
          | _ => None
          end
      | _ => None
      end
  | _ => None
  end.

(** A network on which every request is rejected. *)
Definition offline (n : nat) (url : string) : FetchOutcome := Rejected.

(** A network that answers every request with status 404. *)
Definition notFound (n : nat) (url : string) : FetchOutcome :=
  Resolved {| ok := false; status := 404; statusText := "Not Found";
              body := Some EmptyString |}.

Definition noJSON (text : string) : option (option Release) := None.

(** A process that already holds release metadata. *)
Definition worldWith (info : Release) : World :=
  {| RELEASE_INFO := Some info;
     EVENT_DATA_CACHE := ∅;
     heap := [];
     fetched := [] |}.

(** A catalog with a row whose date cell is not a date. *)
Definition undatedCSV : string :=
  ("peak_date_time,peak_value,tide,ssh,runup"
     ++ String LF "n/a,1.5,1.0,0.2,0.3"
     ++ String LF "2020-01-15,1.8,1.0,0.4,0.4")%string.

Definition catalogUrl : string :=
  "https://github.com/safecoastpro/safecoastpro.github.io/releases/download/twl_update_latest/Xtrem_all_var_TOGO.csv".

Definition forecastUrl : string :=
  "https://github.com/safecoastpro/safecoastpro.github.io/releases/download/twl_update_latest/all_twl_data_TOGO_20251206.csv".

Definition sitesUrl : string :=
  "https://github.com/safecoastpro/safecoastpro.github.io/releases/download/twl_update_latest/sites_file.json".

(** A release that publishes the catalog and the forecast of TOGO and the
    site registry. *)
Definition sampleRelease : Release :=
  {| assets :=
       Some [ {| asset_name := "Xtrem_all_var_TOGO.csv";
                 browser_download_url := catalogUrl |};
              {| asset_name := "all_twl_data_TOGO_20251206.csv";
                 browser_download_url := forecastUrl |};
              {| asset_name := "sites_file.json";
                 browser_download_url := sitesUrl |} ] |}.

(** A release without assets. *)
Definition emptyRelease : Release := {| assets := Some [] |}.

Definition sampleReleaseJSON (text : string) : option (option Release) :=
  Some (Some sampleRelease).

(** A network that serves the catalog of TOGO and answers every other
    request with an empty JSON object. *)
Definition sampleNetwork (n : nat) (url : string) : FetchOutcome :=
  Resolved {| ok := true; status := 200; statusText := "OK";
              body := Some (if String.eqb url catalogUrl then ascendingCSV
                            else "{}") |}.

(** A network whose release host answers 404 while local paths are
    served. *)
Definition localOnly (n : nat) (url : string) : FetchOutcome :=
  if String.prefix "./" url then
    Resolved {| ok := true; status := 200; statusText := "OK";
                body := Some "{}" |}
  else notFound n url.

Definition sampleWeekday (i : nat) : string := "Saturday".
Definition sampleMonthDay (i : nat) : string := "Dec 6".
Definition sampleYear (i : nat) : string := "2025".

(** The calendar fields of a date written YYYY-MM-DD, read in UTC. *)
Definition isoMonthIndex (s : string) : option nat :=
  match isoDateValue s with
  | Some _ => Some (Z.to_nat (fst (fst (readDigits (substring 5 2 s) 0 0%nat)) - 1))
  | None => None
  end.

Definition isoFullYear (s : string) : option Z :=
  match isoDateValue s with
  | Some _ => Some (fst (fst (readDigits s 0 0%nat)))
  | None => None
  end.

(** The page after one catalog request for TOGO has run to its
    return. *)
Definition sampleProcess : Process :=
  {| world := snd (getSiteEvents sampleNetwork sampleReleaseJSON isoDateValue
                     "TOGO" initialWorld);
     jobs := [EventsJob "TOGO"
                (Async.Settled
                   (fst (getSiteEvents sampleNetwork sampleReleaseJSON
                           isoDateValue "TOGO" initialWorld)))] |}.

(** Two catalog requests for TOGO, the second started before the first
    is resumed; the first then runs to its return, and then the
    second. *)
Definition overlappingCalls : Process :=
  Nat.iter 12 (resume 1)
    (Nat.iter 12 (resume 0)
       (start (startEvents sampleNetwork sampleReleaseJSON isoDateValue "TOGO")
          (start (startEvents sampleNetwork sampleReleaseJSON isoDateValue
                    "TOGO")
             initialProcess))).

(* ================================================================== *)
(** * Properties *)
(* ================================================================== *)

(** ** The model on small inputs *)

Example parseFloat_samples :
  parseFloat "  1.50abc" = Some (Fin (3 # 2))
  /\ parseFloat "-.5e1" = Some (Fin (-5))
  /\ parseFloat "1e" = Some (Fin 1)
  /\ parseFloat "-Infinity" = Some NegInf
  /\ parseFloat "." = None
  /\ parseFloat "abc" = None
  /\ parseFloat "" = None.
Proof. repeat split. Qed.

Example toFixed_samples :
  Num.toFixed 3 (Fin (12345 # 10000)) = Fin (247 # 200)
  /\ Num.toFixed 3 (Fin (-12345 # 10000)) = Fin (-247 # 200)
  /\ Num.toFixed 3 (Fin (1 # 3)) = Fin (333 # 1000)
  /\ Num.toFixed 3 PosInf = PosInf
  /\ toFixedString 2 (Fin (3 # 2)) = "1.50"%string
  /\ toFixedString 2 (Fin (-1 # 1000)) = "-0.00"%string.
Proof. repeat split. Qed.

(** Numbers are binary64 values: what is read and what is computed is
    rounded as the engine rounds it. *)
Example binary64_samples :
  parseFloat "0.1" = Some (Fin (3602879701896397 # 36028797018963968))
  /\ Num.add' (parseFloat "0.1") (parseFloat "0.2")
     = parseFloat "0.30000000000000004"
  /\ Num.mul' (parseFloat "3") (Some Num.onePointZeroFive)
     = parseFloat "3.1500000000000004"
  /\ parseFloat "1e-400" = Some (Fin 0)
  /\ parseFloat "1e400" = Some PosInf
  /\ option_map (toFixedString 2) (parseFloat "1.005") = Some "1.00"%string
  /\ map Event.twl_components
       (parseXtremEventCSV
          ("Peak_Date_Time,Peak_Value,Tide_10min,SSH_10min,Wave_Runup"
             ++ String LF "2020-01-01,1.01,0.2,0.4605,0.4"))
     = [[Num.round64 (2 # 10); Num.round64 (41 # 100); Num.round64 (4 # 10)]]
  /\ parseXtremEventCSV
       ("Peak_Date_Time,Peak_Value,Tide_10min,SSH_10min,Wave_Runup"
          ++ String LF "2020-01-01,0.58,0.05,0.009,0.55")
     = []
  /\ map Event.twl_components
       (parseXtremEventCSV
          ("Peak_Date_Time,Peak_Value,Tide_10min,SSH_10min,Wave_Runup"
             ++ String LF "2020-01-01,3,0,3.1500000000000004,0"))
     = [[Fin 0; Num.round64 (31500000000000004 # 10000000000000000); Fin 0]].
Proof. repeat split; vm_compute; reflexivity. Qed.

Example split_samples :
  splitOn comma "a,,b" = ["a"; ""; "b"]%string
  /\ splitOn comma "" = [""%string]
  /\ splitLines ("a,b" ++ String CR (String LF "c"))%string
     = ["a,b"; "c"]%string
  /\ trim "  a b  " = "a b"%string
  /\ includes "tide" "peak_date_time" = false
  /\ includes "tide" "tide_10min" = true.
Proof. repeat split. Qed.

Example classifyRisk_samples :
  classifyRisk (Fin (19 # 10)) (Fin 2) [Fin (5 # 2); Fin 3] = NoFlood
  /\ classifyRisk (Fin 2) (Fin 2) [Fin (5 # 2); Fin 3] = Warning
  /\ classifyRisk (Fin (5 # 2)) (Fin 2) [Fin (5 # 2); Fin 3] = HighRisk
  /\ classifyRisk PosInf (Fin 2) [Fin (5 # 2); Fin 3] = SevereFlood
  /\ classifyRisk (Fin 9) (Fin 2) [] = SevereFlood.
Proof. repeat split. Qed.

Example isoDateValue_samples :
  isoDateValue "1970-01-01" = Some 0
  /\ isoDateValue "2020-01-15" = Some 18276
  /\ isoDateValue "n/a" = None.
Proof. repeat split. Qed.

(** ** Order on numbers *)

Lemma Qlt_bool_iff (x y : Q) : Qlt_bool x y = true <-> (x < y)%Q.
Proof.
  unfold Qlt_bool. rewrite negb_true_iff. split.
  - intros H. apply Qnot_le_lt. intros Hle.
    apply Qle_bool_iff in Hle. congruence.
  - intros H. destruct (Qle_bool y x) eqn:E; [|reflexivity].
    apply Qle_bool_iff in E. exfalso. eapply Qlt_not_le; eauto.
Qed.

Lemma lt_negb_le (a b : num) : Num.lt a b = negb (Num.le b a).
Proof. destruct a, b; reflexivity. Qed.

Lemma le_negb_lt (a b : num) : Num.le a b = negb (Num.lt b a).
Proof. rewrite lt_negb_le, negb_involutive. reflexivity. Qed.

Lemma le_refl (a : num) : Num.le a a = true.
Proof.
  destruct a; simpl; try reflexivity.
  apply Qle_bool_iff, Qle_refl.
Qed.

Lemma lt_irrefl (a : num) : Num.lt a a = false.
Proof. rewrite lt_negb_le, le_refl. reflexivity. Qed.

Lemma le_lt_trans (a b c : num) :
  Num.le a b = true -> Num.lt b c = true -> Num.lt a c = true.
Proof.
  destruct a as [|x|], b as [|y|], c as [|z|]; simpl; try congruence.
  rewrite Qle_bool_iff, !Qlt_bool_iff. apply Qle_lt_trans.
Qed.

Lemma lt_le_trans (a b c : num) :
  Num.lt a b = true -> Num.le b c = true -> Num.lt a c = true.
Proof.
  destruct a as [|x|], b as [|y|], c as [|z|]; simpl; try congruence.
  rewrite Qle_bool_iff, !Qlt_bool_iff. apply Qlt_le_trans.
Qed.

Lemma le_trans (a b c : num) :
  Num.le a b = true -> Num.le b c = true -> Num.le a c = true.
Proof.
  destruct a as [|x|], b as [|y|], c as [|z|]; simpl; try congruence.
  rewrite !Qle_bool_iff. apply Qle_trans.
Qed.

Lemma lt_le_weak (a b : num) : Num.lt a b = true -> Num.le a b = true.
Proof.
  destruct a as [|x|], b as [|y|]; simpl; try congruence.
  rewrite Qle_bool_iff, Qlt_bool_iff. apply Qlt_le_weak.
Qed.

(** ** The risk classifier *)

Lemma classifyRisk_bands (v t h s : num) :
  classifyRisk v t [h; s] =
    if Num.lt v t then NoFlood
    else if Num.lt v h then Warning
    else if Num.lt v s then HighRisk
    else SevereFlood.
Proof. reflexivity. Qed.

Lemma classifyRisk_mono (v v' t h s : num) :
  Num.le v v' = true ->
  (rank (classifyRisk v t [h; s]) <= rank (classifyRisk v' t [h; s]))%nat.
Proof.
  intros Hle. rewrite !classifyRisk_bands.
  destruct (Num.lt v' t) eqn:E1.
  { rewrite (le_lt_trans _ _ _ Hle E1). simpl. lia. }
  destruct (Num.lt v' h) eqn:E2.
  { rewrite (le_lt_trans _ _ _ Hle E2).
    destruct (Num.lt v t); simpl; lia. }
  destruct (Num.lt v' s) eqn:E3.
  { rewrite (le_lt_trans _ _ _ Hle E3).
    destruct (Num.lt v t), (Num.lt v h); simpl; lia. }
  destruct (Num.lt v t), (Num.lt v h), (Num.lt v s); simpl; lia.
Qed.

(** C2.  With [t < h < s], [classifyRisk v t [h; s]] is a step function
    of the level [v]: No Flood exactly when [v < t], Warning exactly when
    [t <= v < h], High Risk exactly when [h <= v < s], Severe Flood exactly
    when [v >= s]; it never decreases when [v] grows, and each bound
    itself falls into the higher band.  The level [v] is any number the
    forecast parser can pass: a rational or an infinity (the samples that
    parse to NaN never reach the classifier). *)
Theorem classifyRisk_step_function (v t h s : num) :
  Num.lt t h = true ->
  Num.lt h s = true ->
  (classifyRisk v t [h; s] = NoFlood <-> Num.lt v t = true)
  /\ (classifyRisk v t [h; s] = Warning
      <-> Num.le t v = true /\ Num.lt v h = true)
  /\ (classifyRisk v t [h; s] = HighRisk
      <-> Num.le h v = true /\ Num.lt v s = true)
  /\ (classifyRisk v t [h; s] = SevereFlood <-> Num.ge v s = true)
  /\ (forall v', Num.le v v' = true ->
        (rank (classifyRisk v t [h; s])
         <= rank (classifyRisk v' t [h; s]))%nat)
  /\ classifyRisk t t [h; s] = Warning
  /\ classifyRisk h t [h; s] = HighRisk
  /\ classifyRisk s t [h; s] = SevereFlood.
Proof.
  intros Hth Hhs.
  assert (A1 : Num.lt v t = true -> Num.lt v h = true)
    by (intros E; eapply lt_le_trans; [exact E | apply lt_le_weak, Hth]).
  assert (A2 : Num.lt v h = true -> Num.lt v s = true)
    by (intros E; eapply lt_le_trans; [exact E | apply lt_le_weak, Hhs]).
  assert (Hht : Num.lt h t = false).
  { destruct (Num.lt h t) eqn:E; [|reflexivity].
    pose proof (lt_le_trans _ _ _ E (lt_le_weak _ _ Hth)) as X.
    rewrite lt_irrefl in X. discriminate. }
  assert (Hsh : Num.lt s h = false).
  { destruct (Num.lt s h) eqn:E; [|reflexivity].
    pose proof (lt_le_trans _ _ _ E (lt_le_weak _ _ Hhs)) as X.
    rewrite lt_irrefl in X. discriminate. }
  assert (Hst : Num.lt s t = false).
  { destruct (Num.lt s t) eqn:E; [|reflexivity].
    pose proof (lt_le_trans _ _ _ E (lt_le_weak _ _ Hth)) as X.
    congruence. }
  split; [|split; [|split; [|split; [|split; [|split; [|split]]]]]].
  1-4: rewrite classifyRisk_bands; unfold Num.ge;
       rewrite ?(le_negb_lt _ v), ?negb_true_iff;
       destruct (Num.lt v t) eqn:E1, (Num.lt v h) eqn:E2,
                (Num.lt v s) eqn:E3;
       try (specialize (A1 eq_refl)); try (specialize (A2 eq_refl));
       try congruence; intuition congruence.
  - intros v' Hle. apply classifyRisk_mono, Hle.
  - rewrite classifyRisk_bands, lt_irrefl, Hth. reflexivity.
  - rewrite classifyRisk_bands, lt_irrefl, Hht, Hhs. reflexivity.
  - rewrite classifyRisk_bands, lt_irrefl, Hst, Hsh. reflexivity.
Qed.

Lemma classifyRisk_step_function_witness :
  Num.lt (Fin 1) (Fin 2) = true
  /\ Num.lt (Fin 2) (Fin 3) = true
  /\ (classifyRisk (Fin (5 # 2)) (Fin 1) [Fin 2; Fin 3] = HighRisk
      <-> Num.le (Fin 2) (Fin (5 # 2)) = true
          /\ Num.lt (Fin (5 # 2)) (Fin 3) = true).
Proof.
  split; [reflexivity|]. split; [reflexivity|].
  apply (classifyRisk_step_function (Fin (5 # 2)) (Fin 1) (Fin 2) (Fin 3));
    reflexivity.
Defined.

(** ** The forecast parser *)

Lemma splitOn_nonempty (sep : ascii) (s : string) : splitOn sep s <> [].
Proof.
  induction s as [|c r IH]; simpl; [discriminate|].
  destruct (Ascii.eqb c sep); [discriminate|].
  destruct (splitOn sep r); discriminate.
Qed.

Lemma splitOn_second (a rest : string) :
  exists part,
    splitOn comma (a ++ String comma rest)%string !! 1%nat = Some part
    /\ nth 1 (splitOn comma (a ++ String comma rest)%string) EmptyString
       = part.
Proof.
  induction a as [|c r IH]; simpl.
  - destruct (splitOn comma rest) as [|h t] eqn:E.
    { exfalso. eapply splitOn_nonempty, E. }
    exists h. split; reflexivity.
  - destruct (Ascii.eqb c comma).
    + destruct (splitOn comma (r ++ String comma rest)%string) as [|h t] eqn:E.
      { exfalso. eapply splitOn_nonempty, E. }
      exists h. split; reflexivity.
    + destruct IH as [part [H1 H2]].
      destruct (splitOn comma (r ++ String comma rest)%string) as [|h t] eqn:E.
      { discriminate. }
      exists part. split; [exact H1 | exact H2].
Qed.

Lemma length_slice {A : Type} (a b : nat) (l : list A) :
  List.length (slice a b l) = Nat.min (b - a) (List.length l - a).
Proof. unfold slice. rewrite length_take, length_drop. reflexivity. Qed.

Lemma length_filterIndexFrom_hour {A : Type} (l : list A) (i : nat) :
  List.length
    (filterIndexFrom (fun index => (index mod DATA_POINTS_PER_HOUR =? 0)%nat)
       l i)
  = ((i + List.length l + 5) / 6 - (i + 5) / 6)%nat.
Proof.
  change DATA_POINTS_PER_HOUR with 6%nat.
  revert i. induction l as [|x r IH]; intros i;
    cbn [filterIndexFrom List.length].
  - replace (i + 0)%nat with i by lia. lia.
  - destruct (Nat.eqb_spec (i mod 6) 0) as [E|E];
      cbn [List.length]; rewrite IH; lia.
Qed.

Lemma length_hourlyOf (rawTWLData : list Sample) :
  List.length (hourlyOf rawTWLData) = ((List.length rawTWLData + 5) / 6)%nat.
Proof.
  unfold hourlyOf. rewrite length_map, length_filterIndexFrom_hour.
  simpl. lia.
Qed.

Lemma length_retained_le (idx : nat) (l : list string) (acc : list Sample) :
  (List.length (fold_left (pushRow idx) l acc)
   <= List.length acc + List.length l)%nat.
Proof.
  revert acc. induction l as [|x r IH]; intros acc; simpl; [lia|].
  specialize (IH (pushRow idx acc x)).
  unfold pushRow in *. destruct (rowSample idx x).
  - rewrite length_app in IH. simpl in IH. lia.
  - lia.
Qed.

(** The retained samples are those of the data lines that have the TWL
    cell and whose cell parses to a number, in file order. *)
Lemma retainedRows_omap (csvText : string) (idx : nat) :
  retainedRows csvText idx
  = omap (rowSample idx) (drop 1 (forecastLines csvText)).
Proof.
  unfold retainedRows.
  assert (H : forall l acc,
             fold_left (pushRow idx) l acc = acc ++ omap (rowSample idx) l).
  { induction l as [|x r IH]; intros acc; simpl.
    - rewrite app_nil_r. reflexivity.
    - rewrite IH. unfold pushRow. destruct (rowSample idx x); simpl.
      + rewrite <- app_assoc. reflexivity.
      + reflexivity. }
  apply H.
Qed.

Section ForecastProperties.

Variable weekdayOf : nat -> string.
Variable monthDayOf : nat -> string.
Variable yearOf : nat -> string.

Abbreviation getForecastDate' := (getForecastDate weekdayOf monthDayOf yearOf).
Abbreviation parseForecastCSV' := (parseForecastCSV weekdayOf monthDayOf yearOf).
Abbreviation entryOfDay' := (entryOfDay weekdayOf monthDayOf yearOf).

(** The label of a day always has a second comma-separated part, so the
    loop body never throws. *)
Lemma dayEntry_total (site : Site) (raw : list Sample) (i : nat) :
  dayEntry weekdayOf monthDayOf yearOf site i (dayWindow raw i)
  = Some (entryOfDay' site raw i).
Proof.
  unfold dayEntry, entryOfDay, getForecastDate.
  destruct (splitOn_second (weekdayOf i)
              (" " ++ monthDayOf i ++ ", " ++ yearOf i)%string)
    as [part [H1 H2]].
  change (weekdayOf i ++ ", " ++ monthDayOf i ++ ", " ++ yearOf i)%string
    with (weekdayOf i ++ String comma
            (" " ++ monthDayOf i ++ ", " ++ yearOf i))%string.
  rewrite H1, H2. reflexivity.
Qed.

Lemma dailyLoop_spec (site : Site) (raw : list Sample) (fuel i : nat)
  (acc : list DailyEntry) :
  dailyLoop weekdayOf monthDayOf yearOf site raw fuel i acc
  = Some (acc ++ map (entryOfDay' site raw)
                   (seq i (Nat.min fuel
                             ((List.length raw + 108) / 144 - i)))).
Proof.
  revert i acc. induction fuel as [|fuel IH]; intros i acc.
  - simpl. rewrite app_nil_r. reflexivity.
  - cbn [dailyLoop].
    fold (dayWindow raw i).
    assert (Hlen : List.length (dayWindow raw i)
                   = Nat.min 144 (List.length raw - i * 144)).
    { unfold dayWindow. rewrite length_slice.
      change DATA_POINTS_PER_DAY with 144%nat. lia. }
    change DATA_POINTS_PER_DAY with 144%nat. rewrite Hlen.
    destruct (Nat.ltb_spec (Nat.min 144 (List.length raw - i * 144) * 4) 144)
      as [Hshort|Hfull].
    + replace ((List.length raw + 108) / 144 - i)%nat with 0%nat by lia.
      rewrite Nat.min_0_r. simpl. rewrite app_nil_r. reflexivity.
    + rewrite dayEntry_total, IH. f_equal.
      rewrite <- app_assoc. f_equal.
      replace (Nat.min (S fuel) ((List.length raw + 108) / 144 - i))
        with (S (Nat.min fuel ((List.length raw + 108) / 144 - S i)))
        by lia.
      reflexivity.
Qed.

(** [parseForecastCSV] never throws, and what it returns is determined by
    the samples it retains. *)
Lemma parseForecastCSV_spec (csvText : string) (site : Site) :
  parseForecastCSV' csvText site
  = Some {| daily :=
              map (entryOfDay' site (forecastSamples csvText))
                (seq 0 (daysEmitted (List.length (forecastSamples csvText))));
            hourly := hourlyOf (forecastSamples csvText) |}.
Proof.
  unfold parseForecastCSV, forecastSamples.
  destruct (List.length (forecastLines csvText) <? 2)%nat; [reflexivity|].
  destruct (twlColumn csvText) as [idx|]; [|reflexivity].
  rewrite dailyLoop_spec. simpl app.
  unfold daysEmitted. change NUM_DAYS with 7%nat.
  change (DATA_POINTS_PER_DAY - DATA_POINTS_PER_DAY / 4)%nat with 108%nat.
  change DATA_POINTS_PER_DAY with 144%nat.
  rewrite Nat.sub_0_r. reflexivity.
Qed.

Lemma forecastSamples_retained (csvText : string) (idx : nat) :
  twlColumn csvText = Some idx ->
  retainedRows csvText idx <> [] ->
  forecastSamples csvText = retainedRows csvText idx.
Proof.
  intros Hcol Hne. unfold forecastSamples. rewrite Hcol.
  destruct (Nat.ltb_spec (List.length (forecastLines csvText)) 2)
    as [Hshort|]; [|reflexivity].
  exfalso. apply Hne. unfold retainedRows in *.
  pose proof (length_retained_le idx (drop 1 (forecastLines csvText)) [])
    as Hle.
  rewrite length_drop in Hle. simpl in Hle.
  destruct (fold_left _ _ _); [reflexivity | simpl in Hle; lia].
Qed.

(** C1.  A CSV whose header has the [total_water_level] column and whose
    body yields exactly 144 x 7 = 1008 valid rows gives 7 daily entries and
    168 hourly values; one that yields 144 x 3 + 20 = 452 valid rows gives
    3 daily entries, those of the three complete windows: the fourth
    window holds 20 < 36 samples, so the loop stops there and no entry is
    emitted for it or for any later day. *)
Theorem parseForecastCSV_days (site : Site) (csvText : string) (idx : nat) :
  twlColumn csvText = Some idx ->
  (List.length (retainedRows csvText idx) = (144 * 7)%nat ->
   exists fs,
     parseForecastCSV' csvText site = Some fs
     /\ List.length (daily fs) = 7%nat
     /\ List.length (hourly fs) = 168%nat)
  /\ (List.length (retainedRows csvText idx) = (144 * 3 + 20)%nat ->
      exists fs,
        parseForecastCSV' csvText site = Some fs
        /\ List.length (daily fs) = 3%nat
        /\ List.length (dayWindow (retainedRows csvText idx) 3) = 20%nat
        /\ daily fs
           = map (entryOfDay' site (retainedRows csvText idx)) [0; 1; 2]%nat).
Proof.
  intros Hcol. split; intros Hlen.
  - assert (Hs : forecastSamples csvText = retainedRows csvText idx).
    { apply forecastSamples_retained; [exact Hcol|].
      intros E. rewrite E in Hlen. discriminate. }
    eexists. split; [apply parseForecastCSV_spec|].
    cbn [daily hourly]. rewrite length_map, length_seq, length_hourlyOf.
    rewrite Hs, Hlen. split; reflexivity.
  - assert (Hs : forecastSamples csvText = retainedRows csvText idx).
    { apply forecastSamples_retained; [exact Hcol|].
      intros E. rewrite E in Hlen. discriminate. }
    eexists. split; [apply parseForecastCSV_spec|].
    cbn [daily hourly]. rewrite length_map, length_seq.
    rewrite Hs, Hlen. split; [reflexivity|]. split; [|reflexivity].
    unfold dayWindow. rewrite length_slice, Hlen. reflexivity.
Qed.

(** C3, as the code has it.  The hourly series is taken from all the
    retained samples, one in six, whatever the number of days emitted:
    with [n] samples there are [ceil (n / 6)] hourly values and
    [min 7 (floor ((n + 108) / 144))] daily entries.  The two lengths
    agree, [hourly.length = 24 * daily.length], when the samples make up
    whole days, at most seven of them. *)
Theorem parseForecastCSV_lengths (site : Site) (csvText : string) :
  exists fs,
    parseForecastCSV' csvText site = Some fs
    /\ List.length (hourly fs)
       = ((List.length (forecastSamples csvText) + 5) / 6)%nat
    /\ List.length (daily fs)
       = daysEmitted (List.length (forecastSamples csvText))
    /\ (forall k : nat,
          (k <= NUM_DAYS)%nat ->
          List.length (forecastSamples csvText)
          = (k * DATA_POINTS_PER_DAY)%nat ->
          List.length (hourly fs) = (24 * List.length (daily fs))%nat).
Proof.
  eexists. split; [apply parseForecastCSV_spec|].
  cbn [daily hourly]. rewrite length_map, length_seq, length_hourlyOf.
  split; [reflexivity|]. split; [reflexivity|].
  intros k Hk Hn. rewrite Hn. unfold daysEmitted.
  change NUM_DAYS with 7%nat in *.
  change (DATA_POINTS_PER_DAY - DATA_POINTS_PER_DAY / 4)%nat with 108%nat.
  change DATA_POINTS_PER_DAY with 144%nat. lia.
Qed.

End ForecastProperties.

Lemma parseForecastCSV_days_witness :
  twlColumn (forecastCSV 1008 "2025-12-06 00:00:00,1.25") = Some 1%nat
  /\ List.length (retainedRows (forecastCSV 1008 "2025-12-06 00:00:00,1.25") 1)
     = (144 * 7)%nat
  /\ (exists fs,
        parseForecastCSV sampleWeekday sampleMonthDay sampleYear
          (forecastCSV 1008 "2025-12-06 00:00:00,1.25") sampleSite = Some fs
        /\ List.length (daily fs) = 7%nat
        /\ List.length (hourly fs) = 168%nat)
  /\ List.length (retainedRows (forecastCSV 452 "2025-12-06 00:00:00,1.25") 1)
     = (144 * 3 + 20)%nat
  /\ (exists fs,
        parseForecastCSV sampleWeekday sampleMonthDay sampleYear
          (forecastCSV 452 "2025-12-06 00:00:00,1.25") sampleSite = Some fs
        /\ List.length (daily fs) = 3%nat).
Proof.
  split; [vm_compute; reflexivity|].
  split; [vm_compute; reflexivity|].
  split.
  { apply (parseForecastCSV_days sampleWeekday sampleMonthDay sampleYear
             sampleSite (forecastCSV 1008 "2025-12-06 00:00:00,1.25") 1%nat);
      vm_compute; reflexivity. }
  split; [vm_compute; reflexivity|].
  destruct (parseForecastCSV_days sampleWeekday sampleMonthDay sampleYear
              sampleSite (forecastCSV 452 "2025-12-06 00:00:00,1.25") 1%nat)
    as [_ Hshort]; [vm_compute; reflexivity|].
  destruct Hshort as [fs [Hfs [Hlen _]]]; [vm_compute; reflexivity|].
  exists fs. split; [exact Hfs | exact Hlen].
Defined.

(** C3, as stated, fails on the short horizon of C1: 452 retained samples
    give 3 daily entries and 76 hourly values, not 72. *)
Lemma parseForecastCSV_hourly_not_truncated :
  exists fs,
    parseForecastCSV sampleWeekday sampleMonthDay sampleYear
      (forecastCSV 452 "2025-12-06 00:00:00,1.25") sampleSite = Some fs
    /\ List.length (daily fs) = 3%nat
    /\ List.length (hourly fs) = 76%nat
    /\ List.length (hourly fs) <> (24 * List.length (daily fs))%nat.
Proof.
  eexists. split; [vm_compute; reflexivity|].
  split; [reflexivity|]. split; [reflexivity|]. discriminate.
Qed.

Lemma parseForecastCSV_lengths_witness :
  exists fs,
    parseForecastCSV sampleWeekday sampleMonthDay sampleYear
      (forecastCSV 288 "2025-12-06 00:00:00,1.25") sampleSite = Some fs
    /\ List.length (hourly fs) = (24 * List.length (daily fs))%nat.
Proof.
  destruct (parseForecastCSV_lengths sampleWeekday sampleMonthDay sampleYear
              sampleSite (forecastCSV 288 "2025-12-06 00:00:00,1.25"))
    as [fs [Hfs [_ [_ Hk]]]].
  exists fs. split; [exact Hfs|].
  apply (Hk 2%nat); [unfold NUM_DAYS; lia | vm_compute; reflexivity].
Defined.

(** ** The daily maximum *)

Lemma max_ge_left (a b : num) : Num.le a (Num.max a b) = true.
Proof.
  unfold Num.max. destruct (Num.lt a b) eqn:E.
  - apply lt_le_weak, E.
  - apply le_refl.
Qed.

Lemma maxTWL_from_ge (l : list Sample) (acc : num) :
  Num.le acc
    (fold_left (fun max item => Num.max max (twl item)) l acc) = true.
Proof.
  revert acc. induction l as [|x r IH]; intros acc; simpl.
  - apply le_refl.
  - eapply le_trans; [apply (max_ge_left acc (twl x)) | apply IH].
Qed.

Lemma maxTWL_nonneg (l : list Sample) : Num.le Num.zero (maxTWL l) = true.
Proof. apply maxTWL_from_ge. Qed.

Lemma lt_asym (a b : num) : Num.lt a b = true -> Num.lt b a = false.
Proof.
  intros H. destruct (Num.lt b a) eqn:E; [|reflexivity].
  pose proof (lt_le_trans _ _ _ H (lt_le_weak _ _ E)) as X.
  rewrite lt_irrefl in X. discriminate.
Qed.

Lemma maxTWL_all_negative (l : list Sample) :
  (forall s, In s l -> Num.lt (twl s) Num.zero = true) ->
  maxTWL l = Num.zero.
Proof.
  unfold maxTWL. induction l as [|x r IH]; intros Hneg; simpl.
  - reflexivity.
  - unfold Num.max at 2. rewrite (lt_asym _ _ (Hneg x (or_introl eq_refl))).
    apply IH. intros s Hs. apply Hneg. right. exact Hs.
Qed.

Lemma roundHalfAway_nonneg (x : Q) :
  0 <= Qnum x -> 0 <= Num.roundHalfAway x.
Proof.
  intros H. unfold Num.roundHalfAway.
  destruct (Z.leb_spec 0 (Qnum x)); [|lia].
  apply Z.div_pos; lia.
Qed.

Lemma toFixed_nonneg (f : nat) (a : num) :
  Num.le Num.zero a = true -> Num.le Num.zero (Num.toFixed f a) = true.
Proof.
  destruct a as [|x|]; simpl; try congruence.
  intros H. apply Qle_bool_iff in H. apply Qle_bool_iff.
  rewrite Qred_correct.
  unfold Qle in *. simpl in *.
  assert (0 <= Qnum x) by lia.
  pose proof (roundHalfAway_nonneg (x * inject_Z (10 ^ Z.of_nat f))) as R.
  simpl in R.
  assert (0 <= 10 ^ Z.of_nat f) by (apply Z.pow_nonneg; lia).
  specialize (R ltac:(nia)). lia.
Qed.

Section DailyMaximum.

Variable weekdayOf : nat -> string.
Variable monthDayOf : nat -> string.
Variable yearOf : nat -> string.

(** C9.  Every daily entry that [parseForecastCSV] emits has
    [max_water_level >= 0]: the maximum of a window is folded from 0.  An
    entry is that of some day [i], and when all the samples of that
    window are negative its [max_water_level] is 0 and its risk is the
    class of 0. *)
Theorem parseForecastCSV_max_nonnegative (site : Site) (csvText : string) :
  exists fs,
    parseForecastCSV weekdayOf monthDayOf yearOf csvText site = Some fs
    /\ forall d, In d (daily fs) ->
         Num.ge (max_water_level d) Num.zero = true
         /\ exists i,
              (i < List.length (daily fs))%nat
              /\ d = entryOfDay weekdayOf monthDayOf yearOf site
                       (forecastSamples csvText) i
              /\ ((forall s, In s (dayWindow (forecastSamples csvText) i) ->
                     Num.lt (twl s) Num.zero = true) ->
                  max_water_level d = Num.zero
                  /\ risk d
                     = classifyRisk Num.zero (threshold site)
                         (risk_class site)).
Proof.
  eexists. split; [apply parseForecastCSV_spec|].
  cbn [daily]. intros d Hd.
  apply in_map_iff in Hd. destruct Hd as [i [Hi Hin]].
  apply in_seq in Hin. subst d. split.
  - cbn [entryOfDay max_water_level]. unfold Num.ge.
    apply toFixed_nonneg, maxTWL_nonneg.
  - exists i. rewrite length_map, length_seq.
    split; [lia|]. split; [reflexivity|].
    intros Hneg. cbn [entryOfDay max_water_level risk].
    rewrite (maxTWL_all_negative _ Hneg). split; reflexivity.
Qed.

End DailyMaximum.

Lemma parseForecastCSV_max_nonnegative_witness :
  exists fs d,
    parseForecastCSV sampleWeekday sampleMonthDay sampleYear
      (forecastCSV 40 "2025-12-06 00:00:00,-1.25") sampleSite = Some fs
    /\ daily fs = [d]
    /\ max_water_level d = Num.zero
    /\ risk d = NoFlood.
Proof.
  destruct (parseForecastCSV_max_nonnegative sampleWeekday sampleMonthDay
              sampleYear sampleSite
              (forecastCSV 40 "2025-12-06 00:00:00,-1.25"))
    as [fs [Hfs Hall]].
  assert (Hd : exists d, daily fs = [d]).
  { vm_compute in Hfs. injection Hfs as <-. eexists. reflexivity. }
  destruct Hd as [d Hd]. exists fs, d.
  split; [exact Hfs|]. split; [exact Hd|].
  destruct (Hall d) as [_ [i [Hi [_ Hneg]]]].
  { rewrite Hd. left. reflexivity. }
  rewrite Hd in Hi. simpl in Hi. assert (i = 0%nat) by lia. subst i.
  destruct Hneg as [H1 H2].
  { intros s Hs. vm_compute in Hs.
    repeat (destruct Hs as [<-|Hs]; [reflexivity|]). destruct Hs. }
  split; [exact H1|]. rewrite H2. reflexivity.
Defined.

(** ** Rounding to decimals *)

Lemma roundHalfAway_error (x : Q) :
  Z.abs (2 * Num.roundHalfAway x * Zpos (Qden x) - 2 * Qnum x)
  <= Zpos (Qden x).
Proof.
  unfold Num.roundHalfAway.
  set (n := Qnum x). set (d := Zpos (Qden x)).
  assert (Hd : 0 < d) by (unfold d; lia).
  destruct (Z.leb_spec 0 n) as [Hn|Hn].
  - pose proof (Z.mul_div_le (2 * n + d) (2 * d) ltac:(lia)) as H1.
    pose proof (Z.mul_succ_div_gt (2 * n + d) (2 * d) ltac:(lia)) as H2.
    set (q := (2 * n + d) / (2 * d)) in *. nia.
  - pose proof (Z.mul_div_le (2 * - n + d) (2 * d) ltac:(lia)) as H1.
    pose proof (Z.mul_succ_div_gt (2 * - n + d) (2 * d) ltac:(lia)) as H2.
    set (q := (2 * - n + d) / (2 * d)) in *. nia.
Qed.

Lemma toFixed_Qerror (f : nat) (x y : Q) :
  Num.toFixed f (Fin x) = Fin y ->
  (Qabs (y - x) <= 1 # Z.to_pos (2 * 10 ^ Z.of_nat f))%Q.
Proof.
  cbn [Num.toFixed]. intros H. injection H as <-.
  rewrite Qred_correct.
  set (p := 10 ^ Z.of_nat f).
  assert (Hp : 0 < p) by (apply Z.pow_pos_nonneg; lia).
  pose proof (roundHalfAway_error (x * inject_Z p)) as E.
  set (r := Num.roundHalfAway (x * inject_Z p)) in *.
  destruct x as [a b]. cbn in E.
  rewrite Pos.mul_1_r in E.
  apply Qabs_Qle_condition.
  unfold Qle, Qminus, Qplus, Qopp. cbn.
  rewrite !Pos2Z.inj_mul, !Z2Pos.id by lia.
  split; nia.
Qed.

(** Rounding a finite number to [f] decimals, as
    [parseFloat(x.toFixed(f))] does for the daily maximum, the hourly
    values and the residual surge, gives a multiple of [10^-f] that is
    at most half of [10^-f] away from the number; an infinity is left as
    it is. *)
Lemma toFixed_rounding (f : nat) (a : num) :
  match a with
  | Fin x =>
      exists y,
        Num.toFixed f a = Fin y
        /\ (Qabs (y - x) <= 1 # Z.to_pos (2 * 10 ^ Z.of_nat f))%Q
        /\ exists r : Z, (y == r # Z.to_pos (10 ^ Z.of_nat f))%Q
  | _ => Num.toFixed f a = a
  end.
Proof.
  destruct a as [|x|]; [reflexivity| |reflexivity].
  eexists. split; [reflexivity|]. split.
  - apply (toFixed_Qerror f). reflexivity.
  - eexists. apply Qred_correct.
Qed.

(** ** The event parser *)

Lemma accepted_true (dateStr : option string) (twlPeak : jsnum)
  (tide : num) (surge : jsnum) (runup : num) :
  accepted dateStr twlPeak tide surge runup = true <->
  exists d peak sg,
    dateStr = Some d /\ d <> EmptyString
    /\ twlPeak = Some peak /\ Num.gt peak Num.zero = true
    /\ Num.ge tide Num.zero = true
    /\ surge = Some sg /\ Num.ge sg Num.zero = true
    /\ Num.ge runup Num.zero = true.
Proof.
  unfold accepted. rewrite !andb_true_iff. split.
  - intros [[[[[Hd Hn] Hp] Ht] Hs] Hr].
    destruct dateStr as [[|c r]|]; try discriminate.
    destruct twlPeak as [peak|]; try discriminate.
    destruct surge as [sg|]; try discriminate.
    exists (String c r), peak, sg. repeat split; try assumption.
    discriminate.
  - intros (d & peak & sg & -> & Hd & -> & Hp & Ht & -> & Hs & Hr).
    destruct d; [congruence|]. repeat split; assumption.
Qed.

Lemma rowEvent_Some (ix : Columns) (line : string) (e : Event.t) :
  rowEvent ix line = Some e ->
  exists d peak sg,
    rowDate ix line = Some d /\ d <> EmptyString
    /\ rowPeak ix line = Some peak /\ Num.gt peak Num.zero = true
    /\ Num.ge (rowTide ix line) Num.zero = true
    /\ correctedSurge ix (rowPeak ix line) (rowTide ix line)
         (rowSurge ix line) (rowRunup ix line) = Some sg
    /\ Num.ge sg Num.zero = true
    /\ Num.ge (rowRunup ix line) Num.zero = true
    /\ Event.id e = d
    /\ Event.twl_peak e = peak
    /\ Event.twl_components e = [rowTide ix line; sg; rowRunup ix line].
Proof.
  unfold rowEvent. cbv zeta. intros H.
  destruct (accepted _ _ _ _ _) eqn:Hacc; [|discriminate].
  apply accepted_true in Hacc.
  destruct Hacc as (d & peak & sg & Hd & Hne & Hp & Hgt & Ht & Hs & Hsg & Hr).
  rewrite Hs, Hd, Hp in H. injection H as <-.
  exists d, peak, sg. repeat split; assumption.
Qed.

Lemma rowEvent_accepts (ix : Columns) (line : string) :
  (exists d peak sg,
     rowDate ix line = Some d /\ d <> EmptyString
     /\ rowPeak ix line = Some peak /\ Num.gt peak Num.zero = true
     /\ Num.ge (rowTide ix line) Num.zero = true
     /\ correctedSurge ix (rowPeak ix line) (rowTide ix line)
          (rowSurge ix line) (rowRunup ix line) = Some sg
     /\ Num.ge sg Num.zero = true
     /\ Num.ge (rowRunup ix line) Num.zero = true) ->
  exists e, rowEvent ix line = Some e.
Proof.
  intros (d & peak & sg & Hd & Hne & Hp & Hgt & Ht & Hs & Hsg & Hr).
  unfold rowEvent.
  assert (Hacc : accepted (rowDate ix line) (rowPeak ix line)
                   (rowTide ix line)
                   (correctedSurge ix (rowPeak ix line) (rowTide ix line)
                      (rowSurge ix line) (rowRunup ix line))
                   (rowRunup ix line) = true).
  { apply accepted_true. exists d, peak, sg. repeat split; assumption. }
  cbv zeta. rewrite Hacc, Hs, Hd, Hp. eexists. reflexivity.
Qed.

Lemma In_pushEvents (ix : Columns) (lines : list string)
  (acc : list Event.t) (e : Event.t) :
  In e (fold_left (pushEvent ix) lines acc) <->
  In e acc \/ exists line, In line lines /\ rowEvent ix line = Some e.
Proof.
  revert acc. induction lines as [|l r IH]; intros acc; simpl.
  - split; [auto | intros [H|[line [[] _]]]; exact H].
  - rewrite IH. unfold pushEvent. split.
    + intros [H|[line [Hin Hrow]]].
      * destruct (rowEvent ix l) as [e'|] eqn:E; [|auto].
        apply in_app_or in H. destruct H as [H|[<-|[]]]; [auto|].
        right. exists l. auto.
      * right. exists line. auto.
    + intros [H|[line [[<-|Hin] Hrow]]].
      * left. destruct (rowEvent ix l); [apply in_or_app|]; auto.
      * left. rewrite Hrow. apply in_or_app. right. left. reflexivity.
      * right. exists line. auto.
Qed.

Lemma pushEvents_omap (ix : Columns) (lines : list string)
  (acc : list Event.t) :
  fold_left (pushEvent ix) lines acc = acc ++ omap (rowEvent ix) lines.
Proof.
  revert acc. induction lines as [|l r IH]; intros acc; simpl.
  - rewrite app_nil_r. reflexivity.
  - rewrite IH. unfold pushEvent. destruct (rowEvent ix l); simpl.
    + rewrite <- app_assoc. reflexivity.
    + reflexivity.
Qed.

(** With a header and both required columns, the events are those of the
    data lines that pass the test, in file order. *)
Lemma parseXtremEventCSV_omap (csvText : string) :
  (2 <= List.length (xtremLines csvText))%nat ->
  dateIdx (xtremColumns csvText) <> None ->
  twlIdx (xtremColumns csvText) <> None ->
  parseXtremEventCSV csvText
  = omap (rowEvent (xtremColumns csvText)) (drop 1 (xtremLines csvText)).
Proof.
  intros Hlen Hd Ht. unfold parseXtremEventCSV.
  destruct (Nat.ltb_spec (List.length (xtremLines csvText)) 2); [lia|].
  destruct (dateIdx (xtremColumns csvText)); [|congruence].
  destruct (twlIdx (xtremColumns csvText)); [|congruence].
  simpl. apply (pushEvents_omap _ _ []).
Qed.

Lemma In_parseXtremEventCSV (csvText : string) (e : Event.t) :
  In e (parseXtremEventCSV csvText) ->
  exists line,
    In line (drop 1 (xtremLines csvText))
    /\ rowEvent (xtremColumns csvText) line = Some e.
Proof.
  unfold parseXtremEventCSV.
  destruct (List.length (xtremLines csvText) <? 2)%nat; [intros []|].
  destruct (isNone _ || isNone _); [intros []|].
  intros H. apply In_pushEvents in H. destruct H as [[]|H]. exact H.
Qed.

Lemma toFixedNumber_rounding (x : Q) :
  exists y,
    Num.toFixedNumber 3 (Fin x) = Num.round64 y
    /\ (Qabs (y - x) <= 1 # 2000)%Q
    /\ exists n : Z, (y == n # 1000)%Q.
Proof.
  destruct (toFixed_rounding 3 (Fin x)) as (y & Hy & Hbound & n & Hn).
  exists y. unfold Num.toFixedNumber. rewrite Hy.
  split; [reflexivity|]. split; [exact Hbound|]. exists n. exact Hn.
Qed.

(** C4.  Whenever the surge column is missing from the header, or the
    parsed surge is at most 0, or (surge + tide) + runup is greater than
    the peak times 1.05, the three evaluated as the code evaluates them,
    in binary64, the surge component of the emitted event is the peak
    minus the tide minus the runup, rounded to 3 decimals: the Number
    nearest to a multiple of 0.001 that is at most 0.0005 away from the
    difference (an infinite difference is kept as it is).  Every event of
    the parser comes from such a row.  The row with tide 1.0, no surge,
    runup 0.3 and peak 1.5 yields the components 1, 0.2 and 0.3, and with
    runup 0.3333 it yields the surge 0.167. *)
Theorem parseXtremEventCSV_surge_residual :
  (forall (ix : Columns) (line : string) (e : Event.t),
     rowEvent ix line = Some e ->
     surgeIdx ix = None
     \/ Num.le (rowSurge ix line) Num.zero = true
     \/ Num.gt'
          (Num.add' (Num.add (rowSurge ix line) (rowTide ix line))
             (Some (rowRunup ix line)))
          (Num.mul' (rowPeak ix line) (Some Num.onePointZeroFive)) = true ->
     exists tide surge runup residual,
       Event.twl_components e = [tide; surge; runup]
       /\ tide = rowTide ix line
       /\ runup = rowRunup ix line
       /\ rowPeak ix line = Some (Event.twl_peak e)
       /\ Num.sub' (Num.sub' (Some (Event.twl_peak e)) (Some tide))
            (Some runup) = Some residual
       /\ match residual with
          | Fin r =>
              exists y,
                surge = Num.round64 y
                /\ (Qabs (y - r) <= 1 # 2000)%Q
                /\ exists n : Z, (y == n # 1000)%Q
          | _ => surge = residual
          end)
  /\ (forall (csvText : string) (e : Event.t),
        In e (parseXtremEventCSV csvText) ->
        exists line,
          In line (drop 1 (xtremLines csvText))
          /\ rowEvent (xtremColumns csvText) line = Some e)
  /\ surgeIdx (xtremColumns residualCSV) = None
  /\ map Event.twl_components (parseXtremEventCSV residualCSV)
     = [[Fin 1; Num.round64 (2 # 10); Num.round64 (3 # 10)]]
  /\ map Event.twl_peak (parseXtremEventCSV residualCSV) = [Fin (3 # 2)]
  /\ map Event.twl_components (parseXtremEventCSV roundedCSV)
     = [[Fin 1; Num.round64 (167 # 1000); Num.round64 (3333 # 10000)]].
Proof.
  split; [|split; [exact In_parseXtremEventCSV|]].
  - intros ix line e Hrow Hcond.
    destruct (rowEvent_Some _ _ _ Hrow)
      as (d & peak & sg & Hd & Hne & Hp & Hgt & Ht & Hs & Hsg & Hr
          & Hid & Hpeak & Hcomp).
    assert (Hres : Num.toFixedNumber' 3
                     (Num.sub' (Num.sub' (Some peak) (Some (rowTide ix line)))
                        (Some (rowRunup ix line))) = Some sg).
    { rewrite <- Hp, <- Hs. unfold correctedSurge.
      destruct Hcond as [Habsent|[Hle|Hsum]].
      - rewrite Habsent. reflexivity.
      - rewrite Hle, orb_true_r. reflexivity.
      - rewrite Hsum, orb_true_r. reflexivity. }
    destruct (Num.sub' (Num.sub' (Some peak) (Some (rowTide ix line)))
                (Some (rowRunup ix line))) as [residual|] eqn:Hsub;
      [|discriminate].
    exists (rowTide ix line), sg, (rowRunup ix line), residual.
    split; [exact Hcomp|]. split; [reflexivity|]. split; [reflexivity|].
    split; [congruence|]. split; [rewrite Hpeak; exact Hsub|].
    cbn [Num.toFixedNumber'] in Hres. injection Hres as <-.
    destruct residual as [|r|]; [reflexivity| |reflexivity].
    destruct (toFixedNumber_rounding r) as (y & Hy & Hbound & Hn).
    exists y. auto.
  - split; [reflexivity|]. repeat split; vm_compute; reflexivity.
Qed.

Lemma parseXtremEventCSV_surge_residual_witness :
  exists e,
    rowEvent (xtremColumns roundedCSV) "2020-01-15,1.5,1.0,0.3333" = Some e
    /\ Event.twl_components e
       = [Fin 1; Num.round64 (167 # 1000); Num.round64 (3333 # 10000)]
    /\ exists residual y,
         Num.sub' (Num.sub' (Some (Fin (3 # 2))) (Some (Fin 1)))
           (Some (Num.round64 (3333 # 10000))) = Some (Fin residual)
         /\ Num.round64 (167 # 1000) = Num.round64 y
         /\ (Qabs (y - residual) <= 1 # 2000)%Q
         /\ (Qabs ((167 # 1000) - residual) <= 1 # 2000)%Q
         /\ ~ (residual == (167 # 1000))%Q.
Proof.
  destruct (rowEvent (xtremColumns roundedCSV) "2020-01-15,1.5,1.0,0.3333")
    as [e|] eqn:Hrow; [|vm_compute in Hrow; discriminate].
  destruct parseXtremEventCSV_surge_residual as [Hres _].
  destruct (Hres (xtremColumns roundedCSV) "2020-01-15,1.5,1.0,0.3333" e Hrow)
    as (tide & surge & runup & residual & Hcomp & Ht & Hr & _ & Hsub & Hround).
  { left. reflexivity. }
  exists e. split; [reflexivity|].
  assert (He : Event.twl_components e
               = [Fin 1; Num.round64 (167 # 1000);
                  Num.round64 (3333 # 10000)]
               /\ Event.twl_peak e = Fin (3 # 2)).
  { vm_compute in Hrow. injection Hrow as <-. split; reflexivity. }
  destruct He as [He Hpeak]. split; [exact He|].
  rewrite He in Hcomp. injection Hcomp as <- <- <-.
  rewrite Hpeak in Hsub.
  destruct residual as [|r|];
    [vm_compute in Hsub; discriminate| |vm_compute in Hsub; discriminate].
  destruct Hround as (y & Hy & Hbound & _).
  exists r, y. split; [exact Hsub|]. split; [exact Hy|].
  split; [exact Hbound|].
  vm_compute in Hsub. injection Hsub as <-.
  split; [vm_compute; discriminate|].
  vm_compute. discriminate.
Defined.

Lemma rowEvent_rejects_peak (ix : Columns) (line : string) :
  Num.gt' (rowPeak ix line) (Some Num.zero) = false ->
  rowEvent ix line = None.
Proof.
  intros H. unfold rowEvent. cbv zeta. unfold accepted.
  rewrite H, !andb_false_r. reflexivity.
Qed.

(** C5, as the code has it.  A data row becomes an event exactly when its
    date cell is present and not empty, its peak parses to a number that
    is not NaN and is greater than 0 (the literal Infinity passes), and
    tide, surge after the residual correction, and runup are all at least
    0.  The events of the parser are exactly those of such rows, in file
    order, and every other row is left out without an error: a row whose
    peak is not above 0, such as -1, yields no event whatever its other
    cells. *)
Theorem parseXtremEventCSV_acceptance :
  (forall (ix : Columns) (line : string) (e : Event.t),
     rowEvent ix line = Some e ->
     exists d peak sg,
       rowDate ix line = Some d /\ d <> EmptyString
       /\ rowPeak ix line = Some peak /\ Num.gt peak Num.zero = true
       /\ Num.ge (rowTide ix line) Num.zero = true
       /\ correctedSurge ix (rowPeak ix line) (rowTide ix line)
            (rowSurge ix line) (rowRunup ix line) = Some sg
       /\ Num.ge sg Num.zero = true
       /\ Num.ge (rowRunup ix line) Num.zero = true
       /\ Event.id e = d
       /\ Event.twl_peak e = peak
       /\ Event.twl_components e = [rowTide ix line; sg; rowRunup ix line])
  /\ (forall (ix : Columns) (line : string),
        (exists d peak sg,
           rowDate ix line = Some d /\ d <> EmptyString
           /\ rowPeak ix line = Some peak /\ Num.gt peak Num.zero = true
           /\ Num.ge (rowTide ix line) Num.zero = true
           /\ correctedSurge ix (rowPeak ix line) (rowTide ix line)
                (rowSurge ix line) (rowRunup ix line) = Some sg
           /\ Num.ge sg Num.zero = true
           /\ Num.ge (rowRunup ix line) Num.zero = true) ->
        exists e, rowEvent ix line = Some e)
  /\ (forall (csvText : string) (e : Event.t),
        In e (parseXtremEventCSV csvText) ->
        exists line,
          In line (drop 1 (xtremLines csvText))
          /\ rowEvent (xtremColumns csvText) line = Some e)
  /\ (forall csvText : string,
        (2 <= List.length (xtremLines csvText))%nat ->
        dateIdx (xtremColumns csvText) <> None ->
        twlIdx (xtremColumns csvText) <> None ->
        parseXtremEventCSV csvText
        = omap (rowEvent (xtremColumns csvText))
            (drop 1 (xtremLines csvText)))
  /\ (forall (ix : Columns) (line : string),
        Num.gt' (rowPeak ix line) (Some Num.zero) = false ->
        rowEvent ix line = None)
  /\ (forall (ix : Columns) (line : string),
        rowPeak ix line = Some (Fin (-1)) -> rowEvent ix line = None)
  /\ parseXtremEventCSV rejectedCSV = [].
Proof.
  split; [exact rowEvent_Some|].
  split; [exact rowEvent_accepts|].
  split; [exact In_parseXtremEventCSV|].
  split; [exact parseXtremEventCSV_omap|].
  split; [exact rowEvent_rejects_peak|].
  split.
  - intros ix line H. apply rowEvent_rejects_peak. rewrite H. reflexivity.
  - vm_compute. reflexivity.
Qed.

Lemma parseXtremEventCSV_acceptance_witness :
  rowPeak (xtremColumns rejectedCSV) "2021-02-01,-1,1.0,0.2,0.3"
  = Some (Fin (-1))
  /\ rowEvent (xtremColumns rejectedCSV) "2021-02-01,-1,1.0,0.2,0.3" = None.
Proof.
  split; [vm_compute; reflexivity|].
  destruct parseXtremEventCSV_acceptance as (_ & _ & _ & _ & _ & H & _).
  apply H. vm_compute. reflexivity.
Defined.

(** C5, as stated, fails: a row whose peak cell is the literal Infinity is
    emitted, and its peak is not a finite number. *)
Lemma parseXtremEventCSV_infinite_peak :
  exists e,
    parseXtremEventCSV infinitePeakCSV = [e]
    /\ Event.id e = "2022-03-01"%string
    /\ Event.twl_peak e = PosInf
    /\ Num.isFinite (Event.twl_peak e) = false.
Proof.
  eexists. split; [vm_compute; reflexivity|].
  repeat split.
Qed.

(** ** Sorting *)

Section Sorting.

Context {A : Type}.
Variable cmp : A -> A -> Z.

Lemma insertBy_perm (x : A) (l : list A) :
  Permutation (insertBy cmp x l) (x :: l).
Proof.
  induction l as [|y r IH]; simpl; [reflexivity|].
  destruct (cmp x y <=? 0); [reflexivity|].
  rewrite IH. apply perm_swap.
Qed.

Lemma sortBy_perm (l : list A) : Permutation (sortBy cmp l) l.
Proof.
  induction l as [|x r IH]; simpl; [reflexivity|].
  rewrite insertBy_perm. apply perm_skip, IH.
Qed.

Variable R : A -> A -> Prop.
Variable valid : A -> Prop.
Hypothesis cmp_le : forall x y, valid x -> valid y -> cmp x y <= 0 -> R x y.
Hypothesis cmp_gt : forall x y, valid x -> valid y -> 0 < cmp x y -> R y x.

Lemma insertBy_sorted (x : A) (l : list A) :
  valid x -> Forall valid l -> Sorted R l -> Sorted R (insertBy cmp x l).
Proof.
  intros Hx. induction l as [|y r IH]; intros Hv Hs; simpl.
  - constructor; constructor.
  - inversion Hv as [|? ? Hy Hr]; subst.
    inversion Hs as [|? ? Hsr Hhd]; subst.
    destruct (Z.leb_spec (cmp x y) 0) as [Hle|Hgt].
    + constructor; [exact Hs|]. constructor. apply cmp_le; assumption.
    + constructor; [apply IH; assumption|].
      destruct r as [|z r']; simpl.
      * constructor. apply cmp_gt; assumption.
      * destruct (cmp x z <=? 0).
        -- constructor. apply cmp_gt; assumption.
        -- inversion Hhd; subst. constructor. assumption.
Qed.

Lemma sortBy_sorted (l : list A) :
  Forall valid l -> Sorted R (sortBy cmp l).
Proof.
  induction l as [|x r IH]; intros Hv; simpl; [constructor|].
  inversion Hv; subst.
  apply insertBy_sorted; [assumption| |apply IH; assumption].
  eapply Permutation_Forall; [symmetry; apply sortBy_perm | assumption].
Qed.

End Sorting.

(** ** The module state *)

Lemma objectPrototypeKeys_spec (k : string) :
  In k objectPrototypeKeys <-> k ∈ objectPrototypeKeys.
Proof. symmetry. apply list_elem_of_In. Qed.

Lemma heapGrows_refl (w : World) : heapGrows w w.
Proof. intros r c H. exact H. Qed.

Lemma heapGrows_trans (w1 w2 w3 : World) :
  heapGrows w1 w2 -> heapGrows w2 w3 -> heapGrows w1 w3.
Proof. intros H12 H23 r c H. apply H23, H12, H. Qed.

Lemma heapGrows_same (w w' : World) : heap w' = heap w -> heapGrows w w'.
Proof. intros E r c H. rewrite E. exact H. Qed.

Lemma guarantee_refl (site : option string) (w : World) : guarantee site w w.
Proof. split; [apply heapGrows_refl|reflexivity]. Qed.

Lemma guarantee_trans (site : option string) (w1 w2 w3 : World) :
  guarantee site w1 w2 -> guarantee site w2 w3 -> guarantee site w1 w3.
Proof.
  intros [H1 K1] [H2 K2]. split; [eapply heapGrows_trans; eauto|].
  intros s Hs. rewrite K2, K1 by exact Hs. reflexivity.
Qed.

Lemma guarantee_same (site : option string) (w w' : World) :
  EVENT_DATA_CACHE w' = EVENT_DATA_CACHE w -> heap w' = heap w ->
  guarantee site w w'.
Proof.
  intros Hc Hh. split; [apply heapGrows_same, Hh|].
  intros s _. rewrite Hc. reflexivity.
Qed.

Lemma storeInvariant_frame (P : EventCatalog -> Prop) (w w' : World) :
  EVENT_DATA_CACHE w' = EVENT_DATA_CACHE w ->
  heap w' = heap w ->
  storeInvariant P w -> storeInvariant P w'.
Proof. unfold storeInvariant. intros -> ->. auto. Qed.

Lemma storeInvariant_initial (P : EventCatalog -> Prop) :
  storeInvariant P initialWorld.
Proof.
  split; [|constructor].
  intros siteId r H. simpl in H. rewrite lookup_empty in H. discriminate.
Qed.

Lemma storeInvariant_catalogAt (P : EventCatalog -> Prop) (w : World)
  (siteId : string) (r : ref) :
  storeInvariant P w ->
  EVENT_DATA_CACHE w !! siteId = Some r ->
  (siteId ∉ objectPrototypeKeys) /\ exists c, heap w !! r = Some c /\ P c.
Proof.
  intros [Hrefs Hheap] Hr. destruct (Hrefs _ _ Hr) as [Hlt Hplain].
  split; [exact Hplain|].
  destruct (lookup_lt_is_Some_2 (heap w) r Hlt) as [c Hc].
  exists c. split; [exact Hc|].
  rewrite Forall_forall in Hheap. apply Hheap.
  eapply list_elem_of_lookup_2, Hc.
Qed.

Lemma storeInvariant_heap (P : EventCatalog -> Prop) (w : World)
  (r : ref) (c : EventCatalog) :
  storeInvariant P w -> heap w !! r = Some c -> P c.
Proof.
  intros [_ Hheap] Hc. rewrite Forall_forall in Hheap. apply Hheap.
  eapply list_elem_of_lookup_2, Hc.
Qed.

(** What the cache gives in a state that satisfies the invariant. *)
Lemma cacheEntry_cases (P : EventCatalog -> Prop) (w : World)
  (siteId : string) :
  storeInvariant P w ->
  match cacheEntry w siteId with
  | Some entry => entryOk P siteId entry w
  | None =>
      EVENT_DATA_CACHE w !! siteId = None /\ (siteId ∉ objectPrototypeKeys)
  end.
Proof.
  intros Hinv. unfold cacheEntry.
  destruct (EVENT_DATA_CACHE w !! siteId) as [r|] eqn:Hr.
  - exact (storeInvariant_catalogAt _ _ _ _ Hinv Hr).
  - destruct (bool_decide (siteId ∈ objectPrototypeKeys)) eqn:Hk.
    + apply bool_decide_eq_true_1 in Hk. split; [reflexivity|exact Hk].
    + apply bool_decide_eq_false_1 in Hk. split; [reflexivity|exact Hk].
Qed.

Lemma cacheEntry_inherited (P : EventCatalog -> Prop) (w : World)
  (siteId : string) :
  storeInvariant P w -> siteId ∈ objectPrototypeKeys ->
  cacheEntry w siteId = Some (Inherited siteId).
Proof.
  intros Hinv Hk. unfold cacheEntry.
  destruct (EVENT_DATA_CACHE w !! siteId) as [r|] eqn:Hr.
  - destruct (storeInvariant_catalogAt _ _ _ _ Hinv Hr) as [Hplain _].
    contradiction.
  - rewrite bool_decide_eq_true_2 by exact Hk. reflexivity.
Qed.

Lemma cacheEntry_own (w : World) (siteId : string) (r : ref) :
  EVENT_DATA_CACHE w !! siteId = Some r ->
  cacheEntry w siteId = Some (Catalog r).
Proof. intros H. unfold cacheEntry. rewrite H. reflexivity. Qed.

Lemma cacheEntry_none (w : World) (siteId : string) :
  EVENT_DATA_CACHE w !! siteId = None -> siteId ∉ objectPrototypeKeys ->
  cacheEntry w siteId = None.
Proof.
  intros H Hk. unfold cacheEntry. rewrite H.
  rewrite bool_decide_eq_false_2 by exact Hk. reflexivity.
Qed.

Lemma storeInvariant_cacheCatalog (P : EventCatalog -> Prop)
  (siteId : string) (c : EventCatalog) (w : World) :
  siteId ∉ objectPrototypeKeys ->
  P c -> storeInvariant P w ->
  storeInvariant P (snd (cacheCatalog siteId c w))
  /\ guarantee (Some siteId) w (snd (cacheCatalog siteId c w))
  /\ entryOk P siteId (fst (cacheCatalog siteId c w))
       (snd (cacheCatalog siteId c w)).
Proof.
  intros Hplain Hc [Hrefs Hheap]. unfold cacheCatalog, storeInvariant.
  cbn [fst snd EVENT_DATA_CACHE heap]. split; [split|split; [split|]].
  - intros sid r Hr. rewrite length_app. simpl.
    destruct (decide (siteId = sid)) as [->|Hne].
    + rewrite lookup_insert_eq in Hr. injection Hr as <-.
      split; [lia|exact Hplain].
    + rewrite lookup_insert_ne in Hr by exact Hne.
      destruct (Hrefs _ _ Hr). split; [lia|assumption].
  - apply Forall_app. split; [exact Hheap|].
    constructor; [exact Hc|constructor].
  - intros r c' Hr. cbn [heap]. apply lookup_app_l_Some, Hr.
  - intros s Hs. cbn [EVENT_DATA_CACHE]. apply lookup_insert_ne. congruence.
  - cbn [entryOk heap]. split; [exact Hplain|]. exists c.
    split; [|exact Hc]. apply list_lookup_middle. reflexivity.
Qed.

Section NetworkProperties.

Variable network : nat -> string -> FetchOutcome.
Variable parseReleaseJSON : string -> option (option Release).
Variable dateValue : string -> option Z.

Abbreviation getReleaseInfo' := (getReleaseInfo network parseReleaseJSON).
Abbreviation getAssetDownloadUrl' :=
  (getAssetDownloadUrl network parseReleaseJSON).
Abbreviation getSiteEvents' :=
  (getSiteEvents network parseReleaseJSON dateValue).
Abbreviation fetchAndParseXtremEvents' :=
  (fetchAndParseXtremEvents network parseReleaseJSON dateValue).
Abbreviation parsedCatalog' := (parsedCatalog dateValue).
Abbreviation catalogOfOutcome' := (catalogOfOutcome dateValue).
Abbreviation step' := (step network parseReleaseJSON dateValue).
Abbreviation runs' := (runs network parseReleaseJSON dateValue).
Abbreviation reachable' := (reachable network parseReleaseJSON dateValue).

Lemma getReleaseInfo_store (w : World) :
  EVENT_DATA_CACHE (snd (getReleaseInfo' w)) = EVENT_DATA_CACHE w
  /\ heap (snd (getReleaseInfo' w)) = heap w
  /\ fetched (snd (getReleaseInfo' w))
     = fetched w ++ match RELEASE_INFO w with
                    | Some _ => []
                    | None => [releaseUrl]
                    end.
Proof.
  unfold getReleaseInfo.
  destruct (RELEASE_INFO w) as [info|].
  - simpl. rewrite app_nil_r. auto.
  - unfold bind, fetch, ret, setReleaseInfo.
    destruct (network _ _) as [|response]; simpl; [auto|].
    destruct (ok response); simpl; [|auto].
    destruct (releaseJSON parseReleaseJSON response); simpl; auto.
Qed.

Lemma getAssetDownloadUrl_store (filename : string) (w : World) :
  EVENT_DATA_CACHE (snd (getAssetDownloadUrl' filename w))
  = EVENT_DATA_CACHE w
  /\ heap (snd (getAssetDownloadUrl' filename w)) = heap w
  /\ fetched (snd (getAssetDownloadUrl' filename w))
     = fetched w ++ match RELEASE_INFO w with
                    | Some _ => []
                    | None => [releaseUrl]
                    end.
Proof.
  unfold getAssetDownloadUrl, bind.
  pose proof (getReleaseInfo_store w) as H.
  destruct (getReleaseInfo' w) as [info w1]. simpl in H.
  destruct info as [i|]; [|exact H].
  destruct (assets i) as [l|]; [|exact H].
  destruct (List.find _ l); exact H.
Qed.

(** The first call for a site: the asset is resolved; when a URL comes
    back it is fetched once and the catalog of the outcome is stored;
    otherwise the empty catalog is stored. *)
Lemma fetchAndParseXtremEvents_miss (siteId : string) (w : World) :
  cacheEntry w siteId = None ->
  fetchAndParseXtremEvents' siteId w
  = let finalUrl := fst (getAssetDownloadUrl' (xtremAssetName siteId) w) in
    let w1 := snd (getAssetDownloadUrl' (xtremAssetName siteId) w) in
    if truthy finalUrl then
      cacheCatalog siteId
        (catalogOfOutcome'
           (network (List.length (fetched w1)) (default EmptyString finalUrl)))
        (snd (fetch network (default EmptyString finalUrl) w1))
    else cacheCatalog siteId emptyCatalog w1.
Proof.
  intros Hmiss. unfold fetchAndParseXtremEvents. rewrite Hmiss.
  unfold bind at 1.
  destruct (getAssetDownloadUrl' (xtremAssetName siteId) w) as [finalUrl w1].
  cbn [fst snd]. destruct finalUrl as [url|]; [|reflexivity].
  destruct url as [|c r]; [reflexivity|].
  cbn [truthy negb default]. unfold bind, fetch. cbn [fst snd].
  destruct (network _ _) as [|response]; [reflexivity|].
  cbn [catalogOfOutcome]. destruct (ok response); [|reflexivity].
  cbn [negb]. destruct (body response); reflexivity.
Qed.

Lemma fetchAndParseXtremEvents_hit (siteId : string) (w : World)
  (entry : CacheEntry) :
  cacheEntry w siteId = Some entry ->
  fetchAndParseXtremEvents' siteId w = (entry, w).
Proof.
  intros Hhit. unfold fetchAndParseXtremEvents. rewrite Hhit. reflexivity.
Qed.

Lemma catalogOfOutcome_cases (P : EventCatalog -> Prop) (out : FetchOutcome) :
  P emptyCatalog -> (forall csvText, P (parsedCatalog' csvText)) ->
  P (catalogOfOutcome' out).
Proof.
  intros He Hp. destruct out as [|response]; simpl; [exact He|].
  destruct (ok response); [|exact He].
  destruct (body response); [apply Hp | exact He].
Qed.

(** *** A call run with nothing in between *)

Lemma finish_awaitTask {A B : Type} (p : Async.Task A) (k : A -> Async.t B)
  (w : World) :
  Async.finish (Async.awaitTask p k) w
  = Async.run (k (fst (Async.finish p w))) (snd (Async.finish p w)).
Proof.
  revert w. induction p as [a|next IH effect]; intros w; cbn.
  - reflexivity.
  - apply IH.
Qed.

Lemma run_await {A B : Type} (c : Async.t A) (k : A -> Async.t B)
  (w : World) :
  Async.run (Async.await c k) w
  = Async.run (k (fst (Async.run c w))) (snd (Async.run c w)).
Proof. unfold Async.run at 1, Async.await. cbn. apply finish_awaitTask. Qed.

Lemma run_fetch (url : string) (w : World) :
  Async.run (Call.fetch network url) w = fetch network url w.
Proof. reflexivity. Qed.

Lemma run_getReleaseInfo (w : World) :
  Async.run (Call.getReleaseInfo network parseReleaseJSON) w
  = getReleaseInfo' w.
Proof.
  unfold Async.run, Call.getReleaseInfo, getReleaseInfo.
  destruct (RELEASE_INFO w) as [info|]; [reflexivity|].
  fold (Async.run (out <~ Call.fetch network releaseUrl ;;
                   match out with
                   | Rejected => Async.ret None
                   | Resolved response =>
                       if negb (ok response) then Async.ret None
                       else
                         json <~ Call.read (releaseJSON parseReleaseJSON
                                              response) ;;
                         match json with
                         | Some v =>
                             fun w' =>
                               (Async.Settled v, snd (setReleaseInfo v w'))
                         | None => Async.ret None
                         end
                   end) w).
  rewrite run_await, run_fetch. unfold bind, fetch. cbn [fst snd].
  destruct (network _ _) as [|response]; [reflexivity|].
  destruct (ok response); cbn [negb]; [|reflexivity].
  rewrite run_await. cbn.
  destruct (releaseJSON parseReleaseJSON response); reflexivity.
Qed.

Lemma run_getAssetDownloadUrl (filename : string) (w : World) :
  Async.run (Call.getAssetDownloadUrl network parseReleaseJSON filename) w
  = getAssetDownloadUrl' filename w.
Proof.
  unfold Call.getAssetDownloadUrl, getAssetDownloadUrl, bind.
  rewrite run_await, run_getReleaseInfo.
  destruct (getReleaseInfo' w) as [info w1]. cbn [fst snd].
  destruct info as [i|]; [|reflexivity].
  destruct (assets i) as [l|]; [|reflexivity].
  destruct (List.find _ l); reflexivity.
Qed.

Lemma run_fetchAndParseXtremEvents (siteId : string) (w : World) :
  Async.run
    (Call.fetchAndParseXtremEvents network parseReleaseJSON dateValue siteId) w
  = fetchAndParseXtremEvents' siteId w.
Proof.
  unfold Async.run, Call.fetchAndParseXtremEvents, fetchAndParseXtremEvents.
  destruct (cacheEntry w siteId) as [entry|]; [reflexivity|]. cbv zeta.
  match goal with
  | |- Async.finish (fst (?c w)) (snd (?c w)) = _ => fold (Async.run c w)
  end.
  rewrite run_await, run_getAssetDownloadUrl. unfold bind at 1.
  destruct (getAssetDownloadUrl' (xtremAssetName siteId) w) as [finalUrl w1].
  cbn [fst snd]. destruct finalUrl as [url|]; [|reflexivity].
  destruct (negb (truthy (Some url))); [reflexivity|].
  rewrite run_await, run_fetch. unfold bind, fetch. cbn [fst snd].
  destruct (network _ _) as [|response]; [reflexivity|].
  destruct (negb (ok response)); [reflexivity|].
  rewrite run_await. cbn.
  destruct (body response); reflexivity.
Qed.

(** A call for a name the cache owns returns at once. *)
Lemma getSiteEvents_hit_at_once (siteId : string) (w : World)
  (entry : CacheEntry) :
  cacheEntry w siteId = Some entry ->
  Call.getSiteEvents network parseReleaseJSON dateValue siteId w
  = (Async.Settled entry, w).
Proof.
  intros H. unfold Call.getSiteEvents, Call.fetchAndParseXtremEvents.
  rewrite H. reflexivity.
Qed.

(** The event loop resuming one call until it has returned. *)
Lemma runs_finish (siteId : string) (q : Async.Task CacheEntry)
  (js : list Job) (w : World) :
  runs' {| world := w; jobs := js ++ [EventsJob siteId q] |}
    {| world := snd (Async.finish q w);
       jobs := js ++ [EventsJob siteId
                        (Async.Settled (fst (Async.finish q w)))] |}.
Proof.
  revert w. induction q as [a|next IH effect]; intros w.
  - cbn. apply rtc_refl.
  - cbn [Async.finish]. eapply rtc_l; [|apply IH].
    assert (E : resume (List.length js)
                  {| world := w;
                     jobs := js ++ [EventsJob siteId
                                      (Async.Pending next effect)] |}
                = {| world := effect w;
                     jobs := js ++ [EventsJob siteId (next w)] |}).
    { unfold resume. cbn [jobs world].
      rewrite list_lookup_middle by reflexivity. cbn [effectOf resumed].
      f_equal. rewrite insert_app_r_alt by lia.
      rewrite Nat.sub_diag. reflexivity. }
    rewrite <- E. apply step_resume.
Qed.

(** A catalog request started and run to its return is a run of the
    page. *)
Lemma runs_getSiteEvents (siteId : string) (p : Process) :
  runs' p
    {| world := snd (getSiteEvents' siteId (world p));
       jobs := jobs p
               ++ [EventsJob siteId
                     (Async.Settled (fst (getSiteEvents' siteId (world p))))]
    |}.
Proof.
  eapply rtc_l; [apply (step_getSiteEvents _ _ _ _ siteId)|].
  unfold start, startEvents. cbn [world jobs fst snd].
  unfold getSiteEvents. rewrite <- run_fetchAndParseXtremEvents.
  apply runs_finish.
Qed.

Lemma runs_resume_iter (i n : nat) (p : Process) :
  runs' p (Nat.iter n (resume i) p).
Proof.
  induction n as [|n IH]; [apply rtc_refl|].
  cbn [Nat.iter]. eapply rtc_r; [exact IH|apply step_resume].
Qed.

(** *** The calls keep the invariant however they are interleaved *)

Section Invariant.

Variable P : EventCatalog -> Prop.
Hypothesis P_empty : P emptyCatalog.
Hypothesis P_parsed : forall csvText, P (parsedCatalog' csvText).

Abbreviation I := (storeInvariant P).

Section Guarantee.

Variable site : option string.

Abbreviation G := (guarantee site).

Lemma safeCall_ret {A : Type} (Q : A -> World -> Prop) (a : A) :
  (forall w, I w -> Q a w) -> safeCall I G Q (Async.ret a).
Proof.
  intros HQ w Hw. cbn. split; [exact Hw|]. split; [apply guarantee_refl|].
  split; [constructor|]. intros a' [= <-]. apply HQ, Hw.
Qed.

Lemma safeTask_suspend {A : Type} (Q : A -> World -> Prop) (c : Async.t A) :
  safeCall I G Q c -> safeTask I G Q (Async.suspend c).
Proof.
  intros Hc. unfold Async.suspend. constructor.
  - intros w Hw. destruct (Hc w Hw) as (H1 & H2 & _). auto.
  - intros w Hw. destruct (Hc w Hw) as (_ & _ & H3 & _). exact H3.
  - intros w a Hw Ha. destruct (Hc w Hw) as (_ & _ & _ & H4). apply H4, Ha.
Qed.

Lemma awaitTask_pending {A B : Type} (p : Async.Task A) (k : A -> Async.t B) :
  forall b, Async.awaitTask p k <> Async.Settled b.
Proof. intros b. destruct p; discriminate. Qed.

Lemma safeTask_await {A B : Type} (QA : A -> World -> Prop)
  (Q : B -> World -> Prop) (p : Async.Task A) (k : A -> Async.t B) :
  safeTask I G QA p ->
  (forall a, safeCall I G Q (k a)) ->
  safeTask I G Q (Async.awaitTask p k).
Proof.
  intros Hp Hk. induction Hp as [a|next effect He Hn IH Hq].
  - cbn. apply safeTask_suspend, Hk.
  - cbn. constructor; [exact He| |].
    + intros w Hw. apply IH, Hw.
    + intros w b Hw Hb. exfalso. eapply awaitTask_pending, Hb.
Qed.

Lemma safeCall_await {A B : Type} (QA : A -> World -> Prop)
  (Q : B -> World -> Prop) (c : Async.t A) (k : A -> Async.t B) :
  safeCall I G QA c ->
  (forall a, safeCall I G Q (k a)) ->
  safeCall I G Q (Async.await c k).
Proof.
  intros Hc Hk w Hw. unfold Async.await. cbn [fst snd].
  destruct (Hc w Hw) as (H1 & H2 & H3 & _).
  split; [exact H1|]. split; [exact H2|].
  split; [eapply safeTask_await; eauto|].
  intros b Hb. exfalso. eapply awaitTask_pending, Hb.
Qed.

Lemma safeCall_fetch (url : string) :
  safeCall I G (fun _ _ => True) (Call.fetch network url).
Proof.
  intros w Hw. unfold Call.fetch. cbn [fst snd].
  split; [eapply storeInvariant_frame; [| |exact Hw]; reflexivity|].
  split; [apply guarantee_same; reflexivity|].
  split; [|discriminate].
  apply safeTask_suspend, safeCall_ret. auto.
Qed.

Lemma safeCall_read {A : Type} (a : A) :
  safeCall I G (fun _ _ => True) (Call.read a).
Proof.
  intros w Hw. unfold Call.read. cbn [fst snd].
  split; [exact Hw|]. split; [apply guarantee_refl|].
  split; [|discriminate].
  apply safeTask_suspend, safeCall_ret. auto.
Qed.

Lemma safeCall_getReleaseInfo :
  safeCall I G (fun _ _ => True)
    (Call.getReleaseInfo network parseReleaseJSON).
Proof.
  intros w Hw. unfold Call.getReleaseInfo.
  destruct (RELEASE_INFO w) as [info|].
  - apply (safeCall_ret (fun _ _ => True)); auto.
  - revert w Hw. apply (safeCall_await (fun _ _ => True)).
    + apply safeCall_fetch.
    + intros [|response]; [apply safeCall_ret; auto|].
      destruct (ok response); cbn [negb]; [|apply safeCall_ret; auto].
      apply (safeCall_await (fun _ _ => True)); [apply safeCall_read|].
      intros [v|]; [|apply safeCall_ret; auto].
      intros w Hw. cbn [fst snd setReleaseInfo].
      split; [eapply storeInvariant_frame; [| |exact Hw]; reflexivity|].
      split; [apply guarantee_same; reflexivity|].
      split; [constructor|auto].
Qed.

Lemma safeCall_getAssetDownloadUrl (filename : string) :
  safeCall I G (fun _ _ => True)
    (Call.getAssetDownloadUrl network parseReleaseJSON filename).
Proof.
  unfold Call.getAssetDownloadUrl.
  apply (safeCall_await (fun _ _ => True));
    [apply safeCall_getReleaseInfo|].
  intros [i|]; [|apply safeCall_ret; auto].
  destruct (assets i) as [l|]; [|apply safeCall_ret; auto].
  destruct (List.find _ l); apply safeCall_ret; auto.
Qed.

(** A safe call that runs to its return with nothing in between. *)
Lemma safeTask_finish {A : Type} (Q : A -> World -> Prop)
  (p : Async.Task A) :
  safeTask I G Q p ->
  forall w,
    I w -> (forall a, p = Async.Settled a -> Q a w) ->
    I (snd (Async.finish p w)) /\ G w (snd (Async.finish p w))
    /\ Q (fst (Async.finish p w)) (snd (Async.finish p w)).
Proof.
  induction 1 as [a|next effect He Hn IH Hq]; intros w Hw Hset.
  - cbn. split; [exact Hw|]. split; [apply guarantee_refl|].
    apply Hset. reflexivity.
  - cbn [Async.finish]. destruct (He w Hw) as [He1 He2].
    destruct (IH w Hw (effect w) He1) as (H1 & H2 & H3).
    { intros a Ha. eapply Hq; eauto. }
    split; [exact H1|]. split; [|exact H3].
    eapply guarantee_trans; eauto.
Qed.

Lemma safeCall_run {A : Type} (Q : A -> World -> Prop) (c : Async.t A)
  (w : World) :
  safeCall I G Q c -> I w ->
  I (snd (Async.run c w)) /\ G w (snd (Async.run c w))
  /\ Q (fst (Async.run c w)) (snd (Async.run c w)).
Proof.
  intros Hc Hw. unfold Async.run.
  destruct (Hc w Hw) as (H1 & H2 & H3 & H4).
  destruct (safeTask_finish Q _ H3 _ H1 H4) as (H5 & H6 & H7).
  split; [exact H5|]. split; [|exact H7].
  eapply guarantee_trans; eauto.
Qed.

End Guarantee.

Lemma safeCall_cacheCatalog (siteId : string) (c : EventCatalog) :
  siteId ∉ objectPrototypeKeys -> P c ->
  safeCall I (guarantee (Some siteId)) (entryOk P siteId)
    (Call.cacheCatalog siteId c).
Proof.
  intros Hplain Hc w Hw. unfold Call.cacheCatalog. cbn [fst snd].
  destruct (storeInvariant_cacheCatalog P siteId c w Hplain Hc Hw)
    as (H1 & H2 & H3).
  split; [exact H1|]. split; [exact H2|]. split; [constructor|].
  intros a [= <-]. exact H3.
Qed.

Lemma safeCall_fetchAndParseXtremEvents (siteId : string) :
  safeCall I (guarantee (Some siteId)) (entryOk P siteId)
    (Call.fetchAndParseXtremEvents network parseReleaseJSON dateValue siteId).
Proof.
  intros w Hw. unfold Call.fetchAndParseXtremEvents.
  pose proof (cacheEntry_cases P w siteId Hw) as Hcase.
  destruct (cacheEntry w siteId) as [entry|].
  - cbn. split; [exact Hw|]. split; [apply guarantee_refl|].
    split; [constructor|]. intros a [= <-]. exact Hcase.
  - destruct Hcase as [_ Hplain]. revert w Hw. cbv zeta.
    apply (safeCall_await _ (fun _ _ => True));
      [apply safeCall_getAssetDownloadUrl|].
    intros [url|]; [|apply safeCall_cacheCatalog; assumption].
    destruct (negb (truthy (Some url)));
      [apply safeCall_cacheCatalog; assumption|].
    apply (safeCall_await _ (fun _ _ => True)); [apply safeCall_fetch|].
    intros [|response]; [apply safeCall_cacheCatalog; assumption|].
    destruct (negb (ok response));
      [apply safeCall_cacheCatalog; assumption|].
    apply (safeCall_await _ (fun _ _ => True)); [apply safeCall_read|].
    intros [csvText|]; apply safeCall_cacheCatalog; auto.
Qed.

(** *** The invariant of a process *)

Lemma entryOk_grows (siteId : string) (entry : CacheEntry) (w w' : World) :
  heapGrows w w' -> entryOk P siteId entry w -> entryOk P siteId entry w'.
Proof.
  intros Hg. destruct entry as [r|key]; cbn; [|auto].
  intros [Hplain (c & Hc & Hp)]. split; [exact Hplain|].
  exists c. split; [apply Hg, Hc|exact Hp].
Qed.

Lemma jobOk_grows (j : Job) (w w' : World) :
  heapGrows w w' -> jobOk P w j -> jobOk P w' j.
Proof.
  intros Hg. destruct j as [siteId p|filename p|url p]; cbn; [|auto|auto].
  intros [Hs Hv]. split; [exact Hs|].
  intros entry He. eapply entryOk_grows; eauto.
Qed.

Lemma processOk_start (j : World -> Job * World) (p : Process) :
  (forall w, I w ->
     I (snd (j w)) /\ heapGrows w (snd (j w))
     /\ jobOk P (snd (j w)) (fst (j w))) ->
  processOk P p -> processOk P (start j p).
Proof.
  intros Hj [Hw Hjobs]. destruct (Hj _ Hw) as (H1 & H2 & H3).
  split; [exact H1|]. cbn [jobs world start].
  apply Forall_app. split.
  - eapply Forall_impl; [exact Hjobs|].
    intros j' Hj'. eapply jobOk_grows; eauto.
  - constructor; [exact H3|constructor].
Qed.

Lemma jobOk_resumed (j : Job) (w : World) :
  I w -> jobOk P w j ->
  I (effectOf j w) /\ heapGrows w (effectOf j w)
  /\ jobOk P (effectOf j w) (resumed j w).
Proof.
  intros Hw. destruct j as [siteId p|filename p|url p]; cbn [jobOk].
  - intros [Hs Hv]. destruct p as [entry|next effect]; cbn.
    + split; [exact Hw|]. split; [apply heapGrows_refl|]. auto.
    + inversion Hs as [|? ? He Hn Hq]; subst.
      destruct (He w Hw) as [He1 [He2 _]].
      split; [exact He1|]. split; [exact He2|].
      split; [apply Hn, Hw|]. intros entry Hentry. eapply Hq; eauto.
  - intros Hs. destruct p as [v|next effect]; cbn.
    + split; [exact Hw|]. split; [apply heapGrows_refl|]. constructor.
    + inversion Hs as [|? ? He Hn Hq]; subst.
      destruct (He w Hw) as [He1 [He2 _]].
      split; [exact He1|]. split; [exact He2|]. apply Hn, Hw.
  - intros Hs. destruct p as [v|next effect]; cbn.
    + split; [exact Hw|]. split; [apply heapGrows_refl|]. constructor.
    + inversion Hs as [|? ? He Hn Hq]; subst.
      destruct (He w Hw) as [He1 [He2 _]].
      split; [exact He1|]. split; [exact He2|]. apply Hn, Hw.
Qed.

Lemma processOk_resume (i : nat) (p : Process) :
  processOk P p -> processOk P (resume i p).
Proof.
  intros [Hw Hjobs]. unfold resume.
  destruct (jobs p !! i) as [j|] eqn:Hj; [|split; assumption].
  assert (Hjok : jobOk P (world p) j).
  { rewrite Forall_forall in Hjobs. apply Hjobs.
    eapply list_elem_of_lookup_2, Hj. }
  destruct (jobOk_resumed j (world p) Hw Hjok) as (H1 & H2 & H3).
  split; [exact H1|]. cbn [jobs world].
  apply Forall_insert; [|exact H3].
  eapply Forall_impl; [exact Hjobs|].
  intros j' Hj'. eapply jobOk_grows; eauto.
Qed.

Lemma processOk_step (p p' : Process) :
  step' p p' -> processOk P p -> processOk P p'.
Proof.
  intros Hstep Hp. destruct Hstep as [siteId|filename|url|i].
  - apply processOk_start; [|exact Hp]. intros w Hw.
    destruct (safeCall_fetchAndParseXtremEvents siteId w Hw)
      as (H1 & [H2 _] & H3 & H4).
    split; [exact H1|]. split; [exact H2|]. split; [exact H3|exact H4].
  - apply processOk_start; [|exact Hp]. intros w Hw.
    destruct (safeCall_getAssetDownloadUrl None filename w Hw)
      as (H1 & [H2 _] & H3 & _).
    split; [exact H1|]. split; [exact H2|]. exact H3.
  - apply processOk_start; [|exact Hp]. intros w Hw.
    destruct (safeCall_fetch None url w Hw) as (H1 & [H2 _] & H3 & _).
    split; [exact H1|]. split; [exact H2|]. exact H3.
  - apply processOk_resume, Hp.
Qed.

Lemma processOk_runs (p p' : Process) :
  runs' p p' -> processOk P p -> processOk P p'.
Proof.
  intros Hruns. induction Hruns as [|p1 p2 p3 Hstep _ IH]; [auto|].
  intros Hp. apply IH. eapply processOk_step; eauto.
Qed.

Lemma processOk_initial : processOk P initialProcess.
Proof. split; [apply storeInvariant_initial|constructor]. Qed.

End Invariant.

Lemma processOk_reachable (P : EventCatalog -> Prop) (p : Process) :
  P emptyCatalog -> (forall csvText, P (parsedCatalog' csvText)) ->
  runs' initialProcess p -> processOk P p.
Proof.
  intros He Hp Hruns.
  eapply processOk_runs; eauto using processOk_initial.
Qed.

(** *** An entry stays while no request for its site is under way *)

Lemma pendingFor_settled (siteId s : string) (entry : CacheEntry) :
  pendingFor siteId (EventsJob s (Async.Settled entry)) = false.
Proof. reflexivity. Qed.

Lemma pendingFor_other (siteId s : string) (q : Async.Task CacheEntry) :
  s <> siteId -> pendingFor siteId (EventsJob s q) = false.
Proof.
  intros Hne. destruct q; [reflexivity|]. cbn.
  apply String.eqb_neq, Hne.
Qed.

Lemma settled_entry_start (siteId : string) (r : ref) (p : Process)
  (j : World -> Job * World) (site : option string) :
  (guarantee site (world p) (snd (j (world p)))) ->
  site <> Some siteId ->
  pendingFor siteId (fst (j (world p))) = false ->
  EVENT_DATA_CACHE (world p) !! siteId = Some r -> settledFor siteId p ->
  EVENT_DATA_CACHE (world (start j p)) !! siteId = Some r
  /\ settledFor siteId (start j p).
Proof.
  intros [_ Hkeep] Hsite Hj Hr Hs. split.
  - cbn [world start]. rewrite Hkeep by exact Hsite. exact Hr.
  - unfold settledFor. cbn [jobs start]. apply Forall_app.
    split; [exact Hs|]. constructor; [exact Hj|constructor].
Qed.

Lemma settled_entry_step (siteId : string) (r : ref) (p p' : Process) :
  processOk (fun _ => True) p -> step' p p' ->
  EVENT_DATA_CACHE (world p) !! siteId = Some r -> settledFor siteId p ->
  EVENT_DATA_CACHE (world p') !! siteId = Some r /\ settledFor siteId p'.
Proof.
  intros [Hw Hjobs] Hstep Hr Hs.
  destruct Hstep as [s|filename|url|i].
  - destruct (decide (s = siteId)) as [->|Hne].
    + unfold start, startEvents. cbn [world jobs].
      rewrite (getSiteEvents_hit_at_once siteId (world p) (Catalog r))
        by (apply cacheEntry_own, Hr).
      cbn [fst snd]. split; [exact Hr|].
      apply Forall_app. split; [exact Hs|].
      constructor; [reflexivity|constructor].
    + destruct (safeCall_fetchAndParseXtremEvents (fun _ => True) I
                  (fun _ => I) s (world p) Hw) as (_ & Hg & _).
      apply (settled_entry_start siteId r p _ (Some s)); auto.
      * congruence.
      * apply pendingFor_other, Hne.
  - destruct (safeCall_getAssetDownloadUrl (fun _ => True) None filename
                (world p) Hw) as (_ & Hg & _).
    apply (settled_entry_start siteId r p _ None); auto; discriminate.
  - destruct (safeCall_fetch (fun _ => True) None url (world p) Hw)
      as (_ & Hg & _).
    apply (settled_entry_start siteId r p _ None); auto; discriminate.
  - unfold resume. destruct (jobs p !! i) as [j|] eqn:Hj; [|auto].
    assert (Hin : j ∈ jobs p) by (eapply list_elem_of_lookup_2, Hj).
    assert (Hjok : jobOk (fun _ => True) (world p) j).
    { rewrite Forall_forall in Hjobs. apply Hjobs, Hin. }
    assert (Hjs : pendingFor siteId j = false).
    { unfold settledFor in Hs. rewrite Forall_forall in Hs. apply Hs, Hin. }
    cbn [world jobs].
    assert (Hgoal : EVENT_DATA_CACHE (effectOf j (world p)) !! siteId
                    = Some r
                    /\ pendingFor siteId (resumed j (world p)) = false).
    { destruct j as [s q|filename q|url q]; cbn [jobOk] in Hjok.
      - destruct q as [entry|next effect]; [split; assumption|].
        cbn in Hjs. apply String.eqb_neq in Hjs.
        destruct Hjok as [Hsafe _].
        inversion Hsafe as [|? ? He Hn Hq]; subst.
        destruct (He _ Hw) as [_ [_ Hkeep]]. cbn [effectOf resumed]. split.
        + rewrite Hkeep by congruence. exact Hr.
        + apply pendingFor_other, Hjs.
      - destruct q as [v|next effect]; [split; [exact Hr|reflexivity]|].
        inversion Hjok as [|? ? He Hn Hq]; subst.
        destruct (He _ Hw) as [_ [_ Hkeep]]. cbn [effectOf resumed]. split.
        + rewrite Hkeep by discriminate. exact Hr.
        + destruct (next (world p)); reflexivity.
      - destruct q as [v|next effect]; [split; [exact Hr|reflexivity]|].
        inversion Hjok as [|? ? He Hn Hq]; subst.
        destruct (He _ Hw) as [_ [_ Hkeep]]. cbn [effectOf resumed]. split.
        + rewrite Hkeep by discriminate. exact Hr.
        + destruct (next (world p)); reflexivity. }
    destruct Hgoal as [G1 G2]. split; [exact G1|].
    apply Forall_insert; assumption.
Qed.

Lemma heapGrows_step (p p' : Process) :
  processOk (fun _ => True) p -> step' p p' ->
  heapGrows (world p) (world p').
Proof.
  intros [Hw Hjobs] Hstep. destruct Hstep as [s|filename|url|i].
  - destruct (safeCall_fetchAndParseXtremEvents (fun _ => True) I
                (fun _ => I) s (world p) Hw) as (_ & [Hg _] & _).
    exact Hg.
  - destruct (safeCall_getAssetDownloadUrl (fun _ => True) None filename
                (world p) Hw) as (_ & [Hg _] & _).
    exact Hg.
  - destruct (safeCall_fetch (fun _ => True) None url (world p) Hw)
      as (_ & [Hg _] & _).
    exact Hg.
  - unfold resume. destruct (jobs p !! i) as [j|] eqn:Hj;
      [|apply heapGrows_refl].
    assert (Hjok : jobOk (fun _ => True) (world p) j).
    { rewrite Forall_forall in Hjobs. apply Hjobs.
      eapply list_elem_of_lookup_2, Hj. }
    apply (jobOk_resumed (fun _ => True) j (world p) Hw Hjok).
Qed.

Lemma settled_entry_runs (siteId : string) (r : ref) (p p' : Process) :
  runs' p p' ->
  processOk (fun _ => True) p ->
  EVENT_DATA_CACHE (world p) !! siteId = Some r -> settledFor siteId p ->
  EVENT_DATA_CACHE (world p') !! siteId = Some r
  /\ heapGrows (world p) (world p')
  /\ settledFor siteId p'.
Proof.
  intros Hruns. induction Hruns as [p|p1 p2 p3 Hstep _ IH].
  - intros _ Hr Hs. split; [exact Hr|]. split; [apply heapGrows_refl|exact Hs].
  - intros Hok Hr Hs.
    destruct (settled_entry_step siteId r p1 p2 Hok Hstep Hr Hs) as [Hr2 Hs2].
    pose proof (heapGrows_step p1 p2 Hok Hstep) as Hg.
    destruct (IH (processOk_step (fun _ => True) I (fun _ => I) _ _ Hstep Hok)
                Hr2 Hs2) as (Hr3 & Hg3 & Hs3).
    split; [exact Hr3|]. split; [|exact Hs3].
    eapply heapGrows_trans; eauto.
Qed.

(** The catalog a first call stores. *)
Lemma getSiteEvents_miss (siteId : string) (w : World) :
  cacheEntry w siteId = None ->
  let finalUrl := fst (getAssetDownloadUrl' (xtremAssetName siteId) w) in
  let w1 := snd (getAssetDownloadUrl' (xtremAssetName siteId) w) in
  let c := if truthy finalUrl then
             catalogOfOutcome'
               (network (List.length (fetched w1))
                  (default EmptyString finalUrl))
           else emptyCatalog in
  fst (getSiteEvents' siteId w) = Catalog (List.length (heap w))
  /\ EVENT_DATA_CACHE (snd (getSiteEvents' siteId w))
     = <[siteId := List.length (heap w)]> (EVENT_DATA_CACHE w)
  /\ heap (snd (getSiteEvents' siteId w)) = heap w ++ [c]
  /\ fetched (snd (getSiteEvents' siteId w))
     = fetched w1
       ++ (if truthy finalUrl then [default EmptyString finalUrl] else []).
Proof.
  intros Hmiss. cbv zeta. unfold getSiteEvents.
  rewrite (fetchAndParseXtremEvents_miss _ _ Hmiss). cbv zeta.
  destruct (getAssetDownloadUrl_store (xtremAssetName siteId) w)
    as (Hc1 & Hh1 & _).
  destruct (truthy _); unfold cacheCatalog, fetch;
    cbn [fst snd EVENT_DATA_CACHE heap fetched];
    rewrite Hc1, Hh1, ?app_nil_r; auto.
Qed.

(** C7, as the code has it.  [getSiteEvents] is memoized per [siteId],
    for a [siteId] that is not the name of a member the cache object
    inherits.  The first call for such a site resolves the asset; when a
    URL comes back it fetches it once and stores the parsed, sorted
    catalog; otherwise, and whenever the fetch is rejected, answers with a
    non-success status or its body cannot be read, it stores the empty
    catalog.  It returns the reference it stored.  A call that finds an
    entry of the cache returns it at once and leaves the state as it is,
    so it issues no fetch.  The entry stays the same object through every
    run of the page, whatever calls are started and however they are
    interleaved, as long as no request for the same site that found the
    cache empty is still under way; and a first call that runs with
    nothing in between leaves no such request behind.  Two calls in a row
    thus return the same reference and fetch the catalog asset at most
    once: once when the asset resolves, not at all when it does not; the
    resolution itself fetches the release metadata when the process does
    not hold it yet. *)
Theorem getSiteEvents_memoized (siteId : string) :
  (forall w : World,
     cacheEntry w siteId = None ->
     let finalUrl := fst (getAssetDownloadUrl' (xtremAssetName siteId) w) in
     let w1 := snd (getAssetDownloadUrl' (xtremAssetName siteId) w) in
     let outcome :=
       network (List.length (fetched w1)) (default EmptyString finalUrl) in
     let w2 := snd (getSiteEvents' siteId w) in
     exists (r : ref) (c : EventCatalog),
       fst (getSiteEvents' siteId w) = Catalog r
       /\ Async.run
            (Call.getSiteEvents network parseReleaseJSON dateValue siteId) w
          = getSiteEvents' siteId w
       /\ EVENT_DATA_CACHE w2 !! siteId = Some r
       /\ heap w2 !! r = Some c
       /\ heap w !! r = None
       /\ fetched w1
          = fetched w ++ match RELEASE_INFO w with
                         | Some _ => []
                         | None => [releaseUrl]
                         end
       /\ fetched w2
          = fetched w1
            ++ (if truthy finalUrl then [default EmptyString finalUrl]
                else [])
       /\ (truthy finalUrl = false -> c = emptyCatalog)
       /\ (truthy finalUrl = true -> outcome = Rejected -> c = emptyCatalog)
       /\ (forall response,
             truthy finalUrl = true -> outcome = Resolved response ->
             ok response = false -> c = emptyCatalog)
       /\ (forall response csvText,
             truthy finalUrl = true -> outcome = Resolved response ->
             ok response = true -> body response = Some csvText ->
             c = parsedCatalog' csvText)
       /\ (forall response,
             truthy finalUrl = true -> outcome = Resolved response ->
             body response = None -> c = emptyCatalog))
  /\ (forall (w : World) (r : ref),
        EVENT_DATA_CACHE w !! siteId = Some r ->
        Call.getSiteEvents network parseReleaseJSON dateValue siteId w
        = (Async.Settled (Catalog r), w)
        /\ getSiteEvents' siteId w = (Catalog r, w))
  /\ (forall (p p' : Process) (r : ref),
        runs' initialProcess p ->
        EVENT_DATA_CACHE (world p) !! siteId = Some r ->
        settledFor siteId p ->
        runs' p p' ->
        EVENT_DATA_CACHE (world p') !! siteId = Some r
        /\ heap (world p') !! r = heap (world p) !! r
        /\ settledFor siteId p')
  /\ (forall p : Process,
        settledFor siteId p ->
        let p1 :=
          {| world := snd (getSiteEvents' siteId (world p));
             jobs := jobs p
                     ++ [EventsJob siteId
                           (Async.Settled
                              (fst (getSiteEvents' siteId (world p))))] |} in
        runs' p p1 /\ settledFor siteId p1).
Proof.
  split; [|split; [|split]].
  - intros w Hmiss. cbv zeta.
    destruct (getSiteEvents_miss _ _ Hmiss) as (Hr & Hcache & Hheap & Hf).
    cbv zeta in Hheap, Hf.
    eexists _, _. split; [exact Hr|].
    split; [apply run_fetchAndParseXtremEvents|].
    split; [rewrite Hcache; apply lookup_insert_eq|].
    split; [rewrite Hheap; apply list_lookup_middle; reflexivity|].
    split; [apply lookup_ge_None_2; lia|].
    split; [apply getAssetDownloadUrl_store|].
    split; [exact Hf|].
    split; [intros ->; reflexivity|].
    split; [intros -> ->; reflexivity|].
    split; [intros response -> -> Hok; simpl; rewrite Hok; reflexivity|].
    split; [intros response csvText -> -> Hok Hb; simpl;
            rewrite Hok, Hb; reflexivity|].
    intros response -> -> Hb; simpl; rewrite Hb;
      destruct (ok response); reflexivity.
  - intros w r Hr. apply cacheEntry_own in Hr. split.
    + apply getSiteEvents_hit_at_once, Hr.
    + apply fetchAndParseXtremEvents_hit, Hr.
  - intros p p' r Hreach Hr Hs Hruns.
    assert (Hok : processOk (fun _ => True) p)
      by (apply processOk_reachable; auto).
    destruct (settled_entry_runs siteId r p p' Hruns Hok Hr Hs)
      as (Hr' & Hg & Hs').
    split; [exact Hr'|]. split; [|exact Hs'].
    destruct (storeInvariant_catalogAt _ _ _ _ (proj1 Hok) Hr)
      as [_ (c & Hc & _)].
    rewrite Hc. apply Hg, Hc.
  - intros p Hs. cbv zeta. split; [apply runs_getSiteEvents|].
    unfold settledFor. cbn [jobs]. apply Forall_app.
    split; [exact Hs|]. constructor; [reflexivity|constructor].
Qed.

(** C10.  In every state a run of the page can reach, however its calls
    are interleaved, every catalog object has [count] equal to the length
    of [events]: the catalog stored in [EVENT_DATA_CACHE] under any name,
    the catalog any call of [getSiteEvents] has returned, and the one a
    further call returns.  A parsed catalog is built with
    [count = events.length], and the empty one has count 0 and no
    events. *)
Theorem cached_catalog_count (p : Process) :
  runs' initialProcess p ->
  (forall (siteId : string) (c : EventCatalog),
     catalogAt (world p) siteId = Some c ->
     count c = List.length (events c))
  /\ (forall (siteId : string) (r : ref),
        EVENT_DATA_CACHE (world p) !! siteId = Some r ->
        is_Some (heap (world p) !! r))
  /\ Forall (fun c => count c = List.length (events c)) (heap (world p))
  /\ (forall (siteId : string) (r : ref),
        In (EventsJob siteId (Async.Settled (Catalog r))) (jobs p) ->
        exists c,
          heap (world p) !! r = Some c
          /\ count c = List.length (events c))
  /\ (forall (siteId : string) (r : ref),
        fst (getSiteEvents' siteId (world p)) = Catalog r ->
        exists c,
          heap (snd (getSiteEvents' siteId (world p))) !! r = Some c
          /\ count c = List.length (events c)).
Proof.
  intros Hreach.
  set (P := fun c : EventCatalog => count c = List.length (events c)).
  assert (He : P emptyCatalog) by reflexivity.
  assert (Hp : forall csvText, P (parsedCatalog' csvText)) by reflexivity.
  destruct (processOk_reachable P p He Hp Hreach) as [Hinv Hjobs].
  split; [|split; [|split; [|split]]].
  - intros siteId c. unfold catalogAt.
    destruct (EVENT_DATA_CACHE (world p) !! siteId) as [r|] eqn:Hr;
      [|discriminate].
    destruct (storeInvariant_catalogAt _ _ _ _ Hinv Hr)
      as [_ [c' [Hc' Hpc]]].
    intros Hc. congruence.
  - intros siteId r Hr.
    destruct (storeInvariant_catalogAt _ _ _ _ Hinv Hr)
      as [_ [c' [Hc' _]]].
    exists c'. exact Hc'.
  - exact (proj2 Hinv).
  - intros siteId r Hin. rewrite Forall_forall in Hjobs.
    apply list_elem_of_In in Hin.
    destruct (Hjobs _ Hin) as [_ Hv].
    exact (proj2 (Hv _ eq_refl)).
  - intros siteId r Hres.
    destruct (safeCall_run P (Some siteId) _ _ (world p)
                (safeCall_fetchAndParseXtremEvents P He Hp siteId) Hinv)
      as (_ & _ & Hentry).
    rewrite run_fetchAndParseXtremEvents in Hentry.
    unfold getSiteEvents in Hres |- *. rewrite Hres in Hentry.
    exact (proj2 Hentry).
Qed.

Lemma byDateDescending_le (x y : Event.t) :
  validDate dateValue x -> validDate dateValue y ->
  byDateDescending dateValue x y <= 0 -> notOlder dateValue x y.
Proof.
  unfold validDate, byDateDescending, notOlder.
  destruct (dateValue (Event.id x)), (dateValue (Event.id y)); try congruence.
  lia.
Qed.

Lemma byDateDescending_gt (x y : Event.t) :
  validDate dateValue x -> validDate dateValue y ->
  0 < byDateDescending dateValue x y -> notOlder dateValue y x.
Proof.
  unfold validDate, byDateDescending, notOlder.
  destruct (dateValue (Event.id x)), (dateValue (Event.id y)); try congruence.
  lia.
Qed.

Lemma parsedCatalog_sorted (csvText : string) :
  Forall (validDate dateValue) (events (parsedCatalog' csvText)) ->
  Sorted (notOlder dateValue) (events (parsedCatalog' csvText)).
Proof.
  unfold parsedCatalog. cbn [events]. intros Hv.
  eapply sortBy_sorted;
    [apply byDateDescending_le | apply byDateDescending_gt |].
  eapply Permutation_Forall; [apply sortBy_perm | exact Hv].
Qed.

(** C6, as the code has it.  [parseXtremEventCSV] returns the events in
    file order; it is [fetchAndParseXtremEvents] that sorts them before it
    caches and returns the catalog.  The events of a parsed catalog are
    those of the parser, rearranged, and whenever every event id is a
    valid date any two consecutive events of a catalog have
    non-increasing dates: of the catalog stored in the cache under any
    name, of the catalog any call of [getSiteEvents] has returned, and of
    the one a further call returns, in every state a run of the page can
    reach, however its calls are interleaved. *)
Theorem cached_catalog_sorted :
  (forall csvText : string,
     Permutation (events (parsedCatalog' csvText))
       (parseXtremEventCSV csvText)
     /\ (Forall (validDate dateValue) (parseXtremEventCSV csvText) ->
         Sorted (notOlder dateValue) (events (parsedCatalog' csvText))))
  /\ (forall p : Process,
        runs' initialProcess p ->
        (forall (siteId : string) (c : EventCatalog),
           catalogAt (world p) siteId = Some c ->
           Forall (validDate dateValue) (events c) ->
           Sorted (notOlder dateValue) (events c))
        /\ (forall (siteId : string) (r : ref),
              In (EventsJob siteId (Async.Settled (Catalog r))) (jobs p) ->
              exists c,
                heap (world p) !! r = Some c
                /\ (Forall (validDate dateValue) (events c) ->
                    Sorted (notOlder dateValue) (events c)))
        /\ (forall (siteId : string) (r : ref),
              fst (getSiteEvents' siteId (world p)) = Catalog r ->
              exists c,
                heap (snd (getSiteEvents' siteId (world p))) !! r = Some c
                /\ (Forall (validDate dateValue) (events c) ->
                    Sorted (notOlder dateValue) (events c)))).
Proof.
  split.
  - intros csvText. split; [apply sortBy_perm|].
    intros Hv. apply parsedCatalog_sorted.
    eapply Permutation_Forall; [symmetry; apply sortBy_perm | exact Hv].
  - intros p Hreach.
    set (P := fun c : EventCatalog =>
                Forall (validDate dateValue) (events c) ->
                Sorted (notOlder dateValue) (events c)).
    assert (He : P emptyCatalog) by (intros _; constructor).
    assert (Hp : forall csvText, P (parsedCatalog' csvText))
      by (intros csvText Hv; apply parsedCatalog_sorted, Hv).
    destruct (processOk_reachable P p He Hp Hreach) as [Hinv Hjobs].
    split; [|split].
    + intros siteId c. unfold catalogAt.
      destruct (EVENT_DATA_CACHE (world p) !! siteId) as [r|] eqn:Hr;
        [|discriminate].
      destruct (storeInvariant_catalogAt _ _ _ _ Hinv Hr)
        as [_ [c' [Hc' Hpc]]].
      intros Hc. assert (c = c') by congruence. subst c'. exact Hpc.
    + intros siteId r Hin. rewrite Forall_forall in Hjobs.
      apply list_elem_of_In in Hin.
      destruct (Hjobs _ Hin) as [_ Hv].
      exact (proj2 (Hv _ eq_refl)).
    + intros siteId r Hres.
      destruct (safeCall_run P (Some siteId) _ _ (world p)
                  (safeCall_fetchAndParseXtremEvents P He Hp siteId) Hinv)
        as (_ & _ & Hentry).
      rewrite run_fetchAndParseXtremEvents in Hentry.
      unfold getSiteEvents in Hres |- *. rewrite Hres in Hentry.
      exact (proj2 Hentry).
Qed.

End NetworkProperties.

(** ** Asset resolution and the local fallback *)

Section FallbackProperties.

Variable network : nat -> string -> FetchOutcome.
Variable parseReleaseJSON : string -> option (option Release).
Variable runDate : string.
Variable weekdayOf : nat -> string.
Variable monthDayOf : nat -> string.
Variable yearOf : nat -> string.

Abbreviation fetchSitesFile' := (fetchSitesFile network).
Abbreviation fetchAndParseForecastWith' :=
  (fetchAndParseForecastWith network parseReleaseJSON weekdayOf monthDayOf
     yearOf runDate).
Abbreviation fetchAndParseForecast' :=
  (fetchAndParseForecast network parseReleaseJSON (Some runDate)
     weekdayOf monthDayOf yearOf).
Abbreviation forecastAssetName' := (forecastAssetName runDate).
Abbreviation resolve' := (getAssetDownloadUrl network parseReleaseJSON).

Lemma fetchSitesFile_unresolved (githubSitesUrl : option string) (w : World) :
  truthy githubSitesUrl = false ->
  fetched (snd (fetchSitesFile' githubSitesUrl w))
  = fetched w ++ [localSitesUrl]
  /\ forall r,
       network (List.length (fetched w)) localSitesUrl = Resolved r ->
       fst (fetchSitesFile' githubSitesUrl w)
       = if ok r then Loaded localSitesUrl r
         else Failed (failedToLoad localSitesUrl r).
Proof.
  intros Hfalsy. unfold fetchSitesFile, bind, fetch, ret.
  assert (Hfinal : match githubSitesUrl with
                   | Some url =>
                       if truthy githubSitesUrl then url else localSitesUrl
                   | None => localSitesUrl
                   end = localSitesUrl).
  { destruct githubSitesUrl; [rewrite Hfalsy|]; reflexivity. }
  rewrite Hfinal, Hfalsy. cbn [andb].
  destruct (network (List.length (fetched w)) localSitesUrl) as [|r0] eqn:E;
    cbn [fst snd fetched].
  - split; [reflexivity|]. intros r Hr. congruence.
  - destruct (ok r0) eqn:Hok; cbn [fst snd fetched].
    + split; [reflexivity|]. intros r Hr.
      assert (r = r0) by congruence. subst r. rewrite Hok. reflexivity.
    + split; [reflexivity|]. intros r Hr.
      assert (r = r0) by congruence. subst r. rewrite Hok. reflexivity.
Qed.

Lemma fetchSitesFile_resolved_ok (url : string) (w : World) (r : Response) :
  truthy (Some url) = true ->
  network (List.length (fetched w)) url = Resolved r ->
  ok r = true ->
  fetchSitesFile' (Some url) w
  = (Loaded url r,
     {| RELEASE_INFO := RELEASE_INFO w;
        EVENT_DATA_CACHE := EVENT_DATA_CACHE w;
        heap := heap w;
        fetched := fetched w ++ [url] |}).
Proof.
  intros Ht Hnet Hok. unfold fetchSitesFile, bind, fetch, ret.
  rewrite Ht, Hnet, Hok. reflexivity.
Qed.

Lemma fetchSitesFile_resolved_retry (url : string) (w : World)
  (r : Response) :
  truthy (Some url) = true ->
  network (List.length (fetched w)) url = Resolved r ->
  ok r = false ->
  fetched (snd (fetchSitesFile' (Some url) w))
  = fetched w ++ [url; localSitesUrl]
  /\ forall r2,
       network (S (List.length (fetched w))) localSitesUrl = Resolved r2 ->
       fst (fetchSitesFile' (Some url) w)
       = if ok r2 then Loaded localSitesUrl r2
         else Failed (failedToLoad localSitesUrl r2).
Proof.
  intros Ht Hnet Hok. unfold fetchSitesFile, bind, fetch, ret.
  rewrite Ht, Hnet, Hok. cbn [andb default].
  rewrite String.eqb_refl. cbn [fetched].
  rewrite length_app. cbn [List.length].
  replace (List.length (fetched w) + 1)%nat
    with (S (List.length (fetched w))) by lia.
  destruct (network (S (List.length (fetched w))) localSitesUrl)
    as [|r0] eqn:E;
    cbn [fst snd fetched]; rewrite <- ?app_assoc; cbn [app].
  - split; [reflexivity|]. intros r2 Hr. congruence.
  - destruct (ok r0) eqn:Hok0; cbn [fst snd fetched];
      rewrite <- ?app_assoc; cbn [app].
    + split; [reflexivity|]. intros r2 Hr.
      assert (r2 = r0) by congruence. subst r2. rewrite Hok0. reflexivity.
    + split; [reflexivity|]. intros r2 Hr.
      assert (r2 = r0) by congruence. subst r2. rewrite Hok0. reflexivity.
Qed.

Lemma fetchAndParseForecastWith_eq (site : Site) (w : World) :
  fetchAndParseForecastWith' site w
  = let finalUrl := fst (resolve' (forecastAssetName' site) w) in
    let w1 := snd (resolve' (forecastAssetName' site) w) in
    if truthy finalUrl then
      (forecastOfOutcome weekdayOf monthDayOf yearOf site
         (network (List.length (fetched w1)) (default EmptyString finalUrl)),
       snd (fetch network (default EmptyString finalUrl) w1))
    else (withForecast site emptySeries, w1).
Proof.
  unfold fetchAndParseForecastWith. unfold bind at 1.
  destruct (resolve' (forecastAssetName' site) w) as [finalUrl w1].
  cbn [fst snd]. destruct finalUrl as [url|]; [|reflexivity].
  destruct url as [|c u]; [reflexivity|].
  cbn [truthy negb default]. unfold bind, fetch, ret. cbn [fst snd].
  destruct (network _ _) as [|r0]; [reflexivity|].
  cbn [forecastOfOutcome]. destruct (ok r0); [|reflexivity].
  cbn [negb]. destruct (body r0) as [csvText|]; [|reflexivity].
  destruct (parseForecastCSV _ _ _ csvText site); reflexivity.
Qed.

(** With the global defined, the call returns what the body returns. *)
Lemma fetchAndParseForecast_defined (site : Site) (w : World) :
  fetchAndParseForecast' site w
  = (Some (fst (fetchAndParseForecastWith' site w)),
     snd (fetchAndParseForecastWith' site w)).
Proof.
  unfold fetchAndParseForecast, bind, ret.
  destruct (fetchAndParseForecastWith' site w). reflexivity.
Qed.

Lemma fetchAndParseForecast_fetches (site : Site) (w : World) :
  let finalUrl := fst (resolve' (forecastAssetName' site) w) in
  let w1 := snd (resolve' (forecastAssetName' site) w) in
  let outcome :=
    network (List.length (fetched w1)) (default EmptyString finalUrl) in
  fetched (snd (fetchAndParseForecast' site w))
  = fetched w1
    ++ (if truthy finalUrl then [default EmptyString finalUrl] else [])
  /\ (truthy finalUrl = false ->
      fst (fetchAndParseForecast' site w)
      = Some (withForecast site emptySeries))
  /\ (truthy finalUrl = true -> outcome = Rejected ->
      fst (fetchAndParseForecast' site w)
      = Some (withForecast site emptySeries))
  /\ (forall r,
        truthy finalUrl = true -> outcome = Resolved r -> ok r = false ->
        fst (fetchAndParseForecast' site w)
        = Some (withForecast site emptySeries)).
Proof.
  cbv zeta. rewrite fetchAndParseForecast_defined.
  rewrite fetchAndParseForecastWith_eq. cbv zeta.
  destruct (truthy _); cbn [fst snd fetch fetched].
  - split; [reflexivity|]. split; [discriminate|].
    split; [intros _ ->; reflexivity|].
    intros r _ -> Hok. cbn. rewrite Hok. reflexivity.
  - rewrite app_nil_r. split; [reflexivity|]. split; [reflexivity|].
    split; intros; discriminate.
Qed.

(** The catalog request has no local fallback either. *)
Lemma getSiteEvents_fetches (dateValue : string -> option Z)
  (siteId : string) (w : World) :
  cacheEntry w siteId = None ->
  let finalUrl := fst (resolve' (xtremAssetName siteId) w) in
  let w1 := snd (resolve' (xtremAssetName siteId) w) in
  fetched (snd (getSiteEvents network parseReleaseJSON dateValue siteId w))
  = fetched w1
    ++ (if truthy finalUrl then [default EmptyString finalUrl] else []).
Proof. intros Hmiss. apply getSiteEvents_miss, Hmiss. Qed.

(** The variability analysis has no local fallback either: it throws. *)
Lemma fetchVariabilityAnalysis_fetches (siteId : string) (w : World) :
  let finalUrl := fst (resolve' (variabilityAssetName siteId) w) in
  let w1 := snd (resolve' (variabilityAssetName siteId) w) in
  let outcome :=
    network (List.length (fetched w1)) (default EmptyString finalUrl) in
  let result := fetchVariabilityAnalysis network parseReleaseJSON siteId w in
  fetched (snd result)
  = fetched w1
    ++ (if truthy finalUrl then [default EmptyString finalUrl] else [])
  /\ (truthy finalUrl = false ->
      fst result = VariabilityError (noVariabilityData siteId))
  /\ (forall r,
        truthy finalUrl = true -> outcome = Resolved r -> ok r = false ->
        fst result = VariabilityError (variabilityFailed r)).
Proof.
  cbv zeta. unfold fetchVariabilityAnalysis, bind.
  destruct (resolve' (variabilityAssetName siteId) w) as [finalUrl w1].
  cbn [fst snd]. destruct finalUrl as [url|].
  - destruct url as [|c u].
    + cbn. rewrite app_nil_r. split; [reflexivity|]. split; [reflexivity|].
      intros; discriminate.
    + cbn [truthy negb default]. unfold bind, fetch, ret. cbn [fst snd].
      destruct (network _ _) as [|r0]; cbn [fst snd fetched].
      * split; [reflexivity|]. split; [discriminate|]. intros; discriminate.
      * destruct (ok r0) eqn:Hok; cbn [negb fst snd fetched];
          (split; [reflexivity|]); (split; [discriminate|]);
          intros r _ [= <-] Hr; [congruence|reflexivity].
  - cbn. rewrite app_nil_r. split; [reflexivity|]. split; [reflexivity|].
    intros; discriminate.
Qed.

(** C8, as the code has it.  Only the loading of the site registry falls
    back on the local path.  When the resolution of [sites_file.json]
    returns nothing, the local path is the one URL fetched; when the
    resolved URL answers with a non-success status, the local path is
    fetched once more; the loading fails when the last response has a
    non-success status, with a message that carries the last URL tried
    and that status.  The other callers of the resolution have no local
    fallback.  For the forecast of a site, on a page that defines the
    global [SELECTED_RUN_DATE], and for the catalog of a site that is not
    cached, the resolved URL, if any, is the only one fetched; a missing
    asset, a rejected fetch or a non-success status give the site an
    empty forecast without raising an error.  The variability analysis
    fetches the resolved URL only as well, and throws when there is none
    or when it answers with a non-success status. *)
Theorem sites_file_local_fallback :
  (forall (githubSitesUrl : option string) (w : World),
     truthy githubSitesUrl = false ->
     fetched (snd (fetchSitesFile' githubSitesUrl w))
     = fetched w ++ [localSitesUrl]
     /\ forall r,
          network (List.length (fetched w)) localSitesUrl = Resolved r ->
          fst (fetchSitesFile' githubSitesUrl w)
          = if ok r then Loaded localSitesUrl r
            else Failed (failedToLoad localSitesUrl r))
  /\ (forall (url : string) (w : World) (r : Response),
        truthy (Some url) = true ->
        network (List.length (fetched w)) url = Resolved r ->
        ok r = true ->
        fetched (snd (fetchSitesFile' (Some url) w)) = fetched w ++ [url]
        /\ fst (fetchSitesFile' (Some url) w) = Loaded url r)
  /\ (forall (url : string) (w : World) (r : Response),
        truthy (Some url) = true ->
        network (List.length (fetched w)) url = Resolved r ->
        ok r = false ->
        fetched (snd (fetchSitesFile' (Some url) w))
        = fetched w ++ [url; localSitesUrl]
        /\ forall r2,
             network (S (List.length (fetched w))) localSitesUrl
             = Resolved r2 ->
             fst (fetchSitesFile' (Some url) w)
             = if ok r2 then Loaded localSitesUrl r2
               else Failed (failedToLoad localSitesUrl r2))
  /\ (forall w : World,
        fetchAndProcessAllSites_sitesFile network parseReleaseJSON w
        = fetchSitesFile' (fst (resolve' CONFIG.SITES_FILENAME w))
            (snd (resolve' CONFIG.SITES_FILENAME w)))
  /\ (forall (url : string) (r : Response),
        failedToLoad url r
        = ("Failed to load sites_file.json. Final URL tried: " ++ url
           ++ ". Status: " ++ decimal (status r) ++ " " ++ statusText r)%string)
  /\ (forall (site : Site) (w : World),
        let finalUrl := fst (resolve' (forecastAssetName' site) w) in
        let w1 := snd (resolve' (forecastAssetName' site) w) in
        let outcome :=
          network (List.length (fetched w1)) (default EmptyString finalUrl) in
        fetched (snd (fetchAndParseForecast' site w))
        = fetched w1
          ++ (if truthy finalUrl then [default EmptyString finalUrl] else [])
        /\ (truthy finalUrl = false ->
            fst (fetchAndParseForecast' site w)
            = Some (withForecast site emptySeries))
        /\ (truthy finalUrl = true -> outcome = Rejected ->
            fst (fetchAndParseForecast' site w)
            = Some (withForecast site emptySeries))
        /\ (forall r,
              truthy finalUrl = true -> outcome = Resolved r ->
              ok r = false ->
              fst (fetchAndParseForecast' site w)
              = Some (withForecast site emptySeries)))
  /\ (forall (dateValue : string -> option Z) (siteId : string) (w : World),
        cacheEntry w siteId = None ->
        let finalUrl := fst (resolve' (xtremAssetName siteId) w) in
        let w1 := snd (resolve' (xtremAssetName siteId) w) in
        fetched
          (snd (getSiteEvents network parseReleaseJSON dateValue siteId w))
        = fetched w1
          ++ (if truthy finalUrl then [default EmptyString finalUrl]
              else []))
  /\ (forall (siteId : string) (w : World),
        let finalUrl := fst (resolve' (variabilityAssetName siteId) w) in
        let w1 := snd (resolve' (variabilityAssetName siteId) w) in
        let outcome :=
          network (List.length (fetched w1)) (default EmptyString finalUrl) in
        let result :=
          fetchVariabilityAnalysis network parseReleaseJSON siteId w in
        fetched (snd result)
        = fetched w1
          ++ (if truthy finalUrl then [default EmptyString finalUrl] else [])
        /\ (truthy finalUrl = false ->
            fst result = VariabilityError (noVariabilityData siteId))
        /\ (forall r,
              truthy finalUrl = true -> outcome = Resolved r ->
              ok r = false ->
              fst result = VariabilityError (variabilityFailed r))).
Proof.
  split; [exact fetchSitesFile_unresolved|].
  split.
  { intros url w r Ht Hnet Hok.
    rewrite (fetchSitesFile_resolved_ok url w r Ht Hnet Hok).
    split; reflexivity. }
  split; [exact fetchSitesFile_resolved_retry|].
  split.
  { intros w. unfold fetchAndProcessAllSites_sitesFile, bind.
    destruct (resolve' CONFIG.SITES_FILENAME w). reflexivity. }
  split; [reflexivity|].
  split; [exact fetchAndParseForecast_fetches|].
  split; [exact getSiteEvents_fetches|].
  exact fetchVariabilityAnalysis_fetches.
Qed.

End FallbackProperties.


(** ** Runs on the sample network *)

Lemma sampleProcess_runs :
  runs sampleNetwork sampleReleaseJSON isoDateValue initialProcess
    sampleProcess.
Proof.
  exact (runs_getSiteEvents sampleNetwork sampleReleaseJSON isoDateValue
           "TOGO" initialProcess).
Qed.

Lemma overlappingCalls_runs :
  runs sampleNetwork sampleReleaseJSON isoDateValue initialProcess
    overlappingCalls.
Proof.
  unfold overlappingCalls.
  eapply rtc_l; [apply (step_getSiteEvents _ _ _ _ "TOGO")|].
  eapply rtc_l; [apply (step_getSiteEvents _ _ _ _ "TOGO")|].
  eapply rtc_trans; apply runs_resume_iter.
Qed.

Lemma getSiteEvents_memoized_witness :
  cacheEntry initialWorld "TOGO" = None
  /\ (let first := getSiteEvents sampleNetwork sampleReleaseJSON isoDateValue
                     "TOGO" initialWorld in
      let second := getSiteEvents sampleNetwork sampleReleaseJSON isoDateValue
                      "TOGO" (snd first) in
      fst first = Catalog 0%nat /\ second = (Catalog 0%nat, snd first))
  /\ runs sampleNetwork sampleReleaseJSON isoDateValue initialProcess
       sampleProcess
  /\ (let p' := start (startEvents sampleNetwork sampleReleaseJSON
                         isoDateValue "LOME") sampleProcess in
      EVENT_DATA_CACHE (world p') !! "TOGO"%string = Some 0%nat
      /\ settledFor "TOGO" p').
Proof.
  destruct (getSiteEvents_memoized sampleNetwork sampleReleaseJSON
              isoDateValue "TOGO")
    as (Hfirst & Hhit & Hkept & Hrun).
  assert (Hmiss : cacheEntry initialWorld "TOGO" = None) by reflexivity.
  destruct (Hrun initialProcess (Forall_nil_2 _)) as [Hruns Hsettled].
  assert (Hentry : EVENT_DATA_CACHE (world sampleProcess) !! "TOGO"%string
                   = Some 0%nat) by (vm_compute; reflexivity).
  split; [exact Hmiss|]. split; [|split; [exact Hruns|]].
  - cbv zeta. split; [vm_compute; reflexivity|].
    apply (Hhit _ 0%nat). exact Hentry.
  - cbv zeta.
    destruct (Hkept sampleProcess
                (start (startEvents sampleNetwork sampleReleaseJSON
                          isoDateValue "LOME") sampleProcess)
                0%nat Hruns Hentry Hsettled)
      as (H1 & _ & H3).
    { apply rtc_once. apply step_getSiteEvents. }
    split; assumption.
Defined.

(** C7, as stated, fails.  On the number of fetches: with the release
    metadata at hand and no asset of that name, two calls in a row issue
    no fetch at all and still return the same reference; in a new process
    whose release publishes the asset, they issue two fetches, one for the
    metadata and one for the catalog.  On the later calls: a second call
    started while the first one waits for the network finds the cache
    empty as well, so that both fetch the catalog and each returns an
    object of its own, the second replacing the first in the cache.  On
    the first call: for the name of an inherited member nothing is
    resolved, fetched or stored, and what comes back is that member. *)
Lemma getSiteEvents_fetch_count :
  (let first := getSiteEvents offline noJSON isoDateValue "TOGO"
                  (worldWith emptyRelease) in
   let second := getSiteEvents offline noJSON isoDateValue "TOGO"
                   (snd first) in
   fetched (snd second) = []
   /\ fst second = fst first
   /\ catalogAt (snd second) "TOGO" = Some emptyCatalog)
  /\ (let first := getSiteEvents sampleNetwork sampleReleaseJSON isoDateValue
                     "TOGO" initialWorld in
      let second := getSiteEvents sampleNetwork sampleReleaseJSON isoDateValue
                      "TOGO" (snd first) in
      fetched (snd second) = [releaseUrl; catalogUrl]
      /\ fst second = fst first)
  /\ (runs sampleNetwork sampleReleaseJSON isoDateValue initialProcess
        overlappingCalls
      /\ returnedFor "TOGO" overlappingCalls
         = [Some (Catalog 0%nat); Some (Catalog 1%nat)]
      /\ fetched (world overlappingCalls)
         = [releaseUrl; releaseUrl; catalogUrl; catalogUrl]
      /\ EVENT_DATA_CACHE (world overlappingCalls) !! "TOGO"%string
         = Some 1%nat)
  /\ getSiteEvents sampleNetwork sampleReleaseJSON isoDateValue "constructor"
       initialWorld
     = (Inherited "constructor", initialWorld).
Proof.
  split; [|split; [|split]].
  - cbv zeta; repeat split; vm_compute; reflexivity.
  - cbv zeta; repeat split; vm_compute; reflexivity.
  - split; [exact overlappingCalls_runs|].
    repeat split; vm_compute; reflexivity.
  - vm_compute. reflexivity.
Qed.

Lemma cached_catalog_count_witness :
  runs sampleNetwork sampleReleaseJSON isoDateValue initialProcess
    sampleProcess
  /\ exists c,
       catalogAt (world sampleProcess) "TOGO" = Some c
       /\ count c = 2%nat
       /\ count c = List.length (events c).
Proof.
  split; [exact sampleProcess_runs|].
  destruct (cached_catalog_count sampleNetwork sampleReleaseJSON isoDateValue
              sampleProcess sampleProcess_runs) as [Hcount _].
  eexists. split; [vm_compute; reflexivity|].
  split; [reflexivity|].
  apply (Hcount "TOGO"%string). vm_compute. reflexivity.
Defined.

Lemma cached_catalog_sorted_witness :
  exists c,
    catalogAt (world sampleProcess) "TOGO" = Some c
    /\ map Event.id (events c) = ["2021-06-01"; "2020-01-15"]%string
    /\ Sorted (notOlder isoDateValue) (events c).
Proof.
  destruct (cached_catalog_sorted sampleNetwork sampleReleaseJSON isoDateValue)
    as [_ Hreach].
  destruct (Hreach _ sampleProcess_runs) as [Hsorted _].
  eexists. split; [vm_compute; reflexivity|].
  split; [reflexivity|].
  apply (Hsorted "TOGO"%string); [vm_compute; reflexivity|].
  repeat constructor; vm_compute; discriminate.
Defined.

Lemma Sorted_head2 {A : Type} (R : A -> A -> Prop) (x y : A) (l : list A) :
  Sorted R (x :: y :: l) -> R x y.
Proof.
  intros H. inversion H as [|? ? _ Hd]; subst.
  inversion Hd; subst. assumption.
Qed.

(** C6, as stated, fails.  [parseXtremEventCSV] keeps the order of the
    file: two rows that come oldest first come out oldest first.  And a
    row whose date cell is not a date is kept, so that even the sorted
    catalog has two consecutive events whose dates are not ordered. *)
Lemma parseXtremEventCSV_file_order :
  map Event.id (parseXtremEventCSV ascendingCSV)
  = ["2020-01-15"; "2021-06-01"]%string
  /\ ~ Sorted (notOlder isoDateValue) (parseXtremEventCSV ascendingCSV)
  /\ map Event.id (events (parsedCatalog isoDateValue undatedCSV))
     = ["n/a"; "2020-01-15"]%string
  /\ ~ Sorted (notOlder isoDateValue)
         (events (parsedCatalog isoDateValue undatedCSV)).
Proof.
  split; [vm_compute; reflexivity|]. split; [|split].
  - destruct (parseXtremEventCSV ascendingCSV) as [|x [|y l]] eqn:E;
      try (vm_compute in E; discriminate).
    intros H. apply Sorted_head2 in H.
    vm_compute in E. injection E as <- <- _.
    vm_compute in H. apply H. reflexivity.
  - vm_compute. reflexivity.
  - destruct (events (parsedCatalog isoDateValue undatedCSV))
      as [|x [|y l]] eqn:E; try (vm_compute in E; discriminate).
    intros H. apply Sorted_head2 in H.
    vm_compute in E. injection E as <- <- _.
    vm_compute in H. exact H.
Qed.

Lemma sites_file_local_fallback_witness :
  truthy (Some sitesUrl) = true
  /\ fetched (snd (fetchSitesFile localOnly (Some sitesUrl) initialWorld))
     = [sitesUrl; localSitesUrl]
  /\ exists r2,
       fst (fetchSitesFile localOnly (Some sitesUrl) initialWorld)
       = Loaded localSitesUrl r2.
Proof.
  split; [reflexivity|].
  destruct (sites_file_local_fallback localOnly noJSON "2025-12-06"
              sampleWeekday sampleMonthDay sampleYear)
    as (_ & _ & Hretry & _).
  destruct (Hretry sitesUrl initialWorld
              {| ok := false; status := 404; statusText := "Not Found";
                 body := Some EmptyString |}
              eq_refl eq_refl eq_refl) as [Hfetched Hres].
  split; [exact Hfetched|].
  eexists. apply (Hres {| ok := true; status := 200; statusText := "OK";
                          body := Some "{}"%string |}).
  reflexivity.
Defined.

(** C8, as stated, fails for three of the four callers of the
    resolution.  When the asset is not in the release, the forecast of a
    site fetches nothing, the local path included, and returns an empty
    forecast; when the resolved URL answers 404, that URL is the only one
    fetched.  That is on a page that defines [SELECTED_RUN_DATE]; without
    the global the call rejects and requests nothing.  The catalog of a
    site whose asset is not in the release is the empty catalog, stored
    without any request, and the variability analysis throws without any
    request. *)
Lemma fetchAndParseForecast_no_local_retry :
  (let result := fetchAndParseForecast offline noJSON (Some "2025-12-06")
                   sampleWeekday sampleMonthDay sampleYear sampleSite
                   (worldWith emptyRelease) in
   fetched (snd result) = []
   /\ option_map forecastData (fst result) = Some (Some emptySeries))
  /\ (let result := fetchAndParseForecast notFound noJSON (Some "2025-12-06")
                      sampleWeekday sampleMonthDay sampleYear sampleSite
                      (worldWith sampleRelease) in
      fetched (snd result) = [forecastUrl]
      /\ option_map forecastData (fst result) = Some (Some emptySeries))
  /\ fetchAndParseForecast offline noJSON None sampleWeekday sampleMonthDay
       sampleYear sampleSite (worldWith emptyRelease)
     = (None, worldWith emptyRelease)
  /\ (let result := getSiteEvents offline noJSON isoDateValue "TOGO"
                      (worldWith emptyRelease) in
      fetched (snd result) = []
      /\ catalogAt (snd result) "TOGO" = Some emptyCatalog)
  /\ (let result := fetchVariabilityAnalysis offline noJSON "TOGO"
                      (worldWith emptyRelease) in
      fetched (snd result) = []
      /\ fst result = VariabilityError (noVariabilityData "TOGO")).
Proof.
  repeat split; vm_compute; reflexivity.
Qed.

(* ================================================================== *)
(** * Further properties *)
(* ================================================================== *)

(** ** The classifier on any configuration *)

(** X1.  Whatever the threshold and the list of boundaries (in any
    order, with any number of elements), [classifyRisk] never lowers the
    level when the water level grows, it answers No Flood exactly below
    the threshold, and a boundary that is missing opens no band: without
    a second boundary no level is High Risk, and without any boundary
    every level at or above the threshold is Severe Flood. *)
Theorem classifyRisk_any_configuration (t : num) (rc : list num) :
  (forall v v', Num.le v v' = true ->
     (rank (classifyRisk v t rc) <= rank (classifyRisk v' t rc))%nat)
  /\ (forall v, classifyRisk v t rc = NoFlood <-> Num.lt v t = true)
  /\ ((List.length rc < 2)%nat ->
      forall v, classifyRisk v t rc <> HighRisk)
  /\ (rc = [] ->
      forall v, Num.ge v t = true -> classifyRisk v t rc = SevereFlood).
Proof.
  split; [|split; [|split]].
  - intros v v' Hle. unfold classifyRisk, ltElem.
    destruct (Num.lt v' t) eqn:E1.
    { rewrite (le_lt_trans _ _ _ Hle E1). simpl. lia. }
    destruct (rc !! 0%nat) as [h|].
    + destruct (Num.lt v' h) eqn:E2.
      { rewrite (le_lt_trans _ _ _ Hle E2).
        destruct (Num.lt v t); simpl; lia. }
      destruct (rc !! 1%nat) as [s|].
      * destruct (Num.lt v' s) eqn:E3.
        { rewrite (le_lt_trans _ _ _ Hle E3).
          destruct (Num.lt v t), (Num.lt v h); simpl; lia. }
        destruct (Num.lt v t), (Num.lt v h), (Num.lt v s); simpl; lia.
      * destruct (Num.lt v t), (Num.lt v h); simpl; lia.
    + destruct (rc !! 1%nat) as [s|].
      * destruct (Num.lt v' s) eqn:E3.
        { rewrite (le_lt_trans _ _ _ Hle E3).
          destruct (Num.lt v t); simpl; lia. }
        destruct (Num.lt v t), (Num.lt v s); simpl; lia.
      * destruct (Num.lt v t); simpl; lia.
  - intros v. unfold classifyRisk, ltElem.
    destruct (Num.lt v t); [tauto|].
    destruct (rc !! 0%nat) as [h|]; [destruct (Num.lt v h)|];
      (destruct (rc !! 1%nat) as [s|]; [destruct (Num.lt v s)|]);
      split; congruence.
  - intros Hlen v. unfold classifyRisk, ltElem.
    assert (H1 : rc !! 1%nat = None) by (apply lookup_ge_None_2; lia).
    rewrite H1. destruct (Num.lt v t); [discriminate|].
    destruct (rc !! 0%nat) as [h|]; [destruct (Num.lt v h)|]; discriminate.
  - intros -> v Hge. unfold classifyRisk, ltElem, Num.ge in *.
    rewrite le_negb_lt in Hge. apply negb_true_iff in Hge.
    rewrite Hge. reflexivity.
Qed.

Lemma classifyRisk_any_configuration_witness :
  Num.le (Fin 1) (Fin 4) = true
  /\ (rank (classifyRisk (Fin 1) (Fin 3) [Fin 2])
      <= rank (classifyRisk (Fin 4) (Fin 3) [Fin 2]))%nat
  /\ classifyRisk (Fin 4) (Fin 3) [] = SevereFlood.
Proof.
  destruct (classifyRisk_any_configuration (Fin 3) [Fin 2]) as [Hmono _].
  destruct (classifyRisk_any_configuration (Fin 3) []) as (_ & _ & _ & Hnone).
  split; [reflexivity|]. split.
  - apply Hmono. reflexivity.
  - apply Hnone; reflexivity.
Defined.

(** ** The hourly series and the daily maximum *)

Lemma lookup_map {A B : Type} (f : A -> B) (l : list A) (k : nat) :
  map f l !! k = option_map f (l !! k).
Proof.
  revert k. induction l as [|x r IH]; intros [|k]; simpl; auto.
Qed.

Lemma lookup_filterIndexFrom_hour {A : Type} (l : list A) (i k : nat) :
  filterIndexFrom (fun index => (index mod DATA_POINTS_PER_HOUR =? 0)%nat)
    l i !! k
  = l !! ((6 - i mod 6) mod 6 + 6 * k)%nat.
Proof.
  change DATA_POINTS_PER_HOUR with 6%nat.
  revert i k. induction l as [|x r IH]; intros i k;
    cbn [filterIndexFrom]; [reflexivity|].
  destruct (Nat.eqb_spec (i mod 6) 0) as [E|E].
  - replace ((6 - i mod 6) mod 6)%nat with 0%nat by lia.
    destruct k as [|k]; [reflexivity|].
    cbn [lookup list_lookup]. rewrite IH.
    replace (0 + 6 * S k)%nat with (S (5 + 6 * k)) by lia.
    cbn [lookup list_lookup]. f_equal. lia.
  - rewrite IH.
    replace ((6 - i mod 6) mod 6 + 6 * k)%nat
      with (S ((6 - S i mod 6) mod 6 + 6 * k)) by lia.
    reflexivity.
Qed.

(** X2.  The hourly series takes the samples at the indices 0, 6, 12,
    ... of all the retained samples: its [k]-th value is the sample of
    index [6 * k] rounded to 3 decimals, and it ends where the samples
    end. *)
Theorem hourlyOf_lookup (rawTWLData : list Sample) (k : nat) :
  hourlyOf rawTWLData !! k
  = option_map (fun item => Num.toFixed 3 (twl item))
      (rawTWLData !! (6 * k)%nat).
Proof.
  unfold hourlyOf. rewrite lookup_map, lookup_filterIndexFrom_hour.
  reflexivity.
Qed.

Lemma maxTWL_fold_bound (l : list Sample) (acc : num) (s : Sample) :
  In s l ->
  Num.le (twl s)
    (fold_left (fun max item => Num.max max (twl item)) l acc) = true.
Proof.
  revert acc. induction l as [|x r IH]; intros acc Hin; [destruct Hin|].
  destruct Hin as [<-|Hin]; simpl.
  - eapply le_trans; [|apply maxTWL_from_ge].
    unfold Num.max. destruct (Num.lt acc (twl x)) eqn:E.
    + apply le_refl.
    + rewrite le_negb_lt, E. reflexivity.
  - apply IH, Hin.
Qed.

Lemma maxTWL_fold_attained (l : list Sample) (acc : num) :
  fold_left (fun max item => Num.max max (twl item)) l acc = acc
  \/ exists s,
       In s l
       /\ fold_left (fun max item => Num.max max (twl item)) l acc = twl s.
Proof.
  revert acc. induction l as [|x r IH]; intros acc; simpl; [auto|].
  destruct (IH (Num.max acc (twl x))) as [H|[s [Hin H]]].
  - rewrite H. unfold Num.max. destruct (Num.lt acc (twl x)).
    + right. exists x. auto.
    + auto.
  - right. exists s. auto.
Qed.

(** X3.  The maximum of a day window is an upper bound of all its
    samples and of 0, and it is 0 itself or one of the samples: the
    window never reports a level that was not observed, except the 0 it
    starts from. *)
Theorem maxTWL_is_maximum (dayTWLData : list Sample) :
  (forall s, In s dayTWLData ->
     Num.le (twl s) (maxTWL dayTWLData) = true)
  /\ Num.le Num.zero (maxTWL dayTWLData) = true
  /\ (maxTWL dayTWLData = Num.zero
      \/ exists s, In s dayTWLData /\ maxTWL dayTWLData = twl s).
Proof.
  split; [|split].
  - intros s Hin. apply maxTWL_fold_bound, Hin.
  - apply maxTWL_nonneg.
  - apply maxTWL_fold_attained.
Qed.

Lemma maxTWL_is_maximum_witness :
  Num.le (Fin (3 # 2))
    (maxTWL [ {| timestamp := "t0"; twl := Fin (-1) |};
              {| timestamp := "t1"; twl := Fin (3 # 2) |} ]) = true.
Proof.
  destruct (maxTWL_is_maximum
              [ {| timestamp := "t0"; twl := Fin (-1) |};
                {| timestamp := "t1"; twl := Fin (3 # 2) |} ]) as [Hbound _].
  apply (Hbound {| timestamp := "t1"; twl := Fin (3 # 2) |}).
  right. left. reflexivity.
Defined.

(** ** What a daily entry shows *)

Section DailyLevel.

Variable weekdayOf : nat -> string.
Variable monthDayOf : nat -> string.
Variable yearOf : nat -> string.


End DailyLevel.


(** ** Splitting a line *)

Lemma joinWith_cons (sep : ascii) (x : string) (l : list string) :
  l <> [] ->
  joinWith sep (x :: l) = (x ++ String sep (joinWith sep l))%string.
Proof.
  unfold joinWith. destruct l as [|y r]; [congruence|]. reflexivity.
Qed.

Lemma includes_char_cons (sep c : ascii) (s : string) :
  includes (String sep EmptyString) (String c s)
  = Ascii.eqb sep c || includes (String sep EmptyString) s.
Proof.
  cbn [includes String.prefix].
  destruct (ascii_dec sep c) as [->|Hne].
  - rewrite Ascii.eqb_refl. destruct s; reflexivity.
  - apply Ascii.eqb_neq in Hne. rewrite Hne. reflexivity.
Qed.

(** Splitting a line at a separator loses nothing: joining the
    cells with the separator gives the line back, no cell contains the
    separator, and there is one cell more than there are separators in
    the line (so a line always has at least one cell). *)
Lemma splitOn_round_trip (sep : ascii) (s : string) :
  joinWith sep (splitOn sep s) = s
  /\ Forall (fun cell => includes (String sep EmptyString) cell = false)
       (splitOn sep s)
  /\ List.length (splitOn sep s) = S (countChar sep s).
Proof.
  induction s as [|c r (IHjoin & IHcells & IHlen)].
  - repeat split. constructor; [reflexivity|constructor].
  - cbn [splitOn countChar].
    destruct (Ascii.eqb_spec c sep) as [->|Hne].
    + split; [|split].
      * rewrite joinWith_cons by apply splitOn_nonempty.
        rewrite IHjoin. reflexivity.
      * constructor; [reflexivity|exact IHcells].
      * cbn [List.length]. rewrite IHlen. reflexivity.
    + destruct (splitOn sep r) as [|h t] eqn:E.
      { exfalso. eapply splitOn_nonempty, E. }
      split; [|split].
      * unfold joinWith in *.
        destruct t as [|h' t']; rewrite <- IHjoin; reflexivity.
      * inversion IHcells as [|? ? Hh Ht]; subst.
        constructor; [|exact Ht].
        rewrite includes_char_cons, Hh, orb_false_r.
        apply Ascii.eqb_neq. congruence.
      * exact IHlen.
Qed.

Lemma splitOn_app_sep (sep : ascii) (a b : string) :
  splitOn sep (a ++ String sep b) = splitOn sep a ++ splitOn sep b.
Proof.
  induction a as [|c r IH]; simpl.
  - rewrite Ascii.eqb_refl. reflexivity.
  - destruct (Ascii.eqb c sep).
    + rewrite IH. reflexivity.
    + rewrite IH. destruct (splitOn sep r) as [|h t] eqn:E.
      { exfalso. eapply splitOn_nonempty, E. }
      reflexivity.
Qed.

Lemma splitOn_no_sep (sep : ascii) (s : string) :
  includes (String sep EmptyString) s = false -> splitOn sep s = [s].
Proof.
  induction s as [|c r IH]; [reflexivity|].
  rewrite includes_char_cons. intros H.
  apply orb_false_iff in H. destruct H as [Hc Hr].
  cbn [splitOn]. rewrite Ascii.eqb_sym, Hc, (IH Hr). reflexivity.
Qed.

Section ShortId.

Variable SELECTED_RUN_DATE : string.

(** X7.  The short id that names the forecast asset of a site is the
    text after the last underscore of the site id, and the whole id when
    it has no underscore: the asset is
    [all_twl_data_<short id>_<run date without dashes>.csv]. *)
Theorem forecastAssetName_shortId (site : Site) :
  (includes "_" (id site) = false ->
   forecastAssetName SELECTED_RUN_DATE site
   = ("all_twl_data_" ++ id site ++ "_" ++ removeDashes SELECTED_RUN_DATE
        ++ ".csv")%string)
  /\ (forall before shortId : string,
        id site = (before ++ "_" ++ shortId)%string ->
        includes "_" shortId = false ->
        forecastAssetName SELECTED_RUN_DATE site
        = ("all_twl_data_" ++ shortId ++ "_"
             ++ removeDashes SELECTED_RUN_DATE ++ ".csv")%string).
Proof.
  unfold forecastAssetName. split.
  - intros H. change "_"%string with (String underscore EmptyString) in H.
    rewrite (splitOn_no_sep _ _ H). reflexivity.
  - intros before shortId Hid H. rewrite Hid.
    change ("_" ++ shortId)%string with (String underscore shortId).
    rewrite splitOn_app_sep.
    change "_"%string with (String underscore EmptyString) in H.
    rewrite (splitOn_no_sep _ _ H), last_last. reflexivity.
Qed.

End ShortId.

Lemma forecastAssetName_shortId_witness :
  id sampleSite = ("TWL_Baguida" ++ "_" ++ "TOGO")%string
  /\ includes "_" "TOGO" = false
  /\ forecastAssetName "2025-12-06" sampleSite
     = "all_twl_data_TOGO_20251206.csv"%string.
Proof.
  split; [reflexivity|]. split; [reflexivity|].
  destruct (forecastAssetName_shortId "2025-12-06" sampleSite) as [_ H].
  apply (H "TWL_Baguida"%string "TOGO"%string); reflexivity.
Defined.

(** ** The run date *)

Lemma substring_prefix (a b : string) :
  substring 0 (String.length a) (a ++ b) = a.
Proof.
  induction a as [|c r IH]; simpl.
  - destruct b; reflexivity.
  - rewrite IH. reflexivity.
Qed.

Lemma substring_skip (a b : string) (n : nat) :
  substring (String.length a) n (a ++ b) = substring 0 n b.
Proof. induction a as [|c r IH]; simpl; [reflexivity|exact IH]. Qed.

Lemma string_length_app (a b : string) :
  String.length (a ++ b) = (String.length a + String.length b)%nat.
Proof. induction a as [|c r IH]; simpl; [reflexivity|]. rewrite IH. reflexivity. Qed.

Lemma string_app_assoc (a b c : string) :
  (a ++ b ++ c)%string = ((a ++ b) ++ c)%string.
Proof.
  induction a as [|x r IH]; [reflexivity|].
  change (String x (r ++ b ++ c) = String x ((r ++ b) ++ c))%string.
  f_equal. exact IH.
Qed.

Lemma substring_whole (a : string) : substring 0 (String.length a) a = a.
Proof. induction a as [|c r IH]; simpl; [reflexivity|]. rewrite IH. reflexivity. Qed.

Lemma allFrom_spec (f : Z -> bool) (n : nat) :
  forall start z,
    allFrom f start n = true ->
    start <= z < start + Z.of_nat n -> f z = true.
Proof.
  induction n as [|k IH]; intros start z H Hz; [lia|].
  cbn [allFrom] in H. apply andb_true_iff in H. destruct H as [H0 Hk].
  destruct (Z.eq_dec z start) as [->|Hne]; [exact H0|].
  apply (IH (start + 1)); [exact Hk|lia].
Qed.

Lemma year_strings :
  allFrom
    (fun z =>
       (String.length (decimalZ z) =? 4)%nat
       && match parseInt (decimalZ z) with
          | Some v => v =? z
          | None => false
          end)
    1000 (Z.to_nat 9000) = true.
Proof. vm_compute. reflexivity. Qed.

Lemma two_digit_strings :
  forallb
    (fun n =>
       (String.length (padStart 2 "0" (decimal n)) =? 2)%nat
       && match parseInt (padStart 2 "0" (decimal n)) with
          | Some v => v =? Z.of_nat n
          | None => false
          end)
    (seq 1 31) = true.
Proof. vm_compute. reflexivity. Qed.

Lemma two_digit_string (n : nat) :
  (1 <= n <= 31)%nat ->
  String.length (padStart 2 "0" (decimal n)) = 2%nat
  /\ parseInt (padStart 2 "0" (decimal n)) = Some (Z.of_nat n).
Proof.
  intros Hn. pose proof two_digit_strings as H.
  rewrite forallb_forall in H. specialize (H n).
  rewrite in_seq in H. specialize (H ltac:(lia)).
  apply andb_true_iff in H. destruct H as [H1 H2].
  apply Nat.eqb_eq in H1. split; [exact H1|].
  revert H2.
  destruct (parseInt (padStart 2 "0" (decimal n))) as [v|]; [|discriminate].
  intros H2. apply Z.eqb_eq in H2. congruence.
Qed.

(** X8.  For a date whose year has four digits, the text written by
    [formatDateToYYYYMMDD] has eight characters, and the three parts
    [getForecastDate] reads back from it with [substring] and [parseInt]
    are the year, the month counted from 0 and the day of the date. *)
Theorem formatDateToYYYYMMDD_round_trip (dateObj : LocalDate) :
  1000 <= getFullYear dateObj <= 9999 ->
  (getMonth dateObj < 12)%nat ->
  (1 <= getDate dateObj <= 31)%nat ->
  String.length (formatDateToYYYYMMDD dateObj) = 8%nat
  /\ runDateParts (formatDateToYYYYMMDD dateObj)
     = (Some (getFullYear dateObj),
        Some (Z.of_nat (getMonth dateObj)),
        Some (Z.of_nat (getDate dateObj))).
Proof.
  intros Hy Hm Hd. unfold formatDateToYYYYMMDD, runDateParts. cbv zeta.
  destruct (two_digit_string (getMonth dateObj + 1) ltac:(lia)) as [Lm Pm].
  destruct (two_digit_string (getDate dateObj) ltac:(lia)) as [Ld Pd].
  assert (Hyear : String.length (decimalZ (getFullYear dateObj)) = 4%nat
                  /\ parseInt (decimalZ (getFullYear dateObj))
                     = Some (getFullYear dateObj)).
  { pose proof (allFrom_spec _ _ _ (getFullYear dateObj) year_strings) as H.
    cbv beta in H. specialize (H ltac:(lia)).
    apply andb_true_iff in H. destruct H as [H1 H2].
    apply Nat.eqb_eq in H1. split; [exact H1|].
    revert H2.
    destruct (parseInt (decimalZ (getFullYear dateObj))) as [v|];
      [|discriminate].
    intros H2. apply Z.eqb_eq in H2. congruence. }
  destruct Hyear as [Ly Py].
  set (sy := decimalZ (getFullYear dateObj)) in *.
  set (sm := padStart 2 "0" (decimal (getMonth dateObj + 1))) in *.
  set (sd := padStart 2 "0" (decimal (getDate dateObj))) in *.
  split.
  - rewrite !string_length_app, Ly, Lm, Ld. reflexivity.
  - assert (E1 : substring 0 4 (sy ++ sm ++ sd) = sy)
      by (rewrite <- Ly; apply substring_prefix).
    assert (E2 : substring 4 2 (sy ++ sm ++ sd) = sm).
    { rewrite <- Ly, substring_skip, <- Lm. apply substring_prefix. }
    assert (E3 : substring 6 2 (sy ++ sm ++ sd) = sd).
    { replace 6%nat with (String.length sy + String.length sm)%nat
        by (rewrite Ly, Lm; reflexivity).
      rewrite (string_app_assoc sy sm sd), <- string_length_app,
        substring_skip, <- Ld.
      apply substring_whole. }
    rewrite E1, E2, E3, Py, Pm, Pd.
    repeat f_equal. lia.
Qed.

Lemma formatDateToYYYYMMDD_round_trip_witness :
  formatDateToYYYYMMDD
    {| getFullYear := 2025; getMonth := 11; getDate := 6 |}
  = "20251206"%string
  /\ runDateParts "20251206" = (Some 2025, Some 11, Some 6).
Proof.
  split; [reflexivity|].
  apply (formatDateToYYYYMMDD_round_trip
           {| getFullYear := 2025; getMonth := 11; getDate := 6 |});
    cbn; lia.
Defined.
(** ** The release metadata *)

Section ReleaseProperties.

Variable network : nat -> string -> FetchOutcome.
Variable parseReleaseJSON : string -> option (option Release).
Variable dateValue : string -> option Z.

Abbreviation resolve := (getAssetDownloadUrl network parseReleaseJSON).

(** What the resolution answers from the metadata [info]. *)
Abbreviation answerOf info filename :=
  (match assets info with
   | Some l =>
       option_map browser_download_url
         (List.find (fun a => String.eqb (asset_name a) filename) l)
   | None => None
   end).





(** X10.  A release request that fails is not remembered.  When the
    process holds no metadata and the request for it is rejected, gets a
    non-success status or a body that is not JSON, the resolution answers
    null, [RELEASE_INFO] stays null, and so the next resolution sends the
    request again; when it succeeds with an object, that object is held
    from then on. *)
Theorem release_metadata_failure_not_cached (w : World) (f1 f2 : string) :
  RELEASE_INFO w = None ->
  let outcome := network (List.length (fetched w)) releaseUrl in
  (outcome = Rejected
   \/ (exists r, outcome = Resolved r /\ ok r = false)
   \/ (exists r, outcome = Resolved r /\ ok r = true
                 /\ releaseJSON parseReleaseJSON r = None) ->
   fst (resolve f1 w) = None
   /\ RELEASE_INFO (snd (resolve f1 w)) = None
   /\ fetched (snd (resolve f1 w)) = fetched w ++ [releaseUrl]
   /\ fetched (snd (resolve f2 (snd (resolve f1 w))))
      = fetched w ++ [releaseUrl; releaseUrl])
  /\ (forall r info,
        outcome = Resolved r -> ok r = true ->
        releaseJSON parseReleaseJSON r = Some (Some info) ->
        RELEASE_INFO (snd (resolve f1 w)) = Some info
        /\ fetched (snd (resolve f2 (snd (resolve f1 w))))
           = fetched w ++ [releaseUrl]).
Proof.
  intros Hnone. cbv zeta. split.
  - intros Hfail.
    assert (E : resolve f1 w
                = (None,
                   {| RELEASE_INFO := None;
                      EVENT_DATA_CACHE := EVENT_DATA_CACHE w;
                      heap := heap w;
                      fetched := fetched w ++ [releaseUrl] |})).
    { unfold getAssetDownloadUrl, bind at 1, getReleaseInfo.
      rewrite Hnone. unfold bind, fetch, ret, setReleaseInfo. cbn [fst snd].
      destruct Hfail as [->|[(r & -> & Hok)|(r & -> & Hok & Hjson)]].
      - rewrite <- Hnone. reflexivity.
      - rewrite Hok. cbn. rewrite <- Hnone. reflexivity.
      - rewrite Hok, Hjson. cbn. rewrite <- Hnone. reflexivity. }
    rewrite E. cbn [fst snd RELEASE_INFO fetched].
    split; [reflexivity|]. split; [reflexivity|]. split; [reflexivity|].
    destruct (getAssetDownloadUrl_store network parseReleaseJSON f2
                {| RELEASE_INFO := None;
                   EVENT_DATA_CACHE := EVENT_DATA_CACHE w;
                   heap := heap w;
                   fetched := fetched w ++ [releaseUrl] |})
      as (_ & _ & Hf).
    rewrite Hf. cbn. rewrite <- app_assoc. reflexivity.
  - intros r info Hout Hok Hjson.
    assert (E : snd (resolve f1 w)
                = {| RELEASE_INFO := Some info;
                     EVENT_DATA_CACHE := EVENT_DATA_CACHE w;
                     heap := heap w;
                     fetched := fetched w ++ [releaseUrl] |}).
    { unfold getAssetDownloadUrl, bind at 1, getReleaseInfo.
      rewrite Hnone. unfold bind, fetch, ret, setReleaseInfo. cbn [fst snd].
      rewrite Hout, Hok, Hjson. cbn.
      destruct (assets info) as [l|]; [|reflexivity].
      destruct (List.find _ l); reflexivity. }
    rewrite E. split; [reflexivity|].
    destruct (getAssetDownloadUrl_store network parseReleaseJSON f2
                {| RELEASE_INFO := Some info;
                   EVENT_DATA_CACHE := EVENT_DATA_CACHE w;
                   heap := heap w;
                   fetched := fetched w ++ [releaseUrl] |})
      as (_ & _ & Hf).
    rewrite Hf. cbn. rewrite app_nil_r. reflexivity.
Qed.

End ReleaseProperties.


(** Two resolutions started one after the other before the metadata has
    arrived both request it. *)
Example release_metadata_requested_twice :
  fetched
    (world
       (start (startResolve sampleNetwork sampleReleaseJSON "b.csv")
          (start (startResolve sampleNetwork sampleReleaseJSON "a.csv")
             initialProcess)))
  = [releaseUrl; releaseUrl].
Proof. reflexivity. Qed.

Lemma release_metadata_failure_not_cached_witness :
  RELEASE_INFO initialWorld = None
  /\ fetched (snd (getAssetDownloadUrl offline noJSON "b.csv"
                     (snd (getAssetDownloadUrl offline noJSON "a.csv" initialWorld))))
     = [releaseUrl; releaseUrl].
Proof.
  split; [reflexivity|].
  destruct (release_metadata_failure_not_cached offline noJSON initialWorld
              "a.csv" "b.csv" eq_refl) as [Hfail _].
  destruct Hfail as (_ & _ & _ & H); [left; reflexivity|].
  exact H.
Defined.

(** ** The historical views *)

Lemma cacheEntry_Catalog (w : World) (siteId : string) (r : ref) :
  cacheEntry w siteId = Some (Catalog r) ->
  EVENT_DATA_CACHE w !! siteId = Some r.
Proof.
  unfold cacheEntry. destruct (EVENT_DATA_CACHE w !! siteId) as [r'|].
  - intros [= <-]. reflexivity.
  - destruct (bool_decide _); discriminate.
Qed.

Lemma find_id_Some (evs : list Event.t) (e : Event.t) :
  In e evs ->
  exists e',
    List.find (fun x => String.eqb (Event.id x) (Event.id e)) evs = Some e'
    /\ In e' evs /\ Event.id e' = Event.id e.
Proof.
  intros Hin.
  destruct (List.find (fun x => String.eqb (Event.id x) (Event.id e)) evs)
    as [e'|] eqn:Hfind.
  - exists e'. split; [reflexivity|].
    apply find_some in Hfind. destruct Hfind as [Hin' Heq].
    apply String.eqb_eq in Heq. auto.
  - exfalso. apply (find_none _ _ Hfind) in Hin.
    rewrite String.eqb_refl in Hin. discriminate.
Qed.

Lemma find_id_None (evs : list Event.t) (eventId : string) :
  (forall e, In e evs -> Event.id e <> eventId) ->
  List.find (fun x => String.eqb (Event.id x) eventId) evs = None.
Proof.
  intros Hnone.
  destruct (List.find (fun x => String.eqb (Event.id x) eventId) evs)
    as [e'|] eqn:Hfind; [|reflexivity].
  apply find_some in Hfind. destruct Hfind as [Hin' Heq].
  apply String.eqb_eq in Heq. exfalso. eapply Hnone; eauto.
Qed.

Section ViewProperties.

Variable network : nat -> string -> FetchOutcome.
Variable parseReleaseJSON : string -> option (option Release).
Variable dateValue : string -> option Z.

Abbreviation getSiteEvents' :=
  (getSiteEvents network parseReleaseJSON dateValue).
Abbreviation runs' := (runs network parseReleaseJSON dateValue).
Abbreviation wellFormedCatalog' := (wellFormedCatalog dateValue).
Abbreviation fetchJointProbabilityData' :=
  (fetchJointProbabilityData network parseReleaseJSON dateValue).
Abbreviation updateEventUI' :=
  (updateEventUI network parseReleaseJSON dateValue).

Lemma parseXtremEventCSV_wellFormed (csvText : string) (e : Event.t) :
  In e (parseXtremEventCSV csvText) -> wellFormedEvent e.
Proof.
  intros Hin. apply In_parseXtremEventCSV in Hin.
  destruct Hin as (line & _ & Hrow).
  apply rowEvent_Some in Hrow.
  destruct Hrow as (d & peak & sg & _ & Hd & _ & Hpeak & Htide & _ & Hsg
                    & Hrunup & Hid & Htwl & Hcomp).
  unfold wellFormedEvent. rewrite Hid, Htwl, Hcomp.
  split; [exact Hd|]. split; [exact Hpeak|].
  eexists _, _, _. split; [reflexivity|]. auto.
Qed.

Lemma wellFormedCatalog_empty : wellFormedCatalog' emptyCatalog.
Proof.
  split; [reflexivity|]. split; [constructor|]. intros _. constructor.
Qed.

Lemma wellFormedCatalog_parsed (csvText : string) :
  wellFormedCatalog' (parsedCatalog dateValue csvText).
Proof.
  split; [reflexivity|]. split.
  - unfold parsedCatalog. cbn [events].
    eapply Permutation_Forall;
      [apply Permutation_sym, sortBy_perm|].
    apply List.Forall_forall. intros e.
    apply parseXtremEventCSV_wellFormed.
  - apply parsedCatalog_sorted.
Qed.

(** Every catalog object of the page is well formed, however the calls
    are interleaved. *)
Lemma runs_wellFormed (p : Process) :
  runs' initialProcess p -> storeInvariant wellFormedCatalog' (world p).
Proof.
  intros Hruns.
  apply (processOk_reachable network parseReleaseJSON dateValue
           wellFormedCatalog' p wellFormedCatalog_empty
           wellFormedCatalog_parsed Hruns).
Qed.

(** What a catalog request that runs with nothing in between returns:
    the inherited member, for an inherited name, and else the catalog
    the cache holds under that name afterwards. *)
Lemma getSiteEvents_catalog (siteId : string) (w : World) :
  storeInvariant wellFormedCatalog' w ->
  (siteId ∈ objectPrototypeKeys
   /\ getSiteEvents' siteId w = (Inherited siteId, w))
  \/ ((siteId ∉ objectPrototypeKeys)
      /\ exists r c,
           fst (getSiteEvents' siteId w) = Catalog r
           /\ EVENT_DATA_CACHE (snd (getSiteEvents' siteId w)) !! siteId
              = Some r
           /\ heap (snd (getSiteEvents' siteId w)) !! r = Some c
           /\ deref (snd (getSiteEvents' siteId w)) r = c
           /\ wellFormedCatalog' c).
Proof.
  intros Hinv. pose proof (cacheEntry_cases _ w siteId Hinv) as Hcase.
  destruct (cacheEntry w siteId) as [entry|] eqn:Hentry.
  - unfold getSiteEvents.
    rewrite (fetchAndParseXtremEvents_hit _ _ _ _ _ _ Hentry).
    destruct entry as [r|key]; cbn [entryOk] in Hcase.
    + right. destruct Hcase as [Hplain (c & Hc & Hwf)].
      split; [exact Hplain|]. exists r, c. cbn [fst snd].
      split; [reflexivity|].
      split; [apply cacheEntry_Catalog, Hentry|].
      split; [exact Hc|]. split; [|exact Hwf].
      unfold deref. rewrite Hc. reflexivity.
    + left. destruct Hcase as [-> Hk]. split; [exact Hk|reflexivity].
  - right. destruct Hcase as [_ Hplain]. split; [exact Hplain|].
    destruct (getSiteEvents_miss network parseReleaseJSON dateValue
                siteId w Hentry) as (Hr & Hcache & Hheap & _).
    cbv zeta in Hheap.
    eexists _, _. split; [exact Hr|].
    split; [rewrite Hcache; apply lookup_insert_eq|].
    assert (Hlook : forall c,
              (heap w ++ [c]) !! List.length (heap w) = Some c)
      by (intros c; apply list_lookup_middle; reflexivity).
    split; [rewrite Hheap; apply Hlook|].
    split; [unfold deref; rewrite Hheap, Hlook; reflexivity|].
    destruct (truthy _); [|apply wellFormedCatalog_empty].
    apply catalogOfOutcome_cases;
      [apply wellFormedCatalog_empty|apply wellFormedCatalog_parsed].
Qed.

(** The bar plot of an event of a well-formed catalog. *)
Lemma componentsOf_event (c : EventCatalog) (e : Event.t) :
  wellFormedCatalog' c -> In e (events c) ->
  exists e' tide surge runup,
    In e' (events c) /\ Event.id e' = Event.id e
    /\ componentsOf c (Event.id e)
       = {| Component.components := ["Tide "; "SSH"; "Wave Runup"]%string;
            Component.contributions := [tide; surge; runup];
            Component.twlPeak := Some (Event.twl_peak e') |}
    /\ Event.twl_components e' = [tide; surge; runup]
    /\ Num.ge tide Num.zero = true
    /\ Num.ge surge Num.zero = true
    /\ Num.ge runup Num.zero = true
    /\ Num.gt (Event.twl_peak e') Num.zero = true.
Proof.
  intros (_ & Hwf & _) Hin.
  destruct (find_id_Some _ _ Hin) as (e' & Hfind & Hin' & Hid).
  pose proof (proj1 (List.Forall_forall _ _) Hwf e' Hin') as Hwfe.
  destruct Hwfe as (_ & Hpeak & tide & surge & runup & Hcomp & Ht & Hs & Hr).
  exists e', tide, surge, runup.
  split; [exact Hin'|]. split; [exact Hid|].
  split; [|auto 10].
  unfold componentsOf. rewrite Hfind, Hcomp. reflexivity.
Qed.

(** X11.  The bar plot of an event reads the cache only, in one step.
    In every state a run of the page can reach, however its calls are
    interleaved, [fetchEventComponentData] never changes the state.
    When the cache holds a catalog under the site, then for every event
    of that catalog it answers with the three labels, the three
    components of the first event of the catalog that carries this date,
    none of them negative, and its peak, which is above zero; for a date
    no event of the catalog carries it answers with the empty result.
    When the cache holds nothing under the site it answers with the
    empty result, unless the site is the name of an inherited member:
    then it throws. *)
Theorem fetchEventComponentData_cached_event (p : Process)
  (siteId : string) :
  runs' initialProcess p ->
  let w := world p in
  (forall eventId, snd (fetchEventComponentData siteId eventId w) = w)
  /\ (forall c,
        catalogAt w siteId = Some c ->
        (forall e,
           In e (events c) ->
           exists e' tide surge runup,
             In e' (events c) /\ Event.id e' = Event.id e
             /\ fst (fetchEventComponentData siteId (Event.id e) w)
                = Some
                    {| Component.components :=
                         ["Tide "; "SSH"; "Wave Runup"]%string;
                       Component.contributions := [tide; surge; runup];
                       Component.twlPeak := Some (Event.twl_peak e') |}
             /\ Event.twl_components e' = [tide; surge; runup]
             /\ Num.ge tide Num.zero = true
             /\ Num.ge surge Num.zero = true
             /\ Num.ge runup Num.zero = true
             /\ Num.gt (Event.twl_peak e') Num.zero = true)
        /\ (forall eventId,
              (forall e, In e (events c) -> Event.id e <> eventId) ->
              fst (fetchEventComponentData siteId eventId w)
              = Some Component.none))
  /\ (catalogAt w siteId = None ->
      forall eventId,
        fst (fetchEventComponentData siteId eventId w)
        = if bool_decide (siteId ∈ objectPrototypeKeys) then None
          else Some Component.none).
Proof.
  intros Hruns. cbv zeta.
  pose proof (runs_wellFormed p Hruns) as Hinv.
  split; [reflexivity|]. split.
  - intros c Hc. unfold catalogAt in Hc.
    destruct (EVENT_DATA_CACHE (world p) !! siteId) as [r|] eqn:Hr;
      [|discriminate].
    pose proof (storeInvariant_heap _ _ _ _ Hinv Hc) as Hwf.
    assert (Hview : forall eventId,
              fst (fetchEventComponentData siteId eventId (world p))
              = Some (componentsOf c eventId)).
    { intros eventId. unfold fetchEventComponentData. cbn [fst].
      rewrite (cacheEntry_own _ _ _ Hr). cbn [viewOf]. unfold deref.
      rewrite Hc. reflexivity. }
    split.
    + intros e Hin.
      destruct (componentsOf_event c e Hwf Hin)
        as (e' & tide & surge & runup & H1 & H2 & H3 & H4).
      exists e', tide, surge, runup.
      split; [exact H1|]. split; [exact H2|].
      split; [rewrite Hview, H3; reflexivity|exact H4].
    + intros eventId Hnone. rewrite Hview. unfold componentsOf.
      rewrite (find_id_None _ _ Hnone). reflexivity.
  - intros Hnone eventId. unfold catalogAt in Hnone.
    unfold fetchEventComponentData, cacheEntry. cbn [fst].
    destruct (EVENT_DATA_CACHE (world p) !! siteId) as [r|] eqn:Hr.
    + destruct (storeInvariant_catalogAt _ _ _ _ Hinv Hr)
        as [_ (c & Hc & _)].
      congruence.
    + destruct (bool_decide (siteId ∈ objectPrototypeKeys)); reflexivity.
Qed.

(** The five sequences of the joint-probability view of a well-formed
    catalog. *)
Lemma jointProbabilityOf_aligned (c : EventCatalog) :
  wellFormedCatalog' c ->
  let d := jointProbabilityOf c in
  Joint.dates d = map Event.id (events c)
  /\ Joint.twl_peak d = map Event.twl_peak (events c)
  /\ Joint.hs d = map Event.Hs (events c)
  /\ Joint.dur_h d = map Event.dur_h (events c)
  /\ Forall2
       (fun e t =>
          exists tide,
            t = Some tide /\ head (Event.twl_components e) = Some tide
            /\ Num.ge tide Num.zero = true)
       (events c) (Joint.tide_sla d)
  /\ List.length (Joint.dates d) = count c
  /\ List.length (Joint.tide_sla d) = count c.
Proof.
  intros (Hcount & Hwf & _). cbv zeta. unfold jointProbabilityOf.
  assert (Htide : Forall2
            (fun e t =>
               exists tide,
                 t = Some tide /\ head (Event.twl_components e) = Some tide
                 /\ Num.ge tide Num.zero = true)
            (events c)
            (map (fun e => Event.twl_components e !! 0%nat) (events c))).
  { clear Hcount. induction Hwf as [|e evs He _ IH]; [constructor|].
    cbn [map]. constructor; [|exact IH].
    destruct He as (_ & _ & tide & surge & runup & Hcomp & Ht & _).
    exists tide. rewrite Hcomp. auto. }
  destruct (count c =? 0)%nat eqn:Hzero.
  - apply Nat.eqb_eq in Hzero. rewrite Hzero in Hcount.
    destruct (events c) as [|e evs]; [|discriminate].
    cbn. rewrite Hzero. repeat split; constructor.
  - cbn [Joint.dates Joint.twl_peak Joint.hs Joint.dur_h Joint.tide_sla].
    rewrite !length_map.
    repeat split; solve [exact Htide | symmetry; exact Hcount].
Qed.

Lemma fetchJointProbabilityData_eq (siteId : string) (w : World) :
  fetchJointProbabilityData' siteId w
  = (viewOf jointProbabilityOf (snd (getSiteEvents' siteId w))
       (fst (getSiteEvents' siteId w)),
     snd (getSiteEvents' siteId w)).
Proof.
  unfold fetchJointProbabilityData, bind, getSiteEvents.
  destruct (fetchAndParseXtremEvents _ _ _ siteId w). reflexivity.
Qed.

(** X12.  The joint-probability view is the catalog of the site, column
    by column.  Of every catalog object of the page, in every state a
    run can reach however its calls are interleaved, the five sequences
    are aligned with its events: the dates, peaks, wave heights and
    durations of the events in catalog order, and for the tide the first
    component of each event, which is always there and never negative;
    each sequence has as many entries as the catalog counts events.  A
    request that runs with nothing in between returns these sequences
    for the catalog it leaves in the cache under the site and changes
    the state as [getSiteEvents] does; for the name of an inherited
    member it throws and changes nothing. *)
Theorem fetchJointProbabilityData_aligned (p : Process) (siteId : string) :
  runs' initialProcess p ->
  let aligned (c : EventCatalog) (d : Joint.t) :=
    Joint.dates d = map Event.id (events c)
    /\ Joint.twl_peak d = map Event.twl_peak (events c)
    /\ Joint.hs d = map Event.Hs (events c)
    /\ Joint.dur_h d = map Event.dur_h (events c)
    /\ Forall2
         (fun e t =>
            exists tide,
              t = Some tide /\ head (Event.twl_components e) = Some tide
              /\ Num.ge tide Num.zero = true)
         (events c) (Joint.tide_sla d)
    /\ List.length (Joint.dates d) = count c
    /\ List.length (Joint.tide_sla d) = count c in
  let result := fetchJointProbabilityData' siteId (world p) in
  (forall r c,
     heap (world p) !! r = Some c ->
     viewOf jointProbabilityOf (world p) (Catalog r)
     = Some (jointProbabilityOf c)
     /\ aligned c (jointProbabilityOf c))
  /\ (siteId ∈ objectPrototypeKeys -> result = (None, world p))
  /\ (siteId ∉ objectPrototypeKeys ->
      exists c d,
        catalogAt (snd result) siteId = Some c
        /\ fst result = Some d
        /\ snd result = snd (getSiteEvents' siteId (world p))
        /\ aligned c d).
Proof.
  intros Hruns. cbv zeta.
  pose proof (runs_wellFormed p Hruns) as Hinv.
  split; [|split].
  - intros r c Hc. split.
    + cbn [viewOf]. unfold deref. rewrite Hc. reflexivity.
    + apply jointProbabilityOf_aligned.
      exact (storeInvariant_heap _ _ _ _ Hinv Hc).
  - intros Hk. rewrite fetchJointProbabilityData_eq.
    destruct (getSiteEvents_catalog siteId _ Hinv)
      as [[_ ->]|[Hplain _]]; [reflexivity|contradiction].
  - intros Hplain. rewrite fetchJointProbabilityData_eq. cbn [fst snd].
    destruct (getSiteEvents_catalog siteId _ Hinv)
      as [[Hk _]|[_ (r & c & Hr & Hcache & Hheap & Hderef & Hwf)]];
      [contradiction|].
    exists c, (jointProbabilityOf c).
    split; [unfold catalogAt; rewrite Hcache; exact Hheap|].
    split; [rewrite Hr; cbn [viewOf]; rewrite Hderef; reflexivity|].
    split; [reflexivity|].
    apply jointProbabilityOf_aligned, Hwf.
Qed.

Lemma updateEventUI_eq (siteId : string) (w : World) :
  updateEventUI' siteId w
  = (viewOf eventUIOf (snd (getSiteEvents' siteId w))
       (fst (getSiteEvents' siteId w)),
     snd (getSiteEvents' siteId w)).
Proof.
  unfold updateEventUI, bind.
  destruct (getSiteEvents _ _ _ siteId w). reflexivity.
Qed.

Lemma notOlder_trans (a b c : Event.t) :
  notOlder dateValue a b -> notOlder dateValue b c -> notOlder dateValue a c.
Proof.
  unfold notOlder.
  destruct (dateValue (Event.id a)), (dateValue (Event.id b)),
    (dateValue (Event.id c)); try tauto. lia.
Qed.

Lemma Sorted_head_notOlder (e : Event.t) (evs : list Event.t) :
  Sorted (notOlder dateValue) (e :: evs) ->
  Forall (notOlder dateValue e) evs.
Proof.
  apply Sorted_extends. intros a b c. apply notOlder_trans.
Qed.

(** What the selector shows for a well-formed catalog. *)
Lemma eventUIOf_first_event (c : EventCatalog) :
  wellFormedCatalog' c ->
  let ui := eventUIOf c in
  eventCountDisplay_innerText ui = List.length (events c)
  /\ (eventSelect_disabled ui = true <-> events c = [])
  /\ (firstEventId ui = None <-> events c = [])
  /\ (forall eventId,
        firstEventId ui = Some eventId ->
        eventId <> EmptyString
        /\ (exists e, In e (events c) /\ Event.id e = eventId)
        /\ Component.twlPeak (componentsOf c eventId) <> None
        /\ (Forall (validDate dateValue) (events c) ->
            exists t0,
              dateValue eventId = Some t0
              /\ forall e,
                   In e (events c) ->
                   exists t, dateValue (Event.id e) = Some t /\ t <= t0)).
Proof.
  intros (Hcount & Hwf & Hsorted). cbv zeta. unfold eventUIOf.
  cbn [eventCountDisplay_innerText eventSelect_disabled firstEventId].
  split; [exact Hcount|]. split; [|split].
  - rewrite Nat.eqb_eq. destruct (events c); cbn; split; congruence.
  - destruct (events c); split; congruence.
  - intros eventId Hfirst. unfold componentsOf.
    destruct (events c) as [|e evs] eqn:Hevs; [discriminate|].
    injection Hfirst as <-.
    pose proof (Forall_inv Hwf) as (Hid & _).
    split; [exact Hid|].
    split; [exists e; split; [left; reflexivity|reflexivity]|].
    split.
    + cbn [List.find]. rewrite String.eqb_refl. cbn. discriminate.
    + intros Hvalid. pose proof (Hsorted Hvalid) as Hs.
      pose proof (Sorted_head_notOlder _ _ Hs) as Hhead.
      pose proof (Forall_inv Hvalid) as Hve. unfold validDate in Hve.
      destruct (dateValue (Event.id e)) as [t0|] eqn:Ht0; [|congruence].
      exists t0. split; [reflexivity|].
      intros e' [<-|Hin].
      * exists t0. split; [exact Ht0|lia].
      * pose proof (proj1 (List.Forall_forall _ _) Hhead e' Hin) as Hno.
        unfold notOlder in Hno. rewrite Ht0 in Hno.
        destruct (dateValue (Event.id e')) as [t|]; [|contradiction].
        exists t. split; [reflexivity|exact Hno].
Qed.

(** X13.  The event selector after a site is chosen.  For every catalog
    object of the page, in every state a run can reach however its calls
    are interleaved, the selector shows the number of its events; it is
    disabled exactly when the catalog has no event, which is exactly
    when null is returned; otherwise the date returned is that of an
    event of the catalog, the bar plot finds an event of the catalog for
    it, and when all the dates of the catalog are valid no event of the
    catalog is more recent than the one returned.  An [updateEventUI]
    that runs with nothing in between shows the catalog it leaves in the
    cache under the site, and the bar plot of the same site then finds
    the event returned; for the name of an inherited member it throws
    and changes nothing. *)
Theorem updateEventUI_first_event (p : Process) (siteId : string) :
  runs' initialProcess p ->
  let shown (c : EventCatalog) (ui : EventUI) :=
    eventCountDisplay_innerText ui = List.length (events c)
    /\ (eventSelect_disabled ui = true <-> events c = [])
    /\ (firstEventId ui = None <-> events c = [])
    /\ (forall eventId,
          firstEventId ui = Some eventId ->
          eventId <> EmptyString
          /\ (exists e, In e (events c) /\ Event.id e = eventId)
          /\ Component.twlPeak (componentsOf c eventId) <> None
          /\ (Forall (validDate dateValue) (events c) ->
              exists t0,
                dateValue eventId = Some t0
                /\ forall e,
                     In e (events c) ->
                     exists t, dateValue (Event.id e) = Some t /\ t <= t0)) in
  let result := updateEventUI' siteId (world p) in
  (forall r c,
     heap (world p) !! r = Some c ->
     viewOf eventUIOf (world p) (Catalog r) = Some (eventUIOf c)
     /\ shown c (eventUIOf c))
  /\ (siteId ∈ objectPrototypeKeys -> result = (None, world p))
  /\ (siteId ∉ objectPrototypeKeys ->
      exists c ui,
        catalogAt (snd result) siteId = Some c
        /\ fst result = Some ui
        /\ shown c ui
        /\ forall eventId,
             firstEventId ui = Some eventId ->
             fst (fetchEventComponentData siteId eventId (snd result))
             = Some (componentsOf c eventId)).
Proof.
  intros Hruns. cbv zeta.
  pose proof (runs_wellFormed p Hruns) as Hinv.
  split; [|split].
  - intros r c Hc. split.
    + cbn [viewOf]. unfold deref. rewrite Hc. reflexivity.
    + apply eventUIOf_first_event.
      exact (storeInvariant_heap _ _ _ _ Hinv Hc).
  - intros Hk. rewrite updateEventUI_eq.
    destruct (getSiteEvents_catalog siteId _ Hinv)
      as [[_ ->]|[Hplain _]]; [reflexivity|contradiction].
  - intros Hplain. rewrite updateEventUI_eq. cbn [fst snd].
    destruct (getSiteEvents_catalog siteId _ Hinv)
      as [[Hk _]|[_ (r & c & Hr & Hcache & Hheap & Hderef & Hwf)]];
      [contradiction|].
    exists c, (eventUIOf c).
    split; [unfold catalogAt; rewrite Hcache; exact Hheap|].
    split; [rewrite Hr; cbn [viewOf]; rewrite Hderef; reflexivity|].
    split; [apply eventUIOf_first_event, Hwf|].
    intros eventId _. unfold fetchEventComponentData. cbn [fst].
    rewrite (cacheEntry_own _ _ _ Hcache). cbn [viewOf].
    rewrite Hderef. reflexivity.
Qed.

End ViewProperties.

(** ** The seasonal view *)

Lemma months_NoDup : NoDup months.
Proof. apply (bool_decide_unpack _). vm_compute. exact I. Qed.

Lemma months_lookup_inj (i j : nat) (monthName : string) :
  months !! i = Some monthName -> months !! j = Some monthName -> i = j.
Proof. apply NoDup_lookup, months_NoDup. Qed.

Lemma emptyMonths_lookup (k : string) :
  emptyMonths !! k = if bool_decide (k ∈ months) then Some [] else None.
Proof.
  unfold emptyMonths, months. cbn [fold_left].
  rewrite !lookup_insert, lookup_empty.
  repeat (destruct (decide (_ = k)) as [<-|?];
          [rewrite bool_decide_eq_true_2;
             [reflexivity|
              apply (proj2 (list_elem_of_In _ _)); cbn [In]; tauto]|]).
  rewrite bool_decide_eq_false_2; [reflexivity|].
  intros Hin. apply (proj1 (list_elem_of_In _ _)) in Hin. cbn [In] in Hin.
  intuition congruence.
Qed.

Section SeasonalProperties.

Variable network : nat -> string -> FetchOutcome.
Variable parseReleaseJSON : string -> option (option Release).
Variable dateValue : string -> option Z.
Variable monthIndexOf : string -> option nat.

Abbreviation pushMonth' := (pushMonth monthIndexOf).
Abbreviation fetchSeasonalData' :=
  (fetchSeasonalData network parseReleaseJSON dateValue monthIndexOf).

(** The events of month [i], in the order of the list. *)
Abbreviation ofMonth i evs :=
  (filter (fun e : Event.t => monthIndexOf (Event.id e) = Some i) evs).

Lemma fold_pushMonth_None (evs : list Event.t) :
  fold_left pushMonth' evs None = None.
Proof. induction evs as [|e evs IH]; [reflexivity|exact IH]. Qed.

Lemma fold_pushMonth_invalid (evs : list Event.t)
  (m0 : gmap string (list num)) :
  (exists e, In e evs /\ monthIndexOf (Event.id e) = None) ->
  fold_left pushMonth' evs (Some m0) = None.
Proof.
  revert m0. induction evs as [|e evs IH]; intros m0 (bad & Hin & Hbad).
  - destruct Hin.
  - cbn [fold_left]. destruct Hin as [->|Hin].
    + cbn [pushMonth]. rewrite Hbad. apply fold_pushMonth_None.
    + destruct (pushMonth' (Some m0) e) as [m1|].
      * apply IH. exists bad. auto.
      * apply fold_pushMonth_None.
Qed.

Lemma fold_pushMonth_valid (evs : list Event.t) :
  forall m0 : gmap string (list num),
    (forall i monthName, months !! i = Some monthName ->
                         is_Some (m0 !! monthName)) ->
    (forall e, In e evs ->
               exists i, monthIndexOf (Event.id e) = Some i /\ (i < 12)%nat) ->
    exists m,
      fold_left pushMonth' evs (Some m0) = Some m
      /\ (forall k, is_Some (m !! k) <-> is_Some (m0 !! k))
      /\ forall i monthName,
           months !! i = Some monthName ->
           m !! monthName
           = Some (default [] (m0 !! monthName)
                     ++ map Event.twl_peak (ofMonth i evs)).
Proof.
  induction evs as [|e evs IH]; intros m0 Hall Hvalid.
  - exists m0. split; [reflexivity|]. split; [tauto|].
    intros i monthName Hi. destruct (Hall _ _ Hi) as [v Hv].
    rewrite Hv. cbn. rewrite app_nil_r. reflexivity.
  - destruct (Hvalid e (or_introl eq_refl)) as (i0 & Hi0 & Hlt).
    destruct (lookup_lt_is_Some_2 months i0) as [n0 Hn0]; [exact Hlt|].
    destruct (Hall _ _ Hn0) as [vals Hvals].
    cbn [fold_left]. cbn [pushMonth]. rewrite Hi0, Hn0, Hvals.
    destruct (IH (<[n0 := vals ++ [Event.twl_peak e]]> m0))
      as (m & Hfold & Hkeys & Hbuckets).
    + intros i monthName Hi.
      destruct (decide (monthName = n0)) as [->|Hne].
      * rewrite lookup_insert_eq. eauto.
      * rewrite lookup_insert_ne by congruence. eauto.
    + intros e' Hin. apply Hvalid. right. exact Hin.
    + exists m. split; [exact Hfold|]. split.
      * intros k. rewrite Hkeys.
        destruct (decide (k = n0)) as [->|Hne].
        -- rewrite lookup_insert_eq, Hvals. split; eauto.
        -- rewrite lookup_insert_ne by congruence. tauto.
      * intros i monthName Hi. rewrite (Hbuckets _ _ Hi).
        destruct (decide (monthName = n0)) as [->|Hne].
        -- pose proof (months_lookup_inj _ _ _ Hi Hn0) as ->.
           rewrite lookup_insert_eq, Hvals.
           rewrite filter_cons_True by exact Hi0.
           cbn. rewrite <- app_assoc. reflexivity.
        -- rewrite lookup_insert_ne by congruence.
           rewrite filter_cons_False; [reflexivity|].
           intros Heq. rewrite Hi0 in Heq. injection Heq as <-.
           congruence.
Qed.

(** The buckets of the seasonal view of a catalog. *)
Lemma seasonalOf_buckets (c : EventCatalog) :
  ((forall e, In e (events c) ->
      exists i, monthIndexOf (Event.id e) = Some i /\ (i < 12)%nat) ->
   exists monthlyTWL,
     seasonalOf monthIndexOf c = Some monthlyTWL
     /\ (forall k, is_Some (monthlyTWL !! k) <-> k ∈ months)
     /\ (forall i monthName,
           months !! i = Some monthName ->
           monthlyTWL !! monthName
           = Some (map Event.twl_peak (ofMonth i (events c)))))
  /\ ((exists e, In e (events c) /\ monthIndexOf (Event.id e) = None) ->
      seasonalOf monthIndexOf c = None).
Proof.
  unfold seasonalOf. split.
  - intros Hvalid.
    destruct (fold_pushMonth_valid (events c) emptyMonths)
      as (m & Hfold & Hkeys & Hbuckets).
    + intros i monthName Hi. rewrite emptyMonths_lookup.
      rewrite bool_decide_eq_true_2; [eauto|].
      eapply list_elem_of_lookup_2, Hi.
    + exact Hvalid.
    + exists m. split; [exact Hfold|]. split.
      * intros k. rewrite Hkeys, emptyMonths_lookup.
        destruct (bool_decide (k ∈ months)) eqn:Hk.
        -- apply bool_decide_eq_true_1 in Hk. split; eauto.
        -- apply bool_decide_eq_false_1 in Hk.
           split; [intros [? ?]; discriminate|tauto].
      * intros i monthName Hi. rewrite (Hbuckets _ _ Hi).
        rewrite emptyMonths_lookup.
        rewrite bool_decide_eq_true_2; [reflexivity|].
        eapply list_elem_of_lookup_2, Hi.
  - intros Hbad. apply fold_pushMonth_invalid, Hbad.
Qed.

Lemma fetchSeasonalData_eq (siteId : string) (w : World) :
  fetchSeasonalData' siteId w
  = (mjoin (viewOf (seasonalOf monthIndexOf)
              (snd (getSiteEvents network parseReleaseJSON dateValue
                      siteId w))
              (fst (getSiteEvents network parseReleaseJSON dateValue
                      siteId w))),
     snd (getSiteEvents network parseReleaseJSON dateValue siteId w)).
Proof.
  unfold fetchSeasonalData, bind, getSiteEvents.
  destruct (fetchAndParseXtremEvents _ _ _ siteId w). reflexivity.
Qed.

(** X14.  The seasonal view sorts the peaks of a catalog into the
    twelve months.  For every catalog object of the page, in every state
    a run can reach however its calls are interleaved: when every event
    of the catalog has a date with a month, the object computed has
    exactly the twelve month names as keys, and under each name the
    peaks of the events of that month, in catalog order, so that every
    event is in the bucket of its month and in no other; when the date
    of some event is invalid the view throws.  A request that runs with
    nothing in between computes this for the catalog it leaves in the
    cache under the site; for the name of an inherited member it throws
    and changes nothing. *)
Theorem fetchSeasonalData_buckets (p : Process) (siteId : string) :
  runs network parseReleaseJSON dateValue initialProcess p ->
  let sorted (c : EventCatalog) (res : option (gmap string (list num))) :=
    ((forall e, In e (events c) ->
        exists i, monthIndexOf (Event.id e) = Some i /\ (i < 12)%nat) ->
     exists monthlyTWL,
       res = Some monthlyTWL
       /\ (forall k, is_Some (monthlyTWL !! k) <-> k ∈ months)
       /\ (forall i monthName,
             months !! i = Some monthName ->
             monthlyTWL !! monthName
             = Some (map Event.twl_peak (ofMonth i (events c)))))
    /\ ((exists e, In e (events c) /\ monthIndexOf (Event.id e) = None) ->
        res = None) in
  let result := fetchSeasonalData' siteId (world p) in
  (forall r c,
     heap (world p) !! r = Some c ->
     mjoin (viewOf (seasonalOf monthIndexOf) (world p) (Catalog r))
     = seasonalOf monthIndexOf c
     /\ sorted c (seasonalOf monthIndexOf c))
  /\ (siteId ∈ objectPrototypeKeys -> result = (None, world p))
  /\ (siteId ∉ objectPrototypeKeys ->
      exists c,
        catalogAt (snd result) siteId = Some c
        /\ sorted c (fst result)).
Proof.
  intros Hruns. cbv zeta.
  pose proof (runs_wellFormed network parseReleaseJSON dateValue p Hruns)
    as Hinv.
  split; [|split].
  - intros r c Hc. split; [|apply seasonalOf_buckets].
    cbn [viewOf mjoin option_join]. unfold deref. rewrite Hc. reflexivity.
  - intros Hk. rewrite fetchSeasonalData_eq.
    destruct (getSiteEvents_catalog network parseReleaseJSON dateValue
                siteId _ Hinv)
      as [[_ ->]|[Hplain _]]; [reflexivity|contradiction].
  - intros Hplain. rewrite fetchSeasonalData_eq. cbn [fst snd].
    destruct (getSiteEvents_catalog network parseReleaseJSON dateValue
                siteId _ Hinv)
      as [[Hk _]|[_ (r & c & Hr & Hcache & Hheap & Hderef & _)]];
      [contradiction|].
    exists c.
    split; [unfold catalogAt; rewrite Hcache; exact Hheap|].
    rewrite Hr. cbn [viewOf mjoin option_join]. rewrite Hderef.
    apply seasonalOf_buckets.
Qed.

End SeasonalProperties.

(** ** The interannual view *)

Lemma max_ge_right (a b : num) : Num.le b (Num.max a b) = true.
Proof.
  unfold Num.max. destruct (Num.lt a b) eqn:E; [apply le_refl|].
  rewrite lt_negb_le in E. apply negb_false_iff in E. exact E.
Qed.

Lemma fold_max_ge_start (l : list num) (a : num) :
  Num.le a (fold_left Num.max l a) = true.
Proof.
  revert a. induction l as [|x l IH]; intros a; [apply le_refl|].
  cbn [fold_left]. eapply le_trans; [apply max_ge_left|apply IH].
Qed.

Lemma fold_max_bound (l : list num) (a x : num) :
  In x (a :: l) -> Num.le x (fold_left Num.max l a) = true.
Proof.
  revert a. induction l as [|y l IH]; intros a Hin.
  - destruct Hin as [<-|[]]. apply le_refl.
  - cbn [fold_left]. destruct Hin as [<-|[<-|Hin]].
    + eapply le_trans; [apply max_ge_left|apply fold_max_ge_start].
    + eapply le_trans; [apply max_ge_right|apply fold_max_ge_start].
    + apply IH. right. exact Hin.
Qed.

Lemma fold_max_attained (l : list num) (a : num) :
  In (fold_left Num.max l a) (a :: l).
Proof.
  revert a. induction l as [|y l IH]; intros a; [left; reflexivity|].
  cbn [fold_left]. destruct (IH (Num.max a y)) as [H|H].
  - rewrite <- H. unfold Num.max. destruct (Num.lt a y).
    + right. left. reflexivity.
    + left. reflexivity.
  - right. right. exact H.
Qed.

Lemma lookupYear_storeYear (y k : option Z) (v : Interannual.stats)
  (yearlyData : list (option Z * Interannual.stats)) :
  lookupYear y (storeYear k v yearlyData)
  = if decide (k = y) then Some v else lookupYear y yearlyData.
Proof.
  induction yearlyData as [|[k0 old] r IH]; cbn [storeYear lookupYear].
  - reflexivity.
  - destruct (decide (k0 = k)) as [->|Hne]; cbn [lookupYear].
    + destruct (decide (k = y)); reflexivity.
    + rewrite IH. destruct (decide (k0 = y)) as [->|]; [|reflexivity].
      destruct (decide (k = y)); [congruence|reflexivity].
Qed.

Lemma lookupYear_keys (y : option Z)
  (yearlyData : list (option Z * Interannual.stats)) :
  In y (map fst yearlyData) <-> lookupYear y yearlyData <> None.
Proof.
  induction yearlyData as [|[k0 old] r IH]; cbn [map fst In lookupYear].
  - tauto.
  - destruct (decide (k0 = y)) as [->|Hne].
    + split; [discriminate|auto].
    + rewrite <- IH. tauto.
Qed.

Lemma storeYear_keys (k : option Z) (v : Interannual.stats)
  (yearlyData : list (option Z * Interannual.stats)) :
  map fst (storeYear k v yearlyData)
  = match lookupYear k yearlyData with
    | Some _ => map fst yearlyData
    | None => map fst yearlyData ++ [k]
    end.
Proof.
  induction yearlyData as [|[k0 old] r IH]; cbn [storeYear lookupYear map fst].
  - reflexivity.
  - destruct (decide (k0 = k)) as [->|Hne]; [reflexivity|].
    cbn [map fst]. rewrite IH.
    destruct (lookupYear k r); reflexivity.
Qed.

Lemma storeYear_NoDup (k : option Z) (v : Interannual.stats)
  (yearlyData : list (option Z * Interannual.stats)) :
  NoDup (map fst yearlyData) -> NoDup (map fst (storeYear k v yearlyData)).
Proof.
  intros Hnd. rewrite storeYear_keys.
  destruct (lookupYear k yearlyData) eqn:E; [exact Hnd|].
  apply NoDup_app. split; [exact Hnd|]. split; [|apply NoDup_singleton].
  intros x Hx Hk. apply list_elem_of_singleton in Hk. subst x.
  apply list_elem_of_In, lookupYear_keys in Hx. congruence.
Qed.

(** The index keys and the other keys are all the keys. *)
Lemma objectKeys_perm (yearlyData : list (option Z * Interannual.stats)) :
  Permutation (objectKeys yearlyData) (map fst yearlyData).
Proof.
  unfold objectKeys. cbv zeta. rewrite sortBy_perm.
  induction (map fst yearlyData) as [|k keys IH]; [reflexivity|].
  rewrite !filter_cons. destruct (isIndexKey k).
  - rewrite decide_True by reflexivity.
    rewrite decide_False by discriminate.
    cbn [app]. apply Permutation_cons; [reflexivity|exact IH].
  - rewrite decide_False by discriminate.
    rewrite decide_True by reflexivity.
    rewrite <- Permutation_middle.
    apply Permutation_cons; [reflexivity|exact IH].
Qed.

Lemma keyDifference_le (a b : option Z) :
  a <> None -> b <> None -> keyDifference a b <= 0 ->
  match a, b with Some x, Some y => x <= y | _, _ => False end.
Proof. destruct a, b; cbn; try congruence. lia. Qed.

Lemma keyDifference_gt (a b : option Z) :
  a <> None -> b <> None -> 0 < keyDifference a b ->
  match b, a with Some x, Some y => x <= y | _, _ => False end.
Proof. destruct a, b; cbn; try congruence. lia. Qed.

Lemma Sorted_strict (l : list (option Z)) :
  Sorted (fun a b => match a, b with
                     | Some x, Some y => x <= y
                     | _, _ => False
                     end) l ->
  NoDup l ->
  Sorted (fun a b => match a, b with
                     | Some x, Some y => x < y
                     | _, _ => False
                     end) l.
Proof.
  induction 1 as [|a l Hs IH Hhd]; intros Hnd; [constructor|].
  apply NoDup_cons in Hnd. destruct Hnd as [Hnotin Hnd'].
  constructor; [apply IH, Hnd'|].
  destruct Hhd as [|b l' Hab]; constructor.
  destruct a as [x|], b as [y|]; try contradiction.
  assert (x <> y) by (intros ->; apply Hnotin; left).
  lia.
Qed.

Section InterannualProperties.

Variable network : nat -> string -> FetchOutcome.
Variable parseReleaseJSON : string -> option (option Release).
Variable dateValue : string -> option Z.
Variable fullYearOf : string -> option Z.

Abbreviation pushYear' := (pushYear fullYearOf).
Abbreviation yearlyDataOf' := (yearlyDataOf fullYearOf).
Abbreviation fetchInterannualData' :=
  (fetchInterannualData network parseReleaseJSON dateValue fullYearOf).

(** The events of year [y], in the order of the list. *)
Abbreviation ofYear y evs :=
  (filter (fun e : Event.t => fullYearOf (Event.id e) = y) evs).

Lemma lookupYear_pushYear (y : option Z) (event : Event.t)
  (yearlyData : list (option Z * Interannual.stats)) :
  lookupYear y (pushYear' yearlyData event)
  = if decide (fullYearOf (Event.id event) = y) then
      match lookupYear y yearlyData with
      | Some st =>
          Some {| Interannual.max_twl :=
                    Num.max (Interannual.max_twl st) (Event.twl_peak event);
                  Interannual.events_count :=
                    Interannual.events_count st + 1 |}
      | None =>
          Some {| Interannual.max_twl := Event.twl_peak event;
                  Interannual.events_count := 1 |}
      end
    else lookupYear y yearlyData.
Proof.
  unfold pushYear. cbv zeta.
  destruct (lookupYear (fullYearOf (Event.id event)) yearlyData)
    as [st|] eqn:E.
  - rewrite E, lookupYear_storeYear.
    destruct (decide (fullYearOf (Event.id event) = y)) as [<-|];
      [rewrite E|]; reflexivity.
  - rewrite lookupYear_storeYear, decide_True by reflexivity.
    rewrite !lookupYear_storeYear.
    destruct (decide (fullYearOf (Event.id event) = y)) as [<-|];
      [rewrite E|reflexivity].
    cbn [Interannual.max_twl Interannual.events_count].
    unfold Num.max. rewrite lt_irrefl. reflexivity.
Qed.

Lemma pushYear_NoDup (event : Event.t)
  (yearlyData : list (option Z * Interannual.stats)) :
  NoDup (map fst yearlyData) -> NoDup (map fst (pushYear' yearlyData event)).
Proof.
  intros Hnd. unfold pushYear. cbv zeta.
  destruct (lookupYear (fullYearOf (Event.id event)) yearlyData) eqn:E.
  - rewrite E. apply storeYear_NoDup, Hnd.
  - rewrite lookupYear_storeYear, decide_True by reflexivity.
    apply storeYear_NoDup, storeYear_NoDup, Hnd.
Qed.

Lemma yearlyDataOf_snoc (evs : list Event.t) (event : Event.t) :
  yearlyDataOf' (evs ++ [event]) = pushYear' (yearlyDataOf' evs) event.
Proof. unfold yearlyDataOf. rewrite fold_left_app. reflexivity. Qed.

Lemma yearlyDataOf_NoDup (evs : list Event.t) :
  NoDup (map fst (yearlyDataOf' evs)).
Proof.
  induction evs as [|e evs IH] using rev_ind; [constructor|].
  rewrite yearlyDataOf_snoc. apply pushYear_NoDup, IH.
Qed.

(** The entry of a year after the loop: none when no event is of that
    year, else the number of its events and the maximum of their peaks,
    folded in the order of the list. *)
Lemma lookupYear_yearlyDataOf (y : option Z) (evs : list Event.t) :
  lookupYear y (yearlyDataOf' evs)
  = match map Event.twl_peak (ofYear y evs) with
    | [] => None
    | p :: ps =>
        Some {| Interannual.max_twl := fold_left Num.max ps p;
                Interannual.events_count := S (List.length ps) |}
    end.
Proof.
  induction evs as [|e evs IH] using rev_ind; [reflexivity|].
  rewrite yearlyDataOf_snoc, lookupYear_pushYear, IH.
  rewrite filter_app, map_app, filter_cons, filter_nil.
  destruct (decide (fullYearOf (Event.id e) = y)) as [Hy|Hy].
  - cbn [map].
    destruct (map Event.twl_peak (ofYear y evs)) as [|p ps]; [reflexivity|].
    cbn [app Interannual.max_twl Interannual.events_count].
    rewrite fold_left_app, length_app. cbn [fold_left List.length].
    reflexivity.
  - cbn [map]. rewrite app_nil_r. reflexivity.
Qed.

(** The interannual view of a catalog, year by year. *)
Lemma interannualOf_per_year (c : EventCatalog) :
  let d := interannualOf (yearlyDataOf' (events c)) in
    List.length (Interannual.max_twls d)
    = List.length (Interannual.years d)
    /\ List.length (Interannual.events_counts d)
       = List.length (Interannual.years d)
    /\ NoDup (Interannual.years d)
    /\ (forall y,
          In y (Interannual.years d)
          <-> exists e, In e (events c) /\ fullYearOf (Event.id e) = y)
    /\ (forall k y,
          Interannual.years d !! k = Some y ->
          Interannual.events_counts d !! k
          = Some (List.length (ofYear y (events c)))
          /\ exists m,
               Interannual.max_twls d !! k = Some (Num.toFixedNumber 3 m)
               /\ (exists e,
                     In e (events c) /\ fullYearOf (Event.id e) = y
                     /\ Event.twl_peak e = m)
               /\ forall e,
                    In e (events c) -> fullYearOf (Event.id e) = y ->
                    Num.le (Event.twl_peak e) m = true)
    /\ ((forall e, In e (events c) -> fullYearOf (Event.id e) <> None) ->
        Sorted (fun a b => match a, b with
                           | Some x, Some y => x < y
                           | _, _ => False
                           end) (Interannual.years d)).
Proof.
  cbv zeta.
  set (yearlyData := yearlyDataOf' (events c)).
  unfold interannualOf. cbv zeta.
  cbn [Interannual.years Interannual.max_twls Interannual.events_counts].
  set (sortedYears := sortBy keyDifference (objectKeys yearlyData)).
  assert (Hperm : Permutation sortedYears (map fst yearlyData)).
  { unfold sortedYears. rewrite sortBy_perm. apply objectKeys_perm. }
  assert (Hkeys : forall y,
            In y sortedYears
            <-> exists e, In e (events c) /\ fullYearOf (Event.id e) = y).
  { intros y. split.
    - intros Hin. eapply Permutation_in in Hin; [|exact Hperm].
      apply lookupYear_keys in Hin. unfold yearlyData in Hin.
      rewrite lookupYear_yearlyDataOf in Hin.
      destruct (ofYear y (events c)) as [|e evs] eqn:E; [contradiction|].
      assert (He : e ∈ ofYear y (events c)) by (rewrite E; left).
      apply list_elem_of_filter in He. destruct He as [Hy He].
      exists e. split; [apply list_elem_of_In, He|exact Hy].
    - intros (e & Hin & Hy).
      eapply Permutation_in; [apply Permutation_sym, Hperm|].
      apply lookupYear_keys. unfold yearlyData.
      rewrite lookupYear_yearlyDataOf.
      assert (He : e ∈ ofYear y (events c)).
      { apply list_elem_of_filter. split; [exact Hy|].
        apply list_elem_of_In, Hin. }
      destruct (ofYear y (events c)); [inversion He|discriminate]. }
  split; [apply length_map|]. split; [apply length_map|].
  split.
  { rewrite Hperm. apply yearlyDataOf_NoDup. }
  split; [exact Hkeys|]. split.
  - intros k y Hk. rewrite !lookup_map, Hk. cbn [option_map].
    unfold yearlyData. rewrite lookupYear_yearlyDataOf.
    assert (Hin : In y sortedYears).
    { apply list_elem_of_In. eapply list_elem_of_lookup_2, Hk. }
    apply Hkeys in Hin. destruct Hin as (e0 & Hin0 & Hy0).
    assert (He0 : e0 ∈ ofYear y (events c)).
    { apply list_elem_of_filter. split; [exact Hy0|].
      apply list_elem_of_In, Hin0. }
    assert (Hmem : forall p,
              In p (map Event.twl_peak (ofYear y (events c)))
              <-> exists e, In e (events c) /\ fullYearOf (Event.id e) = y
                            /\ Event.twl_peak e = p).
    { intros p. rewrite in_map_iff. split.
      - intros (e & Hp & He). apply list_elem_of_In in He.
        apply list_elem_of_filter in He. destruct He as [Hy He].
        exists e. split; [apply list_elem_of_In, He|]. auto.
      - intros (e & Hin & Hy & Hp). exists e. split; [exact Hp|].
        apply list_elem_of_In, list_elem_of_filter. split; [exact Hy|].
        apply list_elem_of_In, Hin. }
    rewrite <- (length_map Event.twl_peak (ofYear y (events c))).
    destruct (map Event.twl_peak (ofYear y (events c))) as [|p ps] eqn:E.
    { apply (f_equal (@List.length _)) in E. rewrite length_map in E.
      destruct (ofYear y (events c)); [inversion He0|discriminate]. }
    cbn [default from_option Interannual.max_twl Interannual.events_count].
    split; [reflexivity|].
    exists (fold_left Num.max ps p). split; [reflexivity|]. split.
    + apply Hmem, fold_max_attained.
    + intros e Hin Hy. apply fold_max_bound, Hmem. eauto.
  - intros Hvalid. apply Sorted_strict.
    + unfold sortedYears.
      apply (sortBy_sorted keyDifference _ (fun a => a <> None)
               keyDifference_le keyDifference_gt).
      eapply Permutation_Forall;
        [apply Permutation_sym, objectKeys_perm|].
      apply List.Forall_forall. intros y Hin.
      assert (Hin' : In y sortedYears).
      { eapply Permutation_in; [apply Permutation_sym, Hperm|exact Hin]. }
      apply Hkeys in Hin'. destruct Hin' as (e & He & <-).
      apply Hvalid, He.
    + rewrite Hperm. apply yearlyDataOf_NoDup.
Qed.

Lemma fetchInterannualData_eq (siteId : string) (w : World) :
  fetchInterannualData' siteId w
  = (viewOf (fun c => interannualOf (yearlyDataOf' (events c)))
       (snd (getSiteEvents network parseReleaseJSON dateValue siteId w))
       (fst (getSiteEvents network parseReleaseJSON dateValue siteId w)),
     snd (getSiteEvents network parseReleaseJSON dateValue siteId w)).
Proof.
  unfold fetchInterannualData, bind, getSiteEvents.
  destruct (fetchAndParseXtremEvents _ _ _ siteId w). reflexivity.
Qed.

(** X15.  The interannual view has one entry for each year in which a
    catalog has an event.  For every catalog object of the page, in
    every state a run can reach however its calls are interleaved, the
    three sequences computed have the same length; the years are the
    years of the events, each once; at every position stand a year, the
    number of events of the catalog in that year and the highest peak
    among them, rounded to three decimals and read back as a Number; and
    when the date of every event is valid the years are in strictly
    ascending order.  A request that runs with nothing in between
    returns these sequences for the catalog it leaves in the cache under
    the site; for the name of an inherited member it throws and changes
    nothing. *)
Theorem fetchInterannualData_per_year (p : Process) (siteId : string) :
  runs network parseReleaseJSON dateValue initialProcess p ->
  let perYear (c : EventCatalog) (d : Interannual.t) :=
    List.length (Interannual.max_twls d)
    = List.length (Interannual.years d)
    /\ List.length (Interannual.events_counts d)
       = List.length (Interannual.years d)
    /\ NoDup (Interannual.years d)
    /\ (forall y,
          In y (Interannual.years d)
          <-> exists e, In e (events c) /\ fullYearOf (Event.id e) = y)
    /\ (forall k y,
          Interannual.years d !! k = Some y ->
          Interannual.events_counts d !! k
          = Some (List.length (ofYear y (events c)))
          /\ exists m,
               Interannual.max_twls d !! k = Some (Num.toFixedNumber 3 m)
               /\ (exists e,
                     In e (events c) /\ fullYearOf (Event.id e) = y
                     /\ Event.twl_peak e = m)
               /\ forall e,
                    In e (events c) -> fullYearOf (Event.id e) = y ->
                    Num.le (Event.twl_peak e) m = true)
    /\ ((forall e, In e (events c) -> fullYearOf (Event.id e) <> None) ->
        Sorted (fun a b => match a, b with
                           | Some x, Some y => x < y
                           | _, _ => False
                           end) (Interannual.years d)) in
  let result := fetchInterannualData' siteId (world p) in
  (forall r c,
     heap (world p) !! r = Some c ->
     viewOf (fun c => interannualOf (yearlyDataOf' (events c))) (world p)
       (Catalog r)
     = Some (interannualOf (yearlyDataOf' (events c)))
     /\ perYear c (interannualOf (yearlyDataOf' (events c))))
  /\ (siteId ∈ objectPrototypeKeys -> result = (None, world p))
  /\ (siteId ∉ objectPrototypeKeys ->
      exists c d,
        catalogAt (snd result) siteId = Some c
        /\ fst result = Some d
        /\ perYear c d).
Proof.
  intros Hruns. cbv zeta.
  pose proof (runs_wellFormed network parseReleaseJSON dateValue p Hruns)
    as Hinv.
  split; [|split].
  - intros r c Hc. split; [|apply interannualOf_per_year].
    cbn [viewOf]. unfold deref. rewrite Hc. reflexivity.
  - intros Hk. rewrite fetchInterannualData_eq.
    destruct (getSiteEvents_catalog network parseReleaseJSON dateValue
                siteId _ Hinv)
      as [[_ ->]|[Hplain _]]; [reflexivity|contradiction].
  - intros Hplain. rewrite fetchInterannualData_eq. cbn [fst snd].
    destruct (getSiteEvents_catalog network parseReleaseJSON dateValue
                siteId _ Hinv)
      as [[Hk _]|[_ (r & c & Hr & Hcache & Hheap & Hderef & _)]];
      [contradiction|].
    exists c, (interannualOf (yearlyDataOf' (events c))).
    split; [unfold catalogAt; rewrite Hcache; exact Hheap|].
    split; [rewrite Hr; cbn [viewOf]; rewrite Hderef; reflexivity|].
    apply interannualOf_per_year.
Qed.

End InterannualProperties.

(** ** Event dates and the page *)






(** ** The forecast of one site, whatever the network does *)

Section ForecastRequest.

Variable network : nat -> string -> FetchOutcome.
Variable parseReleaseJSON : string -> option (option Release).
Variable weekdayOf : nat -> string.
Variable monthDayOf : nat -> string.
Variable yearOf : nat -> string.

Lemma fetchAndParseForecastWith_hands_site_back (runDate : string)
  (site : Site) (w : World) :
  let result :=
    fetchAndParseForecastWith network parseReleaseJSON weekdayOf monthDayOf
      yearOf runDate site w in
  exists forecastData sent,
    fst result = withForecast site forecastData
    /\ (List.length (daily forecastData) <= NUM_DAYS)%nat
    /\ fetched (snd result) = fetched w ++ sent
    /\ (List.length sent <= 2)%nat
    /\ EVENT_DATA_CACHE (snd result) = EVENT_DATA_CACHE w
    /\ heap (snd result) = heap w.
Proof.
  cbv zeta. rewrite fetchAndParseForecastWith_eq. cbv zeta.
  destruct (getAssetDownloadUrl_store network parseReleaseJSON
              (forecastAssetName runDate site) w)
    as (Hcache & Hheap & Hfetched).
  set (w1 := snd (getAssetDownloadUrl network parseReleaseJSON
                    (forecastAssetName runDate site) w)) in *.
  set (finalUrl := fst (getAssetDownloadUrl network parseReleaseJSON
                          (forecastAssetName runDate site) w)).
  assert (Hmeta : (List.length (match RELEASE_INFO w with
                                | Some _ => []
                                | None => [releaseUrl]
                                end) <= 1)%nat).
  { destruct (RELEASE_INFO w); cbn; lia. }
  destruct (truthy finalUrl).
  - cbn [fst snd fetch fetched EVENT_DATA_CACHE heap].
    assert (Hfd : exists forecastData,
              forecastOfOutcome weekdayOf monthDayOf yearOf site
                (network (List.length (fetched w1))
                   (default EmptyString finalUrl))
              = withForecast site forecastData
              /\ (List.length (daily forecastData) <= NUM_DAYS)%nat).
    { unfold forecastOfOutcome.
      destruct (network _ _) as [|response];
        [exists emptySeries; split; [reflexivity|cbn; lia]|].
      destruct (ok response);
        [|exists emptySeries; split; [reflexivity|cbn; lia]].
      destruct (body response) as [csvText|];
        [|exists emptySeries; split; [reflexivity|cbn; lia]].
      rewrite parseForecastCSV_spec. eexists. split; [reflexivity|].
      cbn [daily]. rewrite length_map, length_seq.
      unfold daysEmitted. apply Nat.le_min_l. }
    destruct Hfd as (forecastData & Hfd & Hlen).
    exists forecastData. eexists. split; [exact Hfd|]. split; [exact Hlen|].
    split; [rewrite Hfetched, <- app_assoc; reflexivity|].
    split; [rewrite length_app; cbn [List.length]; lia|].
    split; assumption.
  - cbn [fst snd]. exists emptySeries. eexists.
    split; [reflexivity|]. split; [cbn; lia|].
    split; [exact Hfetched|]. split; [lia|]. split; assumption.
Qed.

(** X16.  A forecast request hands the site back, or rejects before it
    has requested anything.  On a page that defines the global
    [SELECTED_RUN_DATE] as a string, whatever the release, the network
    and the text of the CSV, [fetchAndParseForecast] returns the site it
    was given with every field as it was except the forecast, which is
    an object and never null, with at most seven daily entries; it sends
    at most two requests (the release metadata, when not held, and the
    asset) and leaves the event cache alone.  Without that global, which
    [script.js] does not declare, the call rejects at its second
    statement and the state stays as it is. *)
Theorem fetchAndParseForecast_hands_site_back
  (SELECTED_RUN_DATE : option string) (site : Site) (w : World) :
  let result :=
    fetchAndParseForecast network parseReleaseJSON SELECTED_RUN_DATE
      weekdayOf monthDayOf yearOf site w in
  match SELECTED_RUN_DATE with
  | Some runDate =>
      exists forecastData sent,
        fst result = Some (withForecast site forecastData)
        /\ (List.length (daily forecastData) <= NUM_DAYS)%nat
        /\ fetched (snd result) = fetched w ++ sent
        /\ (List.length sent <= 2)%nat
        /\ EVENT_DATA_CACHE (snd result) = EVENT_DATA_CACHE w
        /\ heap (snd result) = heap w
  | None => result = (None, w)
  end.
Proof.
  cbv zeta. destruct SELECTED_RUN_DATE as [runDate|]; [|reflexivity].
  rewrite fetchAndParseForecast_defined. cbn [fst snd].
  destruct (fetchAndParseForecastWith_hands_site_back runDate site w)
    as (forecastData & sent & H1 & H2).
  exists forecastData, sent. rewrite H1. split; [reflexivity|exact H2].
Qed.

End ForecastRequest.

(** ** The views on a sample catalog *)

Lemma fetchEventComponentData_cached_event_witness :
  runs sampleNetwork sampleReleaseJSON isoDateValue initialProcess
    sampleProcess
  /\ fetchEventComponentData "TOGO" "1999-12-31" (world sampleProcess)
     = (Some Component.none, world sampleProcess)
  /\ fetchEventComponentData "toString" "1999-12-31" (world sampleProcess)
     = (None, world sampleProcess).
Proof.
  split; [exact sampleProcess_runs|].
  destruct (fetchEventComponentData_cached_event sampleNetwork
              sampleReleaseJSON isoDateValue sampleProcess "TOGO"
              sampleProcess_runs)
    as (Hsame & Hcatalog & _).
  destruct (fetchEventComponentData_cached_event sampleNetwork
              sampleReleaseJSON isoDateValue sampleProcess "toString"
              sampleProcess_runs)
    as (Hsame' & _ & Hnone).
  split.
  - apply injective_projections; [|apply Hsame]. cbn [fst].
    destruct (Hcatalog _ eq_refl) as [_ Hmiss].
    apply Hmiss. vm_compute. intros e [<-|[<-|[]]]; discriminate.
  - apply injective_projections; [|apply Hsame']. cbn [fst].
    apply (Hnone eq_refl).
Defined.

Lemma fetchJointProbabilityData_aligned_witness :
  runs sampleNetwork sampleReleaseJSON isoDateValue initialProcess
    initialProcess
  /\ option_map Joint.dates
       (fst (fetchJointProbabilityData sampleNetwork sampleReleaseJSON
               isoDateValue "TOGO" initialWorld))
     = Some ["2021-06-01"; "2020-01-15"]%string
  /\ fetchJointProbabilityData sampleNetwork sampleReleaseJSON
       isoDateValue "valueOf" initialWorld
     = (None, initialWorld).
Proof.
  split; [apply rtc_refl|].
  destruct (fetchJointProbabilityData_aligned sampleNetwork
              sampleReleaseJSON isoDateValue initialProcess "TOGO"
              (rtc_refl _ _))
    as (_ & _ & Hplain).
  destruct (fetchJointProbabilityData_aligned sampleNetwork
              sampleReleaseJSON isoDateValue initialProcess "valueOf"
              (rtc_refl _ _))
    as (_ & Hinherited & _).
  split.
  - destruct Hplain as (c & d & Hc & Hd & _ & Hdates & _).
    { apply (bool_decide_unpack _). vm_compute. exact I. }
    cbn [world initialProcess] in Hd. rewrite Hd. cbn [option_map].
    rewrite Hdates. vm_compute in Hc. injection Hc as <-. reflexivity.
  - apply Hinherited. apply (bool_decide_unpack _). vm_compute. exact I.
Defined.

Lemma updateEventUI_first_event_witness :
  runs sampleNetwork sampleReleaseJSON isoDateValue initialProcess
    initialProcess
  /\ option_map firstEventId
       (fst (updateEventUI sampleNetwork sampleReleaseJSON isoDateValue
               "TOGO" initialWorld))
     = Some (Some "2021-06-01"%string)
  /\ exists c,
       catalogAt
         (snd (updateEventUI sampleNetwork sampleReleaseJSON isoDateValue
                 "TOGO" initialWorld)) "TOGO" = Some c
       /\ forall e,
            In e (events c) ->
            exists t, isoDateValue (Event.id e) = Some t /\ t <= 18779.
Proof.
  split; [apply rtc_refl|]. split; [reflexivity|].
  destruct (updateEventUI_first_event sampleNetwork sampleReleaseJSON
              isoDateValue initialProcess "TOGO" (rtc_refl _ _))
    as (_ & _ & Hplain).
  destruct Hplain as (c & ui & Hc & Hui & (_ & _ & _ & Hfirst) & _).
  { apply (bool_decide_unpack _). vm_compute. exact I. }
  exists c. split; [exact Hc|].
  destruct (Hfirst "2021-06-01"%string) as (_ & _ & _ & Hnewest).
  { cbn [world initialProcess] in Hui.
    assert (E : option_map firstEventId (Some ui)
                = Some (Some "2021-06-01"%string))
      by (rewrite <- Hui; reflexivity).
    cbn in E. congruence. }
  destruct Hnewest as (t0 & Ht0 & Hall).
  - vm_compute in Hc. injection Hc as <-.
    repeat constructor; vm_compute; discriminate.
  - vm_compute in Ht0. injection Ht0 as <-. exact Hall.
Defined.

Lemma fetchSeasonalData_buckets_witness :
  runs sampleNetwork sampleReleaseJSON isoDateValue initialProcess
    initialProcess
  /\ exists monthlyTWL,
       fst (fetchSeasonalData sampleNetwork sampleReleaseJSON isoDateValue
              isoMonthIndex "TOGO" initialWorld) = Some monthlyTWL
       /\ monthlyTWL !! "Jun"%string = Some [Num.round64 (18 # 10)]
       /\ monthlyTWL !! "Jul"%string = Some [].
Proof.
  split; [apply rtc_refl|].
  destruct (fetchSeasonalData_buckets sampleNetwork sampleReleaseJSON
              isoDateValue isoMonthIndex initialProcess "TOGO"
              (rtc_refl _ _))
    as (_ & _ & Hplain).
  destruct Hplain as (c & Hc & Hvalid & _).
  { apply (bool_decide_unpack _). vm_compute. exact I. }
  vm_compute in Hc. injection Hc as <-.
  destruct Hvalid as (monthlyTWL & Hm & _ & Hbuckets).
  - intros e [<-|[<-|[]]]; eexists; (split; [vm_compute; reflexivity|lia]).
  - exists monthlyTWL. split; [exact Hm|]. split.
    + rewrite (Hbuckets 5%nat "Jun"%string eq_refl). vm_compute.
      reflexivity.
    + rewrite (Hbuckets 6%nat "Jul"%string eq_refl). reflexivity.
Defined.

Lemma fetchInterannualData_per_year_witness :
  runs sampleNetwork sampleReleaseJSON isoDateValue initialProcess
    initialProcess
  /\ exists d,
       fst (fetchInterannualData sampleNetwork sampleReleaseJSON
              isoDateValue isoFullYear "TOGO" initialWorld) = Some d
       /\ Sorted (fun a b => match a, b with
                             | Some x, Some y => x < y
                             | _, _ => False
                             end) (Interannual.years d)
       /\ Interannual.years d = [Some 2020; Some 2021].
Proof.
  split; [apply rtc_refl|].
  destruct (fetchInterannualData_per_year sampleNetwork sampleReleaseJSON
              isoDateValue isoFullYear initialProcess "TOGO"
              (rtc_refl _ _))
    as (_ & _ & Hplain).
  destruct Hplain as (c & d & Hc & Hd & _ & _ & _ & _ & _ & Hsorted).
  { apply (bool_decide_unpack _). vm_compute. exact I. }
  exists d. split; [exact Hd|]. split.
  - apply Hsorted. vm_compute in Hc. injection Hc as <-.
    intros e [<-|[<-|[]]]; vm_compute; discriminate.
  - cbn [world initialProcess] in Hd.
    assert (E : option_map Interannual.years (Some d)
                = Some [Some 2020; Some 2021])
      by (rewrite <- Hd; vm_compute; reflexivity).
    cbn in E. congruence.
Defined.
